(** * Comprehensive analysis pipeline of the blockchain-security MCP server

    A shallow embedding of the TypeScript sources

      - [src/utils/solidity.utils.ts]  (metadata, function and indicator scans)
      - [src/utils/command.utils.ts]   (external tool runner)
      - [src/services/knowledge.service.ts] (knowledge query gateway)
      - [src/tools/analysis/comprehensive_analysis.ts] (orchestrator,
        recommendation generator, risk scorer)

    followed by the properties of the pipeline.

    Conventions.  A JavaScript string is a sequence of UTF-16 code units; a
    source text is represented by a Rocq [string] whose characters are the
    code units, so the development covers texts over the code units 0..255.
    JavaScript numbers that hold counts and limits are integers ([nat] for
    lengths, [Z] for caller-supplied numbers); a semantic distance, a double
    in the source, is idealised as a rational. *)

From Stdlib Require Import ZArith QArith Qround Lqa Ascii String DecimalString Bool.
From stdpp Require Import base option list gmap strings sorting.

#[local] Set Warnings "-clear-no-such-hyp".

Local Open Scope string_scope.
Local Open Scope list_scope.

(* ===================================================================== *)
(** * JavaScript string primitives *)
(* ===================================================================== *)

Module JS.

(** [s.startsWith(p)] *)
Fixpoint startsWith (s p : string) : bool :=
  match p with
  | EmptyString => true
  | String a p' =>
      match s with
      | EmptyString => false
      | String b s' => if Ascii.eqb a b then startsWith s' p' else false
      end
  end.

(** [s.includes(needle)] *)
Fixpoint includes (s needle : string) : bool :=
  startsWith s needle ||
  match s with
  | EmptyString => false
  | String _ s' => includes s' needle
  end.

(** The first [n] code units: [s.substring(0, n)] for a count [n]. *)
Fixpoint take (n : nat) (s : string) : string :=
  match n with
  | O => EmptyString
  | S n' =>
      match s with
      | EmptyString => EmptyString
      | String c s' => String c (take n' s')
      end
  end.

Fixpoint drop (n : nat) (s : string) : string :=
  match n with
  | O => s
  | S n' =>
      match s with
      | EmptyString => EmptyString
      | String _ s' => drop n' s'
      end
  end.

(** [s.substring(0, e)]: a negative end is clamped to 0. *)
Definition substring0 (e : Z) (s : string) : string := take (Z.to_nat e) s.

(** [s.toLowerCase()] on the code units 0..255: A-Z and the Latin-1
    capitals (all of 192..222 but the multiplication sign) move up by 32. *)
Definition lowerChar (c : ascii) : ascii :=
  let n := nat_of_ascii c in
  if ((65 <=? n) && (n <=? 90))%nat
     || ((192 <=? n) && (n <=? 222) && negb (n =? 215))%nat
  then ascii_of_nat (n + 32) else c.

Fixpoint toLowerCase (s : string) : string :=
  match s with
  | EmptyString => EmptyString
  | String c s' => String (lowerChar c) (toLowerCase s')
  end.

(** White space and line terminators among the code units 0..255, as
    [trim] and the pattern class [\s] see them. *)
Definition isSpace (c : ascii) : bool :=
  let n := nat_of_ascii c in
  ((9 <=? n) && (n <=? 13) || (n =? 32) || (n =? 160))%nat.

Fixpoint trimStart (s : string) : string :=
  match s with
  | EmptyString => EmptyString
  | String c s' => if isSpace c then trimStart s' else s
  end.

(** The text without its trailing white space. *)
Fixpoint trimEnd (s : string) : string :=
  match s with
  | EmptyString => EmptyString
  | String c s' =>
      match trimEnd s' with
      | EmptyString => if isSpace c then EmptyString else String c EmptyString
      | t => String c t
      end
  end.

(** [s.trim()] *)
Definition trim (s : string) : string := trimEnd (trimStart s).

(** [s.replace(pat, by)] for a string pattern: the first occurrence only. *)
Fixpoint replaceFirst (s pat by_ : string) : string :=
  if startsWith s pat then by_ +:+ drop (String.length pat) s
  else match s with
       | EmptyString => EmptyString
       | String c s' => String c (replaceFirst s' pat by_)
       end.

(** [parts.join(sep)] *)
Fixpoint join (sep : string) (parts : list string) : string :=
  match parts with
  | [] => EmptyString
  | [p] => p
  | p :: rest => p +:+ sep +:+ join sep rest
  end.

(** [String(n)] for a non-negative integer and for an integer. *)
Definition ofNat (n : nat) : string := NilEmpty.string_of_uint (Nat.to_uint n).
Definition ofZ (z : Z) : string := NilEmpty.string_of_int (Z.to_int z).

Definition isDigit (c : ascii) : bool :=
  let n := nat_of_ascii c in ((48 <=? n) && (n <=? 57))%nat.

(** [parseInt(s)] on a string of decimal digits. *)
Definition parseDigits (s : string) : nat :=
  fold_left (fun acc c => acc * 10 + (nat_of_ascii c - 48))%nat
            (list_ascii_of_string s) 0%nat.

(** The number of pieces of [s.split("\n")]. *)
Fixpoint countLines (s : string) : nat :=
  match s with
  | EmptyString => 1
  | String c s' =>
      if Ascii.eqb c "010"%char then S (countLines s') else countLines s'
  end.

(** Insertion-ordered [Set]: [Array.from(new Set(xs))] keeps the first
    occurrence of every value, in the order of first insertion. *)
Definition setAdd `{EqDecision A} (acc : list A) (x : A) : list A :=
  if decide (x ∈ acc) then acc else acc ++ [x].

Definition setOf `{EqDecision A} (xs : list A) : list A :=
  fold_left setAdd xs [].

(** [xs.slice(0, e)]: a negative end counts from the end of the array. *)
Definition slice0 {A} (e : Z) (xs : list A) : list A :=
  if (e <? 0)%Z then List.firstn (length xs - Z.to_nat (- e)) xs
  else List.firstn (Z.to_nat e) xs.

(** [Math.round(x)]: the nearest integer, halves upwards. *)
Definition round (x : Q) : Z := Qfloor (x + (1 # 2)).

(** [Math.ceil(a / b)] for integers [a] and a positive count [b]. *)
Definition ceilDiv (a : Z) (b : nat) : Z :=
  (- ((- a) / Z.of_nat b))%Z.

End JS.

(* ===================================================================== *)
(** * Regular expressions with JavaScript's backtracking semantics *)
(* ===================================================================== *)

(** The scans are written with regular-expression literals.  The patterns
    are represented by their syntax trees and run by a backtracking matcher
    in continuation-passing style: alternatives are tried left to right,
    quantifiers are greedy, an iteration of [*] that consumes nothing is
    rejected, and capture groups record the text they matched. *)

Module Regex.

Record flags := Flags {
  ignoreCase : bool;   (* i *)
  multiline  : bool;   (* m *)
  dotAll     : bool    (* s *)
}.

Definition noFlags : flags := Flags false false false.
Definition flagI : flags := Flags true false false.
Definition flagM : flags := Flags false true false.
Definition flagS : flags := Flags false false true.

Inductive regex : Type :=
| Eps                                   (* the empty pattern *)
| Chr (c : ascii)                       (* a literal character *)
| Dot                                   (* .  *)
| Space                                 (* \s *)
| Word                                  (* \w *)
| Digit                                 (* \d *)
| OneOf (cs : string)                   (* [abc]  *)
| NoneOf (cs : string)                  (* [^abc] *)
| Seq (r1 r2 : regex)
| Alt (r1 r2 : regex)                   (* r1|r2 *)
| Star (r : regex)                      (* r*, greedy *)
| Group (n : nat) (r : regex)           (* the n-th capture group *)
| WordB                                 (* \b *)
| Bol.                                  (* ^  *)

(** [r+] and [r?]; the patterns of this program never quantify a capture
    group with [+], so unfolding the first iteration is exact. *)
Definition Plus (r : regex) : regex := Seq r (Star r).
Definition Opt (r : regex) : regex := Alt r Eps.

Fixpoint Lit (s : string) : regex :=
  match s with
  | EmptyString => Eps
  | String c EmptyString => Chr c
  | String c s' => Seq (Chr c) (Lit s')
  end.

Fixpoint Cat (rs : list regex) : regex :=
  match rs with
  | [] => Eps
  | [r] => r
  | r :: rs' => Seq r (Cat rs')
  end.

Fixpoint AltL (rs : list regex) : regex :=
  match rs with
  | [] => Eps
  | [r] => r
  | r :: rs' => Alt r (AltL rs')
  end.

(** The state of a match attempt: the character before the current
    position, the position, the text still ahead and the captures. *)
Record state := State {
  prev : option ascii;
  pos  : nat;
  rest : string;
  caps : gmap nat string
}.

Definition isWordChar (c : ascii) : bool :=
  let n := nat_of_ascii c in
  ((48 <=? n) && (n <=? 57) || (65 <=? n) && (n <=? 90)
   || (97 <=? n) && (n <=? 122) || (n =? 95))%nat.

Definition isLineTerminator (c : ascii) : bool :=
  let n := nat_of_ascii c in ((n =? 10) || (n =? 13))%nat.

(** Canonicalisation of a code unit under the [i] flag (the patterns hold
    ASCII letters only). *)
Definition canon (c : ascii) : ascii :=
  let n := nat_of_ascii c in
  if ((97 <=? n) && (n <=? 122))%nat then ascii_of_nat (n - 32) else c.

Definition sameChar (fl : flags) (a b : ascii) : bool :=
  if ignoreCase fl then Ascii.eqb (canon a) (canon b) else Ascii.eqb a b.

Fixpoint memChar (fl : flags) (a : ascii) (cs : string) : bool :=
  match cs with
  | EmptyString => false
  | String c cs' => sameChar fl a c || memChar fl a cs'
  end.

(** Consume one character satisfying [p]. *)
Definition eat (p : ascii -> bool) (st : state)
    (k : state -> option state) : option state :=
  match rest st with
  | EmptyString => None
  | String c s' =>
      if p c then k (State (Some c) (S (pos st)) s' (caps st)) else None
  end.

Definition headChar (s : string) : option ascii :=
  match s with
  | EmptyString => None
  | String c _ => Some c
  end.

Definition isWordOpt (c : option ascii) : bool :=
  match c with
  | Some a => isWordChar a
  | None => false
  end.

Fixpoint run (fl : flags) (r : regex) (st : state)
    (k : state -> option state) {struct r} : option state :=
  match r with
  | Eps => k st
  | Chr c => eat (fun a => sameChar fl a c) st k
  | Dot => eat (fun a => dotAll fl || negb (isLineTerminator a)) st k
  | Space => eat JS.isSpace st k
  | Word => eat isWordChar st k
  | Digit => eat JS.isDigit st k
  | OneOf cs => eat (fun a => memChar fl a cs) st k
  | NoneOf cs => eat (fun a => negb (memChar fl a cs)) st k
  | Seq r1 r2 => run fl r1 st (fun st1 => run fl r2 st1 k)
  | Alt r1 r2 =>
      match run fl r1 st k with
      | Some res => Some res
      | None => run fl r2 st k
      end
  | Star r1 =>
      (fix loop (fuel : nat) (st0 : state) {struct fuel} : option state :=
         match fuel with
         | O => k st0
         | S fuel' =>
             match run fl r1 st0
                     (fun st1 => if (pos st0 <? pos st1)%nat
                                 then loop fuel' st1 else None) with
             | Some res => Some res
             | None => k st0
             end
         end) (S (String.length (rest st))) st
  | Group n r1 =>
      run fl r1 st
          (fun st1 =>
             k (State (prev st1) (pos st1) (rest st1)
                      (<[n := JS.take (pos st1 - pos st) (rest st)]> (caps st1))))
  | WordB =>
      if xorb (isWordOpt (prev st)) (isWordOpt (headChar (rest st)))
      then k st else None
  | Bol =>
      match prev st with
      | None => k st
      | Some c => if multiline fl && isLineTerminator c then k st else None
      end
  end.

(** A successful match: where it starts, the matched text, the captures. *)
Record result := Result {
  index   : nat;
  matched : string;
  groups  : gmap nat string
}.

(** One anchored attempt at the current position. *)
Definition matchHere (fl : flags) (r : regex) (p : option ascii) (i : nat)
    (s : string) : option result :=
  match run fl r (State p i s ∅) Some with
  | Some st => Some (Result i (JS.take (pos st - i) s) (caps st))
  | None => None
  end.

(** [re.exec(s)] and [s.match(re)] without the [g] flag: the leftmost
    match. *)
Fixpoint execFrom (fl : flags) (r : regex) (p : option ascii) (i : nat)
    (s : string) : option result :=
  match matchHere fl r p i s with
  | Some res => Some res
  | None =>
      match s with
      | EmptyString => None
      | String c s' => execFrom fl r (Some c) (S i) s'
      end
  end.

Definition exec (fl : flags) (r : regex) (s : string) : option result :=
  execFrom fl r None 0 s.

(** [re.test(s)], and the truth value of [s.match(re)]. *)
Definition test (fl : flags) (r : regex) (s : string) : bool :=
  bool_decide (is_Some (exec fl r s)).

(** All matches under the [g] flag, left to right without overlap: after a
    match the search resumes where the match ended ([skip] counts the
    characters still to pass over), one character further after an empty
    match. *)
Fixpoint scanFrom (fl : flags) (r : regex) (p : option ascii) (i : nat)
    (s : string) (skip : nat) : list result :=
  match skip with
  | S skip' =>
      match s with
      | EmptyString => []
      | String c s' => scanFrom fl r (Some c) (S i) s' skip'
      end
  | O =>
      match matchHere fl r p i s with
      | Some res =>
          res :: match s with
                 | EmptyString => []
                 | String c s' =>
                     scanFrom fl r (Some c) (S i) s'
                              (String.length (matched res) - 1)
                 end
      | None =>
          match s with
          | EmptyString => []
          | String c s' => scanFrom fl r (Some c) (S i) s' 0
          end
      end
  end.

(** [s.match(re) || []] for a [g]-flagged pattern, and the successive
    results of [re.exec(s)] in a loop. *)
Definition matchAll (fl : flags) (r : regex) (s : string) : list result :=
  scanFrom fl r None 0 s 0.

End Regex.

(* ===================================================================== *)
(** * src/utils/solidity.utils.ts *)
(* ===================================================================== *)

Module SolidityUtils.
Import Regex.

Record SolidityMetadata := {
  pragmas    : list string;
  imports    : list string;
  contracts  : list string;
  interfaces : list string;
  libraries  : list string
}.

Inductive Visibility := VPublic | VExternal | VInternal | VPrivate.
Inductive Mutability := MPure | MView | MPayable | MNonpayable.

#[global] Instance Visibility_eq_dec : EqDecision Visibility.
Proof. solve_decision. Defined.
#[global] Instance Mutability_eq_dec : EqDecision Mutability.
Proof. solve_decision. Defined.

Record SolidityFunction := {
  name       : string;
  visibility : Visibility;
  mutability : Mutability;
  modifiers  : list string;
  lineNumber : nat
}.

(** ** The patterns *)

(** [/pragma\s+solidity\s+[^;]+;/g] *)
Definition rePragma : regex :=
  Cat [Lit "pragma"; Plus Space; Lit "solidity"; Plus Space;
       Plus (NoneOf ";"); Chr ";"].

(** [/import\s+[^;]+;/g] *)
Definition reImport : regex :=
  Cat [Lit "import"; Plus Space; Plus (NoneOf ";"); Chr ";"].

(** [/contract\s+(\w+)/g], [/interface\s+(\w+)/g], [/library\s+(\w+)/g] *)
Definition reDecl (kw : string) : regex :=
  Cat [Lit kw; Plus Space; Group 1 (Plus Word)].

(** [/function\s+(\w+)\s*\([^)]*\)\s*(public|external|internal|private)?\s*(view|pure|payable)?/g] *)
Definition reFunction : regex :=
  Cat [Lit "function"; Plus Space; Group 1 (Plus Word); Star Space;
       Chr "("; Star (NoneOf ")"); Chr ")"; Star Space;
       Opt (Group 2 (AltL [Lit "public"; Lit "external"; Lit "internal";
                           Lit "private"]));
       Star Space;
       Opt (Group 3 (AltL [Lit "view"; Lit "pure"; Lit "payable"]))].

Definition extractMetadata (src : string) : SolidityMetadata :=
  {| pragmas := map (fun m => JS.trim (matched m)) (matchAll noFlags rePragma src);
     imports := map (fun m => JS.trim (matched m)) (matchAll noFlags reImport src);
     contracts :=
       map (fun m => JS.replaceFirst (matched m) "contract " "")
           (matchAll noFlags (reDecl "contract") src);
     interfaces :=
       map (fun m => JS.replaceFirst (matched m) "interface " "")
           (matchAll noFlags (reDecl "interface") src);
     libraries :=
       map (fun m => JS.replaceFirst (matched m) "library " "")
           (matchAll noFlags (reDecl "library") src) |}.

(** [(m[2] || "internal") as SolidityFunction["visibility"]]: the group is
    one of the four keywords when it took part in the match. *)
Definition visibilityOf (g : option string) : Visibility :=
  match g with
  | Some "public" => VPublic
  | Some "external" => VExternal
  | Some "private" => VPrivate
  | _ => VInternal
  end.

(** [(m[3] || "nonpayable") as SolidityFunction["mutability"]] *)
Definition mutabilityOf (g : option string) : Mutability :=
  match g with
  | Some "view" => MView
  | Some "pure" => MPure
  | Some "payable" => MPayable
  | _ => MNonpayable
  end.

(** [(s.match(/\n/g) || []).length] *)
Fixpoint countNewlines (s : string) : nat :=
  match s with
  | EmptyString => 0
  | String c s' =>
      if Ascii.eqb c "010"%char then S (countNewlines s') else countNewlines s'
  end.

(** The record pushed for one match [m] of the loop. *)
Definition functionOfMatch (src : string) (m : result) : SolidityFunction :=
  {| name := default "" (groups m !! 1%nat);
     visibility := visibilityOf (groups m !! 2%nat);
     mutability := mutabilityOf (groups m !! 3%nat);
     modifiers := [];
     lineNumber := countNewlines (JS.take (index m) src) + 1 |}.

(** The [while ((m = re.exec(src)))] loop visits the successive matches;
    every match starts with the word [function], so none is empty and the
    loop ends. *)
Definition functionMatches (src : string) : list result :=
  matchAll noFlags reFunction src.

Definition extractFunctions (src : string) : list SolidityFunction :=
  map (functionOfMatch src) (functionMatches src).

(** ** Patterns of the indicator scan *)

(** [/\.call\{[^}]*value:/] *)
Definition reCallValue : regex :=
  Cat [Lit ".call{"; Star (NoneOf "}"); Lit "value:"].

(** [/function\s+\w+.*external.*\{[^}]*\b(transfer|withdraw|withdrawAll|setOwner|changeOwner|destroy|kill)\b/i] *)
Definition rePrivileged : regex :=
  Cat [Lit "function"; Plus Space; Plus Word; Star Dot; Lit "external";
       Star Dot; Chr "{"; Star (NoneOf "}"); WordB;
       Group 1 (AltL [Lit "transfer"; Lit "withdraw"; Lit "withdrawAll";
                      Lit "setOwner"; Lit "changeOwner"; Lit "destroy";
                      Lit "kill"]);
       WordB].

(** [/require\(.*==.*msg\.sender/i] *)
Definition reRequireSender : regex :=
  Cat [Lit "require("; Star Dot; Lit "=="; Star Dot; Lit "msg.sender"].

(** [/\+\+|--|\+\s*[^=]|-\s*[^=]/] *)
Definition reArithmetic : regex :=
  AltL [Lit "++"; Lit "--";
        Cat [Chr "+"; Star Space; NoneOf "="];
        Cat [Chr "-"; Star Space; NoneOf "="]].

(** [/pragma\s+solidity\s+[>=]0\.8/] *)
Definition rePragma08 : regex :=
  Cat [Lit "pragma"; Plus Space; Lit "solidity"; Plus Space; OneOf ">=";
       Lit "0.8"].

(** [/\.call\(|\.send\(|\.transfer\(/] *)
Definition reExternalCall : regex :=
  AltL [Lit ".call("; Lit ".send("; Lit ".transfer("].

(** [/require\(.*success|if\s*\(.*success/] *)
Definition reSuccessChecked : regex :=
  AltL [Cat [Lit "require("; Star Dot; Lit "success"];
        Cat [Lit "if"; Star Space; Chr "("; Star Dot; Lit "success"]].

(** [/block\.timestamp|block\.number|now\b/] *)
Definition reTime : regex :=
  AltL [Lit "block.timestamp"; Lit "block.number"; Cat [Lit "now"; WordB]].

(** [/require\(.*block\.(timestamp|number)/] *)
Definition reRequireBlock : regex :=
  Cat [Lit "require("; Star Dot; Lit "block.";
       Group 1 (AltL [Lit "timestamp"; Lit "number"])].

(** [/for\s*\([^)]*\)\s*\{[^}]*\.call\(/] *)
Definition reLoopCall : regex :=
  Cat [Lit "for"; Star Space; Chr "("; Star (NoneOf ")"); Chr ")";
       Star Space; Chr "{"; Star (NoneOf "}"); Lit ".call("].

(** [/function\s+(\w+).*\{/g] *)
Definition reFunctionBody : regex :=
  Cat [Lit "function"; Plus Space; Group 1 (Plus Word); Star Dot; Chr "{"].

(** [/event\s+\w+/g] *)
Definition reEvent : regex := Cat [Lit "event"; Plus Space; Plus Word].

(** [/storage\s+\w+\s+\w+;/] *)
Definition reStoragePointer : regex :=
  Cat [Lit "storage"; Plus Space; Plus Word; Plus Space; Plus Word; Chr ";"].

(** [/=\s*[^;]+;/] *)
Definition reAssignment : regex :=
  Cat [Chr "="; Star Space; Plus (NoneOf ";"); Chr ";"].

(** [/pragma\s+solidity\s+([^;]+);/g] *)
Definition rePragmaVersion : regex :=
  Cat [Lit "pragma"; Plus Space; Lit "solidity"; Plus Space;
       Group 1 (Plus (NoneOf ";")); Chr ";"].

(** [/pragma\s+solidity\s+0\.(4|5|6|7)\./] *)
Definition reOldPragma : regex :=
  Cat [Lit "pragma"; Plus Space; Lit "solidity"; Plus Space; Lit "0.";
       Group 1 (AltL [Chr "4"; Chr "5"; Chr "6"; Chr "7"]); Chr "."].

(** [/function\s+\w+.*address.*\{/] *)
Definition reAddressParam : regex :=
  Cat [Lit "function"; Plus Space; Plus Word; Star Dot; Lit "address";
       Star Dot; Chr "{"].

(** [/require\(.*!=.*address\(0\)/] *)
Definition reZeroCheck : regex :=
  Cat [Lit "require("; Star Dot; Lit "!="; Star Dot; Lit "address(0)"].

(** [/function\s+\w+.*payable.*external.*\{/] *)
Definition rePayableExternal : regex :=
  Cat [Lit "function"; Plus Space; Plus Word; Star Dot; Lit "payable";
       Star Dot; Lit "external"; Star Dot; Chr "{"].

(** [/onlyOwner|AccessControl/] *)
Definition reAccessControl : regex :=
  AltL [Lit "onlyOwner"; Lit "AccessControl"].

(** [/\.transfer\(|\.send\(/] *)
Definition reTransferSend : regex := AltL [Lit ".transfer("; Lit ".send("].

(** [/require\(.*success/] *)
Definition reRequireSuccess : regex :=
  Cat [Lit "require("; Star Dot; Lit "success"].

(** [/block\.(timestamp|number|hash|difficulty|gaslimit)/] *)
Definition reBlockField : regex :=
  Cat [Lit "block.";
       Group 1 (AltL [Lit "timestamp"; Lit "number"; Lit "hash";
                      Lit "difficulty"; Lit "gaslimit"])].

(** [/random|Random/] *)
Definition reRandom : regex := AltL [Lit "random"; Lit "Random"].

(** [/continue|break/] *)
Definition reContinueBreak : regex := AltL [Lit "continue"; Lit "break"].

(** [/^\s*(uint|int|bool|address|string|bytes|mapping)\s+\w+/gm] *)
Definition reStateVar : regex :=
  Cat [Bol; Star Space;
       Group 1 (AltL [Lit "uint"; Lit "int"; Lit "bool"; Lit "address";
                      Lit "string"; Lit "bytes"; Lit "mapping"]);
       Plus Space; Plus Word].

(** [/function\s+\w+.*\([^)]*\)[^{]*\{[^}]*\b(uint|int|bool|address|string|bytes)\s+(\w+)/g] *)
Definition reLocalVar : regex :=
  Cat [Lit "function"; Plus Space; Plus Word; Star Dot; Chr "(";
       Star (NoneOf ")"); Chr ")"; Star (NoneOf "{"); Chr "{";
       Star (NoneOf "}"); WordB;
       Group 1 (AltL [Lit "uint"; Lit "int"; Lit "bool"; Lit "address";
                      Lit "string"; Lit "bytes"]);
       Plus Space; Group 2 (Plus Word)].

(** [indicators.push(msg)] under a condition *)
Definition pushIf (c : bool) (msg : string) (acc : list string) : list string :=
  if c then acc ++ [msg] else acc.

Definition checkVulnerabilityIndicators (src : string) : list string :=
  let has := JS.includes src in
  let indicators : list string := [] in
  (* Reentrancy checks *)
  let indicators :=
    pushIf ((has ".call{" || has ".call(" || has ".send(" || has ".transfer(")
            && negb (has "nonReentrant") && negb (has "ReentrancyGuard"))
      "CRITICAL: Potential reentrancy - external call without guard" indicators in
  let indicators :=
    pushIf (test noFlags reCallValue src && negb (has "nonReentrant"))
      "CRITICAL: ETH transfer via call without reentrancy protection" indicators in
  (* Access control *)
  let indicators :=
    pushIf (has "tx.origin")
      "CRITICAL: tx.origin usage - vulnerable to phishing attacks" indicators in
  let indicators :=
    pushIf (test flagI rePrivileged src
            && negb (has "onlyOwner") && negb (has "AccessControl"))
      "HIGH: Privileged function without access control" indicators in
  (* Dangerous operations *)
  let indicators :=
    pushIf (has "selfdestruct" && negb (has "onlyOwner"))
      "CRITICAL: selfdestruct without access control" indicators in
  let indicators :=
    pushIf (has "delegatecall" && negb (test flagI reRequireSender src))
      "CRITICAL: delegatecall without proper validation" indicators in
  (* Integer overflow/underflow *)
  let indicators :=
    pushIf (test noFlags reArithmetic src && negb (has "SafeMath")
            && negb (test noFlags rePragma08 src))
      "HIGH: Unchecked arithmetic - potential overflow/underflow" indicators in
  (* Unchecked external calls *)
  let indicators :=
    pushIf (test noFlags reExternalCall src
            && negb (test noFlags reSuccessChecked src))
      "MEDIUM: Unchecked external call return value" indicators in
  (* Front-running vulnerabilities *)
  let indicators :=
    pushIf (test noFlags reTime src && test noFlags reRequireBlock src)
      "MEDIUM: Time-dependent logic - potential front-running" indicators in
  (* Gas griefing *)
  let indicators :=
    pushIf (test noFlags reLoopCall src)
      "MEDIUM: Loop with external calls - gas griefing risk" indicators in
  (* Missing events *)
  let stateChangingFns := matchAll noFlags reFunctionBody src in
  let events := matchAll noFlags reEvent src in
  let indicators :=
    pushIf (length events * 2 <? length stateChangingFns)%nat
      "LOW: Missing event emissions for state changes" indicators in
  (* Assembly usage *)
  let indicators :=
    pushIf (has "assembly")
      "HIGH: Inline assembly - requires careful security review" indicators in
  (* Uninitialized storage *)
  let indicators :=
    pushIf (test noFlags reStoragePointer src
            && negb (test noFlags reAssignment src))
      "HIGH: Uninitialized storage pointer" indicators in
  (* Floating pragma *)
  let pragmas := map matched (matchAll noFlags rePragmaVersion src) in
  let indicators :=
    pushIf (existsb (fun p => JS.includes p "^" || JS.includes p ">="
                              || JS.includes p "~") pragmas)
      "MEDIUM: Floating pragma - use fixed version for production" indicators in
  (* Outdated compiler *)
  let indicators :=
    pushIf (test noFlags reOldPragma src)
      "HIGH: Outdated Solidity version - known vulnerabilities" indicators in
  (* Missing zero address checks *)
  let indicators :=
    pushIf (test noFlags reAddressParam src
            && negb (test noFlags reZeroCheck src))
      "MEDIUM: Missing zero address validation" indicators in
  (* Unprotected payable functions *)
  let indicators :=
    pushIf (test noFlags rePayableExternal src
            && negb (test noFlags reAccessControl src))
      "HIGH: Unprotected payable function" indicators in
  (* Missing return value checks *)
  let indicators :=
    pushIf (test noFlags reTransferSend src
            && negb (test noFlags reRequireSuccess src))
      "MEDIUM: Missing return value check for transfer/send" indicators in
  (* Weak randomness *)
  let indicators :=
    pushIf (test noFlags reBlockField src && test noFlags reRandom src)
      "CRITICAL: Weak randomness source - predictable values" indicators in
  (* DoS with failed call *)
  let indicators :=
    pushIf (test noFlags reLoopCall src
            && negb (test noFlags reContinueBreak src))
      "MEDIUM: DoS risk - loop with external calls may fail" indicators in
  (* Shadowing state variables *)
  let stateVars := matchAll flagM reStateVar src in
  let localVars := matchAll noFlags reLocalVar src in
  let indicators :=
    pushIf ((0 <? length stateVars) && (0 <? length localVars))%nat
      "LOW: Potential variable shadowing - verify manually" indicators in
  indicators.

Definition detectProtocolType (src : string) : list string :=
  let has := JS.includes src in
  let protos : list string := [] in
  let protos := pushIf (has "transfer(" || has "balanceOf(") "ERC20" protos in
  let protos := pushIf (has "ownerOf(" || has "tokenURI(") "ERC721" protos in
  let protos := pushIf (has "IVault" || has "getPoolTokens") "Balancer" protos in
  let protos := pushIf (has "getReserves" || has "UniswapV2") "Uniswap" protos in
  let protos :=
    pushIf (has "AggregatorV3" || has "latestRoundData") "Chainlink" protos in
  let protos :=
    pushIf (has "Ownable" || has "AccessControl") "OpenZeppelin" protos in
  protos.

End SolidityUtils.

(* ===================================================================== *)
(** * src/core: errors, configuration, responses *)
(* ===================================================================== *)

Module Core.

(** The thrown values of the program: the three [McpError] subclasses of
    [core/errors.ts] and any other [Error] (such as the ones the vector
    database client raises). *)
Inductive Error :=
| FileError (msg path : string)
| ToolNotFoundError (tool hint : string)
| ToolExecutionError (msg tool : string)
| OtherError (msg : string).

(** [e.message] *)
Definition message (e : Error) : string :=
  match e with
  | FileError msg _ => msg
  | ToolNotFoundError tool _ => "Tool not found: " +:+ tool
  | ToolExecutionError msg _ => msg
  | OtherError msg => msg
  end.

(** [String(e)]: the name of the error class and the message. *)
Definition errorString (e : Error) : string :=
  match e with
  | OtherError msg => "Error: " +:+ msg
  | _ => "McpError: " +:+ message e
  end.

(** A computation that returns a value or throws. *)
Inductive Res (A : Type) :=
| Ok (a : A)
| Throw (e : Error).
Arguments Ok {A} a.
Arguments Throw {A} e.

(** The part of [core/config.ts] the pipeline reads. *)
Record Config := {
  maxFileSize     : nat;   (* config.limits.maxFileSize *)
  timeoutDefault  : Z;     (* config.timeouts.default *)
  timeoutAnalysis : Z      (* config.timeouts.analysis *)
}.

End Core.

(* ===================================================================== *)
(** * src/utils/command.utils.ts *)
(* ===================================================================== *)

Module Command.
Import Core.

(** The error object [execSync] throws when the child fails: its message,
    the captured output (absent when nothing was captured) and the exit
    status ([null] when the child was killed, as on a timeout). *)
Record ExecError := {
  e_message : string;
  e_stdout  : option string;
  e_stderr  : option string;
  e_status  : option Z
}.

Inductive ExecOutcome :=
| Returned (stdout : string)     (* exit code 0 *)
| Failed (e : ExecError).        (* [execSync] throws *)

Record ExecOptions := {
  opt_cwd     : option string;
  opt_timeout : option Z
}.

(** The operating system as the runner sees it: what a command line does
    under given options, how many milliseconds pass between the two
    [Date.now()] readings around it, and the working directory of the
    process. *)
Record Shell := {
  execSync   : string -> ExecOptions -> ExecOutcome;
  elapsed    : string -> ExecOptions -> Z;
  processCwd : string
}.

Record CommandResult := {
  success  : bool;
  command  : string;
  stdout   : string;
  stderr   : string;
  duration : Z;
  exitCode : Z
}.

(** The [HINTS] table. *)
Definition HINTS (tool : string) : option string :=
  match tool with
  | "slither" => Some "pip install slither-analyzer"
  | "myth" => Some "pip install mythril"
  | "forge" => Some "curl -L https://foundry.paradigm.xyz | bash && foundryup"
  | "echidna-test" => Some "https://github.com/crytic/echidna"
  | "solhint" => Some "npm install -g solhint"
  | "surya" => Some "npm install -g surya"
  | "aderyn" => Some "cargo install aderyn"
  | "halmos" => Some "pip install halmos"
  | _ => None
  end.

Definition isToolInstalled (sh : Shell) (tool : string) : bool :=
  match execSync sh ("which " +:+ tool) {| opt_cwd := None; opt_timeout := None |} with
  | Returned _ => true
  | Failed _ => false
  end.

Definition getInstallHint (tool : string) : string :=
  match HINTS tool with
  | Some h => h
  | None => "Install " +:+ tool
  end.

(** [v || d] on an optional string: absent and empty are both falsy. *)
Definition orString (v : option string) (d : string) : string :=
  match v with
  | Some EmptyString | None => d
  | Some s => s
  end.

(** [e.status || 1] *)
Definition orStatus (v : option Z) : Z :=
  match v with
  | Some 0%Z | None => 1%Z
  | Some n => n
  end.

Definition truthy (v : option string) : bool :=
  match v with
  | Some EmptyString | None => false
  | Some _ => true
  end.

Definition executeCommand (cfg : Config) (sh : Shell) (cmd : string)
    (args : list string) (cwd : option string) (timeout : option Z)
    : Res CommandResult :=
  if negb (isToolInstalled sh cmd) then
    Throw (ToolNotFoundError cmd (getInstallHint cmd))
  else
    let opts := {| opt_cwd := Some (default (processCwd sh) cwd);
                   opt_timeout := Some (default (timeoutDefault cfg) timeout) |} in
    let full := cmd +:+ " " +:+ JS.join " " args in
    match execSync sh full opts with
    | Returned out =>
        Ok {| success := true; command := full; stdout := out; stderr := "";
              duration := elapsed sh full opts; exitCode := 0 |}
    | Failed e =>
        if truthy (e_stdout e) then
          Ok {| success := true; command := full;
                stdout := default "" (e_stdout e);
                stderr := orString (e_stderr e) "";
                duration := elapsed sh full opts;
                exitCode := orStatus (e_status e) |}
        else Throw (ToolExecutionError (e_message e) cmd)
    end.

End Command.

(* ===================================================================== *)
(** * src/services/knowledge.service.ts over src/database/vector-db.ts *)
(* ===================================================================== *)

Module Knowledge.
Import Core.

(** [COLLECTIONS] *)
Inductive Collection :=
| EXPLOITS | AUDIT_FINDINGS | PATTERNS | SWC | FALSE_POSITIVES.

(** A metadata object: keys to values, the values held as strings. *)
Abbreviation Metadata := (gmap string string).

Record QueryResult := {
  id       : string;
  document : string;
  metadata : Metadata;
  distance : Q
}.

(** One call of [vectorDb.query(collection, text, { nResults, where })]. *)
Record Probe := {
  collection : Collection;
  queryText  : string;
  nResults   : Z;
  whereEq    : option (string * string)
}.

(** The vector database behind the gateway: a call answers with its rows
    or raises.  The client returns four parallel arrays ([ids],
    [documents], [metadatas], [distances]) of one length; they are
    represented by the list of their rows, which is what the service
    builds from them with [results.ids.map((id, i) => ...)]. *)
Definition VectorDb := Probe -> Res (list QueryResult).

(** Asynchronous code that talks to the database: it may raise, and the
    calls it issues are recorded in order. *)
Definition M (A : Type) : Type := list Probe -> Res A * list Probe.

Definition ret {A} (a : A) : M A := fun log => (Ok a, log).

Definition bind {A B} (m : M A) (f : A -> M B) : M B :=
  fun log =>
    match m log with
    | (Ok a, log') => f a log'
    | (Throw e, log') => (Throw e, log')
    end.

Notation "x <-- m ;; k" := (bind m (fun x => k))
  (at level 100, m at next level, right associativity).

(** [Promise.all([a, b, c])]: the three calls are all started; the result
    is the triple of their values, or the first rejection. *)
Definition promiseAll3 {A B C} (a : M A) (b : M B) (c : M C) : M (A * B * C) :=
  fun log =>
    let '(ra, log1) := a log in
    let '(rb, log2) := b log1 in
    let '(rc, log3) := c log2 in
    (match ra, rb, rc with
     | Ok x, Ok y, Ok z => Ok (x, y, z)
     | Throw e, _, _ => Throw e
     | _, Throw e, _ => Throw e
     | _, _, Throw e => Throw e
     end, log3).

(** [vectorDb.query]; [nResults] defaults to 5. *)
Definition query (db : VectorDb) (c : Collection) (text : string)
    (n : option Z) (w : option (string * string)) : M (list QueryResult) :=
  fun log =>
    let p := {| collection := c; queryText := text;
                nResults := default 5%Z n; whereEq := w |} in
    (db p, log ++ [p]).

(** [v ? { key: v } : undefined] *)
Definition whereOf (key : string) (v : option string) : option (string * string) :=
  match v with
  | Some EmptyString | None => None
  | Some s => Some (key, s)
  end.

Definition findSimilarExploits (db : VectorDb) (q : string)
    (limit : option Z) (category : option string) : M (list QueryResult) :=
  query db EXPLOITS q (Some (default 5%Z limit)) (whereOf "category" category).

Definition findSimilarAuditFindings (db : VectorDb) (q : string)
    (limit : option Z) (severity : option string) : M (list QueryResult) :=
  query db AUDIT_FINDINGS q (Some (default 5%Z limit)) (whereOf "severity" severity).

Definition querySWC (db : VectorDb) (q : string) (limit : option Z)
    : M (list QueryResult) :=
  query db SWC q (Some (default 5%Z limit)) None.

Record SearchAllResult := {
  exploits      : list QueryResult;
  auditFindings : list QueryResult;
  swc           : list QueryResult
}.

Definition searchAll (db : VectorDb) (q : string) (limit : option Z)
    : M SearchAllResult :=
  let lim := default 3%Z limit in
  r <-- promiseAll3 (findSimilarExploits db q (Some lim) None)
                    (findSimilarAuditFindings db q (Some lim) None)
                    (querySWC db q (Some lim)) ;;
  let '(e, a, s) := r in
  ret {| exploits := e; auditFindings := a; swc := s |}.

End Knowledge.

(* ===================================================================== *)
(** * src/tools/analysis/comprehensive_analysis.ts *)
(* ===================================================================== *)

Module Comprehensive.
Import Core Regex.

(** ** Data of the report *)

Record FileInfo := {
  path  : string;
  fname : string;     (* name *)
  size  : nat;
  lines : nat
}.

Record AnalysisMetadata := {
  contracts               : list string;
  interfaces              : list string;
  libraries               : list string;
  compilerVersions        : list string;
  hasFloatingPragma       : bool;
  hasOutdatedCompiler     : bool;
  dependencies            : list string;
  hasOpenZeppelin         : bool;
  hasExternalDependencies : bool
}.

Record FunctionSummary := {
  totalFunctions : nat;
  external       : nat;
  public         : nat;
  payable        : nat;
  view           : nat;
  stateChanging  : nat
}.

Record SeverityBreakdown := {
  critical : nat;
  high     : nat;
  medium   : nat;
  low      : nat
}.

Record Security := {
  hasReentrancyGuard : bool;
  hasAccessControl   : bool;
  hasSafeMath        : bool;
  indicators         : list string;
  severityBreakdown  : SeverityBreakdown;
  privilegedFunctionsWithoutAccessControl : list string
}.

Record FunctionEntry := {
  fn_name       : string;
  fn_line       : nat;
  fn_mutability : SolidityUtils.Mutability
}.

Record FunctionLists := {
  fns_external : list FunctionEntry;
  fns_public   : list FunctionEntry
}.

Record ContractAnalysis := {
  file      : FileInfo;
  metadata  : AnalysisMetadata;
  summary   : FunctionSummary;
  security  : Security;
  protocols : list string;
  functions : FunctionLists
}.

(** What [formatResult] returns. *)
Record Formatted := {
  f_id       : string;
  relevance  : string;
  f_metadata : Knowledge.Metadata;
  excerpt    : string
}.

(** [knowledgeResults]: an object that is empty or has the keys [swc],
    [exploits] and [auditFindings]. *)
Abbreviation KnowledgeResults := (gmap string (list Formatted)).

Record SimilarExploit := {
  se_id        : string;
  similarity   : string;
  se_name      : option string;
  protocol     : option string;
  category     : option string;
  loss         : option string;
  date         : option string;
  source       : option string;
  description  : string;
  attackVector : option string
}.

Inductive Level := INFO | LOW | MEDIUM | HIGH | CRITICAL.

Record RiskAssessment := {
  level   : Level;
  score   : nat;
  factors : list string
}.

(** ** Patterns of the contract analysis *)

(** [/solidity\s+([^;]+)/] *)
Definition reSolidityVersion : regex :=
  Cat [Lit "solidity"; Plus Space; Group 1 (Plus (NoneOf ";"))].

(** [/0\.(\d+)\./] *)
Definition reMajor : regex := Cat [Lit "0."; Group 1 (Plus Digit); Chr "."].

(** [/0\.8\./] *)
Definition re08 : regex := Lit "0.8.".

(** The two quote characters. *)
Definition quotes : string := String "034"%char "'".

(** A quote, one or more characters that are not quotes (group 1), and
    a quote: the pattern of the [import] path. *)
Definition reQuoted : regex :=
  Cat [OneOf quotes; Group 1 (Plus (NoneOf quotes)); OneOf quotes].

(** [new RegExp(..., 's')] with the pattern
    [function\s+NAME\s*\([^)]*\)[^{]*\{(BODY)\}], where [NAME] is the function
    name and [BODY] is [[^}]+] followed by any number of groups
    [\{[^}]*\}[^}]*]; the name comes from [\w+], so it stands for itself
    in the pattern. *)
Definition reFunctionContent (functionName : string) : regex :=
  Cat [Lit "function"; Plus Space; Lit functionName; Star Space; Chr "(";
       Star (NoneOf ")"); Chr ")"; Star (NoneOf "{"); Chr "{";
       Group 1 (Seq (Plus (NoneOf "}"))
                    (Star (Cat [Chr "{"; Star (NoneOf "}"); Chr "}";
                                Star (NoneOf "}")])));
       Chr "}"].

(** Extract function content for analysis *)
Definition extractFunctionContent (src functionName : string) : option string :=
  match exec flagS (reFunctionContent functionName) src with
  | Some m => groups m !! 1%nat
  | None => None
  end.

(** ** Step 1: enhanced contract analysis *)

Definition compilerVersionOf (p : string) : string :=
  match exec noFlags reSolidityVersion p with
  | Some m => JS.trim (default "" (groups m !! 1%nat))
  | None => "unknown"
  end.

Definition isFloating (v : string) : bool :=
  JS.includes v "^" || JS.includes v ">=" || JS.includes v "~".

Definition isOutdated (v : string) : bool :=
  match exec noFlags reMajor v with
  | Some versionMatch =>
      let major := JS.parseDigits (default "" (groups versionMatch !! 1%nat)) in
      (major <? 8)%nat
  | None => false
  end.

Definition dependencyOf (imp : string) : string :=
  match exec noFlags reQuoted imp with
  | Some m => default imp (groups m !! 1%nat)
  | None => imp
  end.

Definition isExternal (f : SolidityUtils.SolidityFunction) : bool :=
  bool_decide (SolidityUtils.visibility f = SolidityUtils.VExternal).
Definition isPublic (f : SolidityUtils.SolidityFunction) : bool :=
  bool_decide (SolidityUtils.visibility f = SolidityUtils.VPublic).
Definition isPayable (f : SolidityUtils.SolidityFunction) : bool :=
  bool_decide (SolidityUtils.mutability f = SolidityUtils.MPayable).
Definition isView (f : SolidityUtils.SolidityFunction) : bool :=
  bool_decide (SolidityUtils.mutability f = SolidityUtils.MView)
  || bool_decide (SolidityUtils.mutability f = SolidityUtils.MPure).

(** The predicate of the filter that selects the privileged functions. *)
Definition isPrivileged (content : string) (f : SolidityUtils.SolidityFunction) : bool :=
  match extractFunctionContent content (SolidityUtils.name f) with
  | Some fnContent =>
      negb (String.eqb fnContent "")
      && (JS.includes fnContent "transfer"
          || JS.includes fnContent "withdraw"
          || JS.includes fnContent "setOwner"
          || JS.includes fnContent "destroy"
          || JS.includes fnContent "kill")
      && negb (JS.includes fnContent "onlyOwner")
      && negb (JS.includes fnContent "AccessControl")
  | None => false
  end.

Definition externalFnsOf (content : string) : list SolidityUtils.SolidityFunction :=
  filter (fun f => isExternal f = true) (SolidityUtils.extractFunctions content).
Definition publicFnsOf (content : string) : list SolidityUtils.SolidityFunction :=
  filter (fun f => isPublic f = true) (SolidityUtils.extractFunctions content).
Definition payableFnsOf (content : string) : list SolidityUtils.SolidityFunction :=
  filter (fun f => isPayable f = true) (SolidityUtils.extractFunctions content).
Definition viewFnsOf (content : string) : list SolidityUtils.SolidityFunction :=
  filter (fun f => isView f = true) (SolidityUtils.extractFunctions content).
Definition privilegedFunctionsOf (content : string) : list SolidityUtils.SolidityFunction :=
  filter (fun f => isPrivileged content f = true) (externalFnsOf content).

(** [indicators.filter(i => i.includes(tag)).length] *)
Definition countTag (tag : string) (inds : list string) : nat :=
  length (filter (fun i => JS.includes i tag = true) inds).

Definition entryOf (f : SolidityUtils.SolidityFunction) : FunctionEntry :=
  {| fn_name := SolidityUtils.name f;
     fn_line := SolidityUtils.lineNumber f;
     fn_mutability := SolidityUtils.mutability f |}.

(** The [contractAnalysis] object built from the text of the file. *)
Definition analyzeContent (info : FileInfo) (content : string) : ContractAnalysis :=
  let md := SolidityUtils.extractMetadata content in
  let fns := SolidityUtils.extractFunctions content in
  let externalFns := externalFnsOf content in
  let publicFns := publicFnsOf content in
  let payableFns := payableFnsOf content in
  let viewFns := viewFnsOf content in
  let inds := SolidityUtils.checkVulnerabilityIndicators content in
  let versions := map compilerVersionOf (SolidityUtils.pragmas md) in
  let deps := map dependencyOf (SolidityUtils.imports md) in
  let privilegedFunctions := privilegedFunctionsOf content in
  {| file := info;
     metadata :=
       {| contracts := SolidityUtils.contracts md;
          interfaces := SolidityUtils.interfaces md;
          libraries := SolidityUtils.libraries md;
          compilerVersions := versions;
          hasFloatingPragma := existsb isFloating versions;
          hasOutdatedCompiler := existsb isOutdated versions;
          dependencies := deps;
          hasOpenZeppelin :=
            existsb (fun d => JS.includes d "openzeppelin"
                              || JS.includes d "OpenZeppelin") deps;
          hasExternalDependencies := (0 <? length deps)%nat |};
     summary :=
       {| totalFunctions := length fns;
          external := length externalFns;
          public := length publicFns;
          payable := length payableFns;
          view := length viewFns;
          stateChanging := length (filter (fun f => isView f = false) fns) |};
     security :=
       {| hasReentrancyGuard :=
            JS.includes content "nonReentrant"
            || JS.includes content "ReentrancyGuard";
          hasAccessControl :=
            JS.includes content "onlyOwner"
            || JS.includes content "AccessControl";
          hasSafeMath :=
            JS.includes content "SafeMath"
            || existsb (fun v => test noFlags re08 v) versions;
          indicators := inds;
          severityBreakdown :=
            {| critical := countTag "CRITICAL" inds;
               high := countTag "HIGH" inds;
               medium := countTag "MEDIUM" inds;
               low := countTag "LOW" inds |};
          privilegedFunctionsWithoutAccessControl :=
            map SolidityUtils.name privilegedFunctions |};
     protocols := SolidityUtils.detectProtocolType content;
     functions :=
       {| fns_external := map entryOf externalFns;
          fns_public := map entryOf publicFns |} |}.

(** ** Format a query result for display *)

Definition formatResult (result : Knowledge.QueryResult) : Formatted :=
  {| f_id := Knowledge.id result;
     relevance :=
       JS.ofZ (JS.round ((1 - Knowledge.distance result) * 100)) +:+ "%";
     f_metadata := Knowledge.metadata result;
     excerpt :=
       JS.substring0 300 (Knowledge.document result)
       +:+ (if (300 <? String.length (Knowledge.document result))%nat
            then "..." else "") |}.

(** ** Generate security recommendations *)

(** [recommendations.push(m1, ...)] under a condition *)
Definition pushAll (c : bool) (msgs : list string) (acc : list string) : list string :=
  if c then acc ++ msgs else acc.

(** [set.has(x)] on the values of a [Set] *)
Definition has `{EqDecision A} (set : list A) (x : A) : bool :=
  bool_decide (x ∈ set).

(** [v || d] on an optional string *)
Definition orElse (v : option string) (d : string) : string :=
  match v with
  | Some EmptyString | None => d
  | Some s => s
  end.

(** The text of an array element under [join]: [undefined] is empty. *)
Definition joinText (v : option string) : string := default "" v.

(** The body of [indicators.forEach] *)
Definition indicatorAdvice (acc : list string) (indicator : string) : list string :=
  let acc :=
    pushAll (JS.includes indicator "reentrancy")
      ["ðŸ”´ CRITICAL: Implement checks-effects-interactions pattern";
       "ðŸ”´ CRITICAL: Add reentrancy guard to all external calls"] acc in
  let acc :=
    pushAll (JS.includes indicator "tx.origin")
      ["ðŸ”´ CRITICAL: Replace tx.origin with msg.sender for authorization"] acc in
  let acc :=
    pushAll (JS.includes indicator "delegatecall")
      ["ðŸ”´ CRITICAL: Validate delegatecall target addresses"] acc in
  acc.

(** [s.metadata?.severity === sev] *)
Definition hasSeverity (sev : string) (s : Formatted) : bool :=
  bool_decide (f_metadata s !! "severity" = Some sev).

(** [s.metadata?.swc_id || s.id] *)
Definition swcCategoryOf (s : Formatted) : string :=
  orElse (f_metadata s !! "swc_id") (f_id s).

Definition fallbackRecommendation : string :=
  "âœ… No immediate security issues detected, but always perform thorough review".

(** The list [recommendations] when the fallback test is reached. *)
Definition collectRecommendations (contractAnalysis : ContractAnalysis)
    (knowledgeResults : KnowledgeResults)
    (similarExploits : list SimilarExploit) : list string :=
  let recommendations : list string := [] in
  (* Check contract security indicators *)
  let recommendations :=
    pushAll (negb (hasReentrancyGuard (security contractAnalysis)))
      ["âš ï¸ Add reentrancy protection (ReentrancyGuard or nonReentrant modifier)"]
      recommendations in
  let recommendations :=
    pushAll (negb (hasAccessControl (security contractAnalysis)))
      ["âš ï¸ Implement access control for privileged functions (onlyOwner or AccessControl)"]
      recommendations in
  (* Check indicators *)
  let recommendations :=
    fold_left indicatorAdvice (indicators (security contractAnalysis))
              recommendations in
  (* Check similar exploits from ALL sources *)
  let exploits := similarExploits in
  let categories := JS.setOf (map category exploits) in
  let sources := JS.setOf (map (fun e => orElse (source e) "unknown") exploits) in
  let recommendations :=
    let reentrancyExploits :=
      filter (fun e => category e = Some "reentrancy") exploits in
    pushAll (has categories (Some "reentrancy"))
      ["ðŸ“š " +:+ JS.ofNat (length reentrancyExploits)
       +:+ " similar reentrancy exploits found from "
       +:+ JS.join ", " (map joinText (JS.setOf (map source reentrancyExploits)))
       +:+ " - review historical attacks";
       "ðŸ“š Implement checks-effects-interactions pattern"]
      recommendations in
  let recommendations :=
    pushAll (has categories (Some "flash-loan"))
      ["ðŸ“š Implement flash loan attack protections";
       "ðŸ“š Use TWAP oracles instead of spot prices";
       "ðŸ“š Add slippage protection for all swaps"]
      recommendations in
  let recommendations :=
    pushAll (has categories (Some "oracle-manipulation"))
      ["ðŸ“š Use multiple oracle sources for price feeds";
       "ðŸ“š Implement price deviation checks";
       "ðŸ“š Add time-weighted average price (TWAP) protection"]
      recommendations in
  let recommendations :=
    pushAll (has categories (Some "access-control"))
      ["ðŸ“š Review all privileged functions for proper access control";
       "ðŸ“š Use role-based access control (OpenZeppelin AccessControl)"]
      recommendations in
  let recommendations :=
    pushAll (has categories (Some "logic-error"))
      ["ðŸ“š Review contract logic for edge cases";
       "ðŸ“š Add comprehensive unit tests"]
      recommendations in
  let recommendations :=
    pushAll (has categories (Some "integer-overflow"))
      ["ðŸ“š Use SafeMath or Solidity 0.8+ for arithmetic operations"]
      recommendations in
  (* Add source-specific insights *)
  let recommendations :=
    pushAll (has sources "DeFiHackLabs")
      ["ðŸ“š DeFiHackLabs exploits matched - review real-world attack patterns"]
      recommendations in
  let recommendations :=
    pushAll (has sources "learn-evm-attacks")
      ["ðŸ“š learn-evm-attacks exploits matched - review educational attack reproductions"]
      recommendations in
  (* Check SWC entries (includes attack vectors) *)
  let swcResults := default [] (knowledgeResults !! "swc") in
  let recommendations :=
    if (0 <? length swcResults)%nat then
      let criticalSWC := filter (fun s => hasSeverity "critical" s = true) swcResults in
      let highSWC := filter (fun s => hasSeverity "high" s = true) swcResults in
      let recommendations :=
        pushAll (0 <? length criticalSWC)%nat
          ["ðŸ“‹ " +:+ JS.ofNat (length criticalSWC)
           +:+ " critical SWC/Attack Vector entries matched - review carefully"]
          recommendations in
      let recommendations :=
        pushAll (0 <? length highSWC)%nat
          ["ðŸ“‹ " +:+ JS.ofNat (length highSWC)
           +:+ " high severity SWC/Attack Vector entries matched"]
          recommendations in
      (* Add specific recommendations from SWC entries *)
      let swcCategories := JS.setOf (map swcCategoryOf swcResults) in
      let recommendations :=
        pushAll (has swcCategories "SWC-107"
                 || existsb (fun id => JS.includes id "107") swcCategories)
          ["ðŸ“‹ SWC-107 (Reentrancy) matched - implement reentrancy guards"]
          recommendations in
      let recommendations :=
        pushAll (has swcCategories "SWC-105"
                 || existsb (fun id => JS.includes id "105") swcCategories)
          ["ðŸ“‹ SWC-105 (Unprotected Ether Withdrawal) matched - add access control"]
          recommendations in
      recommendations
    else recommendations in
  recommendations.

Definition generateRecommendations (contractAnalysis : ContractAnalysis)
    (knowledgeResults : KnowledgeResults)
    (similarExploits : list SimilarExploit) : list string :=
  let recommendations :=
    collectRecommendations contractAnalysis knowledgeResults similarExploits in
  let recommendations :=
    pushAll (length recommendations =? 0)%nat [fallbackRecommendation]
            recommendations in
  JS.setOf recommendations.   (* Remove duplicates *)

(** ** Assess overall risk level *)

Definition levelOf (score : nat) : Level :=
  if (70 <=? score)%nat then CRITICAL
  else if (50 <=? score)%nat then HIGH
  else if (30 <=? score)%nat then MEDIUM
  else if (10 <=? score)%nat then LOW
  else INFO.

(** The running pair of [score] and [factors]: [score += n] together with
    [factors.push(msg)] under a condition. *)
Definition addFactor (c : bool) (n : nat) (msg : string)
    (acc : nat * list string) : nat * list string :=
  if c then (fst acc + n, snd acc ++ [msg])%nat else acc.

Definition assessRisk (contractAnalysis : ContractAnalysis)
    (knowledgeResults : KnowledgeResults)
    (similarExploits : list SimilarExploit) : RiskAssessment :=
  let sec := security contractAnalysis in
  (* Base score from indicators with severity weighting *)
  let score := 0%nat in
  let score := (score + critical (severityBreakdown sec) * 30)%nat in
  let score := (score + high (severityBreakdown sec) * 20)%nat in
  let score := (score + medium (severityBreakdown sec) * 10)%nat in
  let score := (score + low (severityBreakdown sec) * 5)%nat in
  let acc : nat * list string := (score, []) in
  (* Critical issues *)
  let acc :=
    addFactor (negb (hasReentrancyGuard sec)) 30
      "Missing reentrancy protection" acc in
  let acc :=
    addFactor (negb (hasAccessControl sec)) 20 "Missing access control" acc in
  let acc :=
    addFactor (hasOutdatedCompiler (metadata contractAnalysis)) 25
      "Outdated Solidity compiler version" acc in
  let acc :=
    addFactor (hasFloatingPragma (metadata contractAnalysis)) 15
      "Floating pragma - non-deterministic compilation" acc in
  let privileged := privilegedFunctionsWithoutAccessControl sec in
  let acc :=
    addFactor (0 <? length privileged)%nat (length privileged * 15)
      (JS.ofNat (length privileged)
       +:+ " privileged functions without access control") acc in
  (* Similar exploits *)
  let exploits := similarExploits in
  let acc :=
    addFactor (0 <? length exploits)%nat (length exploits * 5)
      (JS.ofNat (length exploits) +:+ " similar historical exploits found")
      acc in
  (* SWC matches *)
  let swcResults := default [] (knowledgeResults !! "swc") in
  let criticalSWC := filter (fun s => hasSeverity "critical" s = true) swcResults in
  let acc :=
    addFactor (0 <? length criticalSWC)%nat (length criticalSWC * 15)
      (JS.ofNat (length criticalSWC) +:+ " critical SWC entries matched")
      acc in
  {| level := levelOf (fst acc); score := fst acc; factors := snd acc |}.

(** ** The environment of one call *)

(** The file system, with the two functions of node's [path] module the
    tool uses. *)
Record FileSystem := {
  fs_exists  : string -> bool;
  fs_size    : string -> nat;
  fs_content : string -> string;
  basename   : string -> string;
  dirname    : string -> string
}.

Record World := {
  config   : Config;
  fsys     : FileSystem;
  shell    : Command.Shell;
  vectorDb : Knowledge.VectorDb
}.

(** The arguments of the tool besides the path, after the schema's
    defaults have been applied. *)
Record Options := {
  includeKnowledgeBase   : bool;
  knowledgeLimit         : Z;
  includeSimilarExploits : bool;
  useExternalTools       : bool;
  comprehensiveMode      : bool
}.

Definition defaultOptions : Options :=
  {| includeKnowledgeBase := true; knowledgeLimit := 10;
     includeSimilarExploits := true; useExternalTools := true;
     comprehensiveMode := true |}.

(** [readFile] and [getFileInfo] of [utils/file.utils.ts] *)
Definition readFile (w : World) (p : string) : Res string :=
  if negb (fs_exists (fsys w) p) then Throw (FileError "File not found" p)
  else if (maxFileSize (config w) <? fs_size (fsys w) p)%nat
  then Throw (FileError ("File too large: " +:+ JS.ofNat (fs_size (fsys w) p)) p)
  else Ok (fs_content (fsys w) p).

Definition getFileInfo (w : World) (p : string) : Res FileInfo :=
  match readFile w p with
  | Ok content =>
      Ok {| path := p; fname := basename (fsys w) p;
            size := fs_size (fsys w) p; lines := JS.countLines content |}
  | Throw e => Throw e
  end.

(** ** Step 1.5: external tool analysis *)

Record ToolEntry := {
  available   : bool;
  status      : option string;
  output      : option string;
  tool_error  : option string;
  hint        : option string
}.

Definition toolMissing (h : string) : ToolEntry :=
  {| available := false; status := None; output := None;
     tool_error := None; hint := Some h |}.

Definition toolFailed (e : Error) : ToolEntry :=
  {| available := true; status := Some "failed"; output := None;
     tool_error := Some (errorString e); hint := None |}.

Definition toolRan (st : string) (out : string) : ToolEntry :=
  {| available := true; status := Some st; output := Some out;
     tool_error := None; hint := None |}.

(** [obj[key] = v] when there is a value to assign *)
Definition assign (key : string) (v : option ToolEntry)
    (obj : gmap string ToolEntry) : gmap string ToolEntry :=
  match v with
  | Some e => <[key := e]> obj
  | None => obj
  end.

Definition runSlither (w : World) (p contractDir : string) : option ToolEntry :=
  if Command.isToolInstalled (shell w) "slither" then
    match Command.executeCommand (config w) (shell w) "slither"
            [p; "--json"; "-"] (Some contractDir)
            (Some (timeoutAnalysis (config w))) with
    | Ok slitherResult =>
        if Command.success slitherResult
        then Some (toolRan "completed"
                     (JS.substring0 5000 (Command.stdout slitherResult)))
        else None
    | Throw e => Some (toolFailed e)
    end
  else Some (toolMissing "pip install slither-analyzer").

Definition runSolhint (w : World) (p contractDir : string) : option ToolEntry :=
  if Command.isToolInstalled (shell w) "solhint" then
    match Command.executeCommand (config w) (shell w) "solhint" [p]
            (Some contractDir) (Some 30000%Z) with
    | Ok solhintResult =>
        Some (toolRan (if (Command.exitCode solhintResult =? 0)%Z
                       then "passed" else "warnings")
                (JS.substring0 2000 (Command.stdout solhintResult)))
    | Throw e => Some (toolFailed e)
    end
  else Some (toolMissing "npm install -g solhint").

Definition runMythril (w : World) (o : Options) (p contractDir : string)
    : option ToolEntry :=
  if comprehensiveMode o && Command.isToolInstalled (shell w) "myth" then
    match Command.executeCommand (config w) (shell w) "myth"
            ["analyze"; p; "--execution-timeout"; "60"] (Some contractDir)
            (Some (timeoutAnalysis (config w))) with
    | Ok mythrilResult =>
        Some (toolRan (if (Command.exitCode mythrilResult =? 0)%Z
                       then "completed" else "warnings")
                (JS.substring0 5000 (Command.stdout mythrilResult)))
    | Throw e => Some (toolFailed e)
    end
  else if comprehensiveMode o then Some (toolMissing "pip install mythril")
  else None.

Definition externalToolsStage (w : World) (o : Options) (p : string)
    : gmap string ToolEntry :=
  let contractDir := dirname (fsys w) p in
  if useExternalTools o then
    assign "mythril" (runMythril w o p contractDir)
      (assign "solhint" (runSolhint w p contractDir)
         (assign "slither" (runSlither w p contractDir) ∅))
  else ∅.

(** ** Step 2: knowledge base queries *)

(** The body of the first [indicators.forEach]: the search phrases of one
    indicator. *)
Definition indicatorQueryParts (queryParts : list string) (indicator : string)
    : list string :=
  let lower := JS.toLowerCase indicator in
  let inc := JS.includes lower in
  let q := queryParts in
  let q := pushAll (inc "reentrancy") ["reentrancy"] q in
  let q := pushAll (inc "access-control" || inc "access control") ["access control"] q in
  let q := pushAll (inc "tx.origin") ["tx.origin phishing"] q in
  let q := pushAll (inc "delegatecall") ["delegatecall"] q in
  let q := pushAll (inc "overflow" || inc "underflow") ["integer overflow"] q in
  let q := pushAll (inc "oracle" || inc "price") ["oracle manipulation"] q in
  let q := pushAll (inc "flash" || inc "flashloan") ["flash loan"] q in
  let q := pushAll (inc "random") ["weak randomness"] q in
  let q := pushAll (inc "dos" || inc "denial") ["denial of service"] q in
  let q := pushAll (inc "validation") ["input validation"] q in
  let q := pushAll (inc "logic") ["logic error"] q in
  let q := pushAll (inc "signature") ["signature"] q in
  let q := pushAll (inc "storage") ["storage"] q in
  let q := pushAll (inc "visibility") ["visibility"] q in
  let q := pushAll (inc "selfdestruct") ["selfdestruct"] q in
  q.

Definition vulnerablePatterns : list string :=
  ["withdraw"; "transfer"; "burn"; "mint"; "approve"; "setOwner"; "destroy";
   "kill"; "upgrade"].

(** The body of the loop over [vulnerablePatterns] *)
Definition patternQueryParts (allFnNames : list string)
    (queryParts : list string) (pattern : string) : list string :=
  pushAll (existsb (fun name => JS.includes (JS.toLowerCase name)
                                            (JS.toLowerCase pattern))
                   allFnNames)
          [pattern +:+ " vulnerability"] queryParts.

(** The body of the second [indicators.forEach]: [categories.add] *)
Definition indicatorCategories (categories : list string) (ind : string)
    : list string :=
  let lower := JS.toLowerCase ind in
  let c := categories in
  let c := if JS.includes lower "critical"
           then JS.setAdd c "critical vulnerability" else c in
  let c := if JS.includes lower "reentrancy"
           then JS.setAdd c "reentrancy attack" else c in
  let c := if JS.includes lower "access"
           then JS.setAdd c "access control" else c in
  c.

Definition buildQueryParts (ca : ContractAnalysis) (comprehensive : bool)
    : list string :=
  let queryParts : list string := [] in
  (* Add ALL vulnerability indicators to query *)
  let queryParts := fold_left indicatorQueryParts (indicators (security ca)) queryParts in
  (* Add protocol types *)
  let queryParts := queryParts ++ protocols ca in
  (* Add function names that might indicate vulnerabilities *)
  let externalFnNames := map fn_name (fns_external (functions ca)) in
  let publicFnNames := map fn_name (fns_public (functions ca)) in
  let allFnNames := externalFnNames ++ publicFnNames in
  let queryParts := fold_left (patternQueryParts allFnNames) vulnerablePatterns queryParts in
  (* In comprehensive mode, add category-based queries *)
  if comprehensive then
    queryParts ++ fold_left indicatorCategories (indicators (security ca)) []
  else queryParts.

Definition buildQueries (ca : ContractAnalysis) (comprehensive : bool)
    : list string :=
  let queryParts := buildQueryParts ca comprehensive in
  let primaryQuery :=
    if (0 <? length queryParts)%nat then JS.join " " queryParts
    else "smart contract security vulnerability" in
  if comprehensive then
    [primaryQuery]
    ++ map (JS.substring0 50) (firstn 3 (indicators (security ca)))
    ++ map (fun p => p +:+ " security vulnerability") (protocols ca)
  else [primaryQuery].

(** The three arrays the loop over the queries fills. *)
Record Aggregate := {
  allSwcResults     : list Formatted;
  allExploitResults : list Formatted;
  allAuditResults   : list Formatted
}.

Definition emptyAggregate : Aggregate :=
  {| allSwcResults := []; allExploitResults := []; allAuditResults := [] |}.

(** One [for (const result of ...)] loop: a result whose id is not in
    [existingIds] is formatted and pushed, and its id is added. *)
Definition mergeResult (st : list Formatted * gset string)
    (result : Knowledge.QueryResult) : list Formatted * gset string :=
  if decide (Knowledge.id result ∈ st.2) then st
  else (st.1 ++ [formatResult result], st.2 ∪ {[Knowledge.id result]}).

Definition mergeCollection (results : list Knowledge.QueryResult)
    (st : list Formatted * gset string) : list Formatted * gset string :=
  fold_left mergeResult results st.

(** [new Set([...allSwcResults.map(r => r.id), ...allExploitResults.map(r => r.id), ...allAuditResults.map(r => r.id)])] *)
Definition existingIdsOf (agg : Aggregate) : gset string :=
  list_to_set (map f_id (allSwcResults agg) ++ map f_id (allExploitResults agg)
               ++ map f_id (allAuditResults agg)).

(** The body of the loop over the queries, after [searchAll] answered. *)
Definition aggregateStep (agg : Aggregate) (allResults : Knowledge.SearchAllResult)
    : Aggregate :=
  let existingIds := existingIdsOf agg in
  let st := mergeCollection (Knowledge.swc allResults)
                            (allSwcResults agg, existingIds) in
  let swcs := st.1 in
  let st := mergeCollection (Knowledge.exploits allResults)
                            (allExploitResults agg, st.2) in
  let exps := st.1 in
  let st := mergeCollection (Knowledge.auditFindings allResults)
                            (allAuditResults agg, st.2) in
  {| allSwcResults := swcs; allExploitResults := exps;
     allAuditResults := st.1 |}.

Import Knowledge (ret, bind).
Notation "x <-- m ;; k" := (Knowledge.bind m (fun x => k))
  (at level 100, m at next level, right associativity).

(** [for (const query of queries)] *)
Fixpoint aggregateLoop (db : Knowledge.VectorDb) (limit : Z)
    (queries : list string) (agg : Aggregate) : Knowledge.M Aggregate :=
  match queries with
  | [] => ret agg
  | query :: rest =>
      allResults <-- Knowledge.searchAll db query (Some limit) ;;
      aggregateLoop db limit rest (aggregateStep agg allResults)
  end.

(** The object assigned to [knowledgeResults] after the loop. *)
Definition truncateAggregate (knowledgeLimit : Z) (agg : Aggregate)
    : KnowledgeResults :=
  <["swc" := JS.slice0 knowledgeLimit (allSwcResults agg)]>
    (<["exploits" := JS.slice0 knowledgeLimit (allExploitResults agg)]>
       (<["auditFindings" := JS.slice0 knowledgeLimit (allAuditResults agg)]> ∅)).

Definition knowledgeStage (db : Knowledge.VectorDb) (ca : ContractAnalysis)
    (o : Options) : Knowledge.M KnowledgeResults :=
  let queries := buildQueries ca (comprehensiveMode o) in
  let limit := JS.ceilDiv (knowledgeLimit o) (length queries) in
  agg <-- aggregateLoop db limit queries emptyAggregate ;;
  ret (truncateAggregate (knowledgeLimit o) agg).

(** ** Step 3: similar exploits *)

(** [for (const indicator of indicators.slice(0, 3))]: one search per
    indicator, the answers appended in order. *)
Fixpoint probeIndicators (db : Knowledge.VectorDb) (inds : list string)
    (similarFromIndicators : list Knowledge.QueryResult)
    : Knowledge.M (list Knowledge.QueryResult) :=
  match inds with
  | [] => ret similarFromIndicators
  | indicator :: rest =>
      similar <-- Knowledge.findSimilarExploits db indicator (Some 3%Z) None ;;
      probeIndicators db rest (similarFromIndicators ++ similar)
  end.

(** [if (!uniqueSimilar.has(r.id)) uniqueSimilar.set(r.id, r)]: the [Map]
    is represented by its values in insertion order. *)
Definition uniqueAdd (uniqueSimilar : list Knowledge.QueryResult)
    (r : Knowledge.QueryResult) : list Knowledge.QueryResult :=
  if decide (Knowledge.id r ∈ map Knowledge.id uniqueSimilar) then uniqueSimilar
  else uniqueSimilar ++ [r].

Definition uniqueById (allSimilar : list Knowledge.QueryResult)
    : list Knowledge.QueryResult :=
  fold_left uniqueAdd allSimilar [].

(** The display shape of a similar exploit. *)
Definition projectExploit (r : Knowledge.QueryResult) : SimilarExploit :=
  {| se_id := Knowledge.id r;
     similarity := JS.ofZ (JS.round ((1 - Knowledge.distance r) * 100)) +:+ "%";
     se_name := Knowledge.metadata r !! "name";
     protocol := Knowledge.metadata r !! "protocol";
     category := Knowledge.metadata r !! "category";
     loss := Knowledge.metadata r !! "loss";
     date := Knowledge.metadata r !! "date";
     source := Knowledge.metadata r !! "source";
     description := JS.substring0 500 (Knowledge.document r);
     attackVector := Knowledge.metadata r !! "attackVector" |}.

Definition similarStage (db : Knowledge.VectorDb) (content : string)
    (ca : ContractAnalysis) (o : Options) : Knowledge.M (list SimilarExploit) :=
  (* Search with contract code *)
  similarFromCode <--
    Knowledge.findSimilarExploits db content
      (Some (if comprehensiveMode o then (knowledgeLimit o * 2)%Z
             else knowledgeLimit o)) None ;;
  (* Also search with vulnerability indicators *)
  similarFromIndicators <--
    (if comprehensiveMode o && (0 <? length (indicators (security ca)))%nat
     then probeIndicators db (firstn 3 (indicators (security ca))) []
     else ret []) ;;
  (* Combine and deduplicate *)
  let allSimilar := similarFromCode ++ similarFromIndicators in
  ret (map projectExploit
           (JS.slice0 (knowledgeLimit o * 2) (uniqueById allSimilar))).

(** ** The response *)

Record KnowledgeBase := {
  queries           : KnowledgeResults;
  kb_similarExploits : list SimilarExploit;
  sourcesUsed       : list string
}.

Record AnalysisMode := {
  comprehensive          : bool;
  knowledgeBaseEnabled   : bool;
  externalToolsEnabled   : bool;
  similarExploitsEnabled : bool
}.

Record TotalSources := {
  swcRegistry       : nat;
  ts_exploits       : nat;
  ts_auditFindings  : nat;
  ts_similarExploits : nat;
  exploitSources    : list string
}.

Record ReportSummary := {
  totalFindings        : nat;
  criticalIssues       : nat;
  highIssues           : nat;
  mediumIssues         : nat;
  lowIssues            : nat;
  similarExploitsFound : nat;
  knowledgeBaseMatches : nat;
  externalToolsUsed    : nat;
  totalSources         : option TotalSources
}.

Record Report := {
  contract        : ContractAnalysis;
  externalTools   : gmap string ToolEntry;
  knowledgeBase   : option KnowledgeBase;
  riskAssessment  : RiskAssessment;
  recommendations : list string;
  analysisMode    : AnalysisMode;
  r_summary       : ReportSummary
}.

(** The data a response carries before [JSON.stringify]. *)
Inductive Payload :=
| ReportData (r : Report)
| ErrorData (msg : string) (details : list (string * string)).

Record ToolResponse := {
  content : Payload;
  isError : bool
}.

Definition jsonResponse (data : Report) : ToolResponse :=
  {| content := ReportData data; isError := false |}.

Definition errorResponse (msg : string) (details : list (string * string))
    : ToolResponse :=
  {| content := ErrorData msg details; isError := true |}.

(** The truthy strings of a list of optional values, in order. *)
Definition truthyStrings (vs : list (option string)) : list string :=
  omap (fun v => match v with
                 | Some EmptyString | None => None
                 | Some s => Some s
                 end) vs.

(** [Array.isArray(v) ? v.length : 0] *)
Definition lengthOf (kr : KnowledgeResults) (key : string) : nat :=
  match kr !! key with
  | Some l => length l
  | None => 0
  end.

Definition toolUsed (t : ToolEntry) : bool :=
  available t
  && (bool_decide (status t = Some "completed")
      || bool_decide (status t = Some "passed")).

Definition lift {A} (r : Res A) : Knowledge.M A := fun log => (r, log).

(** The body of the handler inside its [try]. *)
Definition analysis (w : World) (p : string) (o : Options) : Knowledge.M Report :=
  (* Step 1: Enhanced contract analysis *)
  content <-- lift (readFile w p) ;;
  info <-- lift (getFileInfo w p) ;;
  let contractAnalysis := analyzeContent info content in
  (* Step 1.5: External tool analysis *)
  let tools := externalToolsStage w o p in
  (* Step 2: Knowledge base queries *)
  knowledgeResults <--
    (if includeKnowledgeBase o then knowledgeStage (vectorDb w) contractAnalysis o
     else ret ∅) ;;
  (* Step 3: Find similar exploits *)
  similarExploits <--
    (if includeKnowledgeBase o && includeSimilarExploits o
     then similarStage (vectorDb w) content contractAnalysis o
     else ret []) ;;
  (* Step 4: Generate recommendations *)
  let recs := generateRecommendations contractAnalysis knowledgeResults similarExploits in
  (* Step 5: Risk assessment *)
  let riskLevel := assessRisk contractAnalysis knowledgeResults similarExploits in
  (* Collect exploit sources for summary *)
  let sources :=
    JS.setOf (truthyStrings (map source similarExploits)
              ++ truthyStrings (map (fun e => f_metadata e !! "source")
                                    (default [] (knowledgeResults !! "exploits")))) in
  let sb := severityBreakdown (security contractAnalysis) in
  ret {| contract := contractAnalysis;
         externalTools := tools;
         knowledgeBase :=
           if includeKnowledgeBase o
           then Some {| queries := knowledgeResults;
                        kb_similarExploits := similarExploits;
                        sourcesUsed := sources |}
           else None;
         riskAssessment := riskLevel;
         recommendations := recs;
         analysisMode :=
           {| comprehensive := comprehensiveMode o;
              knowledgeBaseEnabled := includeKnowledgeBase o;
              externalToolsEnabled := useExternalTools o;
              similarExploitsEnabled := includeSimilarExploits o |};
         r_summary :=
           {| totalFindings := length (indicators (security contractAnalysis));
              criticalIssues := critical sb;
              highIssues := high sb;
              mediumIssues := medium sb;
              lowIssues := low sb;
              similarExploitsFound := length similarExploits;
              knowledgeBaseMatches :=
                if includeKnowledgeBase o
                then (lengthOf knowledgeResults "exploits"
                      + lengthOf knowledgeResults "swc"
                      + lengthOf knowledgeResults "auditFindings")%nat
                else 0%nat;
              externalToolsUsed :=
                length (filter (fun t => toolUsed t = true)
                               (map snd (map_to_list tools)));
              totalSources :=
                if includeKnowledgeBase o
                then Some {| swcRegistry := lengthOf knowledgeResults "swc";
                             ts_exploits := lengthOf knowledgeResults "exploits";
                             ts_auditFindings := lengthOf knowledgeResults "auditFindings";
                             ts_similarExploits := length similarExploits;
                             exploitSources := sources |}
                else None |} |}.

(** The handler of the [comprehensive_analysis] tool, with the calls it
    made to the vector database. *)
Definition handler (w : World) (p : string) (o : Options)
    : ToolResponse * list Knowledge.Probe :=
  if negb (fs_exists (fsys w) p) then
    (errorResponse "File not found" [("path", p)], [])
  else
    match analysis w p o [] with
    | (Ok report, log) => (jsonResponse report, log)
    | (Throw e, log) =>
        (errorResponse "Analysis failed" [("error", errorString e)], log)
    end.

Definition analyze (w : World) (p : string) (o : Options) : ToolResponse :=
  (handler w p o).1.

End Comprehensive.

(* ===================================================================== *)
(** * Statements of the specification *)
(* ===================================================================== *)

Module Spec.
Import Comprehensive.

(** The recommendation generator looks at five kinds of conditions; none
    of them holds when the contract has a reentrancy guard and access
    control, no indicator names reentrancy, [tx.origin] or [delegatecall],
    no similar exploit has one of the six categories or one of the two
    named corpora as its source, and no SWC match is of critical or high
    severity or carries 107 or 105 in its identifier. *)
Definition noConditionTriggers (ca : ContractAnalysis) (kr : KnowledgeResults)
    (se : list SimilarExploit) : Prop :=
  hasReentrancyGuard (security ca) = true
  ∧ hasAccessControl (security ca) = true
  ∧ (∀ ind, ind ∈ indicators (security ca) →
       JS.includes ind "reentrancy" = false
       ∧ JS.includes ind "tx.origin" = false
       ∧ JS.includes ind "delegatecall" = false)
  ∧ (∀ e, e ∈ se →
       (category e ∉ [Some "reentrancy"; Some "flash-loan";
                      Some "oracle-manipulation"; Some "access-control";
                      Some "logic-error"; Some "integer-overflow"])
       ∧ (source e ∉ [Some "DeFiHackLabs"; Some "learn-evm-attacks"]))
  ∧ (∀ s, s ∈ default [] (kr !! "swc") →
       (f_metadata s !! "severity" ∉ [Some "critical"; Some "high"])
       ∧ JS.includes (swcCategoryOf s) "107" = false
       ∧ JS.includes (swcCategoryOf s) "105" = false).

(** The first row with a given id in a list of rows. *)
Definition firstWithId (x : string) (rows : list Knowledge.QueryResult)
    : option Knowledge.QueryResult :=
  List.find (fun r => String.eqb (Knowledge.id r) x) rows.

(** An aggregation run over the answers of [searchAll], in the order in
    which the queries were submitted: the loop over the queries followed
    by the truncation to the limit. *)
Definition mergeAll (answers : list Knowledge.SearchAllResult) : Aggregate :=
  fold_left aggregateStep answers emptyAggregate.

Definition aggregateRun (knowledgeLimit : Z)
    (answers : list Knowledge.SearchAllResult) : KnowledgeResults :=
  truncateAggregate knowledgeLimit (mergeAll answers).

(** The ids held by the three arrays. *)
Definition allIds (agg : Aggregate) : list string :=
  map f_id (allSwcResults agg) ++ map f_id (allExploitResults agg)
  ++ map f_id (allAuditResults agg).

(** The entry [e] of a collection comes from the first row with its id
    among the rows the queries returned for that collection, in the order
    of the queries. *)
Definition firstSeen (pick : Knowledge.SearchAllResult → list Knowledge.QueryResult)
    (answers : list Knowledge.SearchAllResult) (e : Formatted) : Prop :=
  ∃ r, firstWithId (f_id e) (flat_map pick answers) = Some r
       ∧ e = formatResult r.

(** The state of the three arrays after the answers [answers]. *)
Record aggregated (answers : list Knowledge.SearchAllResult) (agg : Aggregate)
    : Prop := {
  agg_nodup : NoDup (allIds agg);
  agg_swc : ∀ e, e ∈ allSwcResults agg → firstSeen Knowledge.swc answers e;
  agg_exploits :
    ∀ e, e ∈ allExploitResults agg → firstSeen Knowledge.exploits answers e;
  agg_audit :
    ∀ e, e ∈ allAuditResults agg → firstSeen Knowledge.auditFindings answers e;
  agg_seen :
    ∀ a r, a ∈ answers →
           r ∈ Knowledge.swc a ++ Knowledge.exploits a ++ Knowledge.auditFindings a →
           Knowledge.id r ∈ allIds agg
}.

(** A vector database that answers every call, with the rows [rows]
    gives, and one that raises on every call. *)
Definition answering (rows : Knowledge.Probe → list Knowledge.QueryResult)
    : Knowledge.VectorDb :=
  fun p => Core.Ok (rows p).

Definition alwaysRaises (db : Knowledge.VectorDb) : Prop :=
  ∀ p, ∃ e, db p = Core.Throw e.

(** The three calls [searchAll] makes for a query, and its answer from an
    answering database. *)
Definition probeOf (c : Knowledge.Collection) (q : string) (n : Z)
    : Knowledge.Probe :=
  {| Knowledge.collection := c; Knowledge.queryText := q;
     Knowledge.nResults := n; Knowledge.whereEq := None |}.

Definition searchProbes (n : Z) (q : string) : list Knowledge.Probe :=
  [probeOf Knowledge.EXPLOITS q n; probeOf Knowledge.AUDIT_FINDINGS q n;
   probeOf Knowledge.SWC q n].

Definition answerOf (rows : Knowledge.Probe → list Knowledge.QueryResult)
    (n : Z) (q : string) : Knowledge.SearchAllResult :=
  {| Knowledge.exploits := rows (probeOf Knowledge.EXPLOITS q n);
     Knowledge.auditFindings := rows (probeOf Knowledge.AUDIT_FINDINGS q n);
     Knowledge.swc := rows (probeOf Knowledge.SWC q n) |}.

(** The checks of the indicator scan as a table: the condition of each
    check on the source text and the indicator it reports, in the order in
    which the scan runs them. *)
Definition indicatorRules : list ((string → bool) * string) :=
  let matchAll := Regex.matchAll in
  let test := Regex.test in
  [
    (fun src => ((JS.includes src ".call{" || JS.includes src ".call(" ||
       JS.includes src ".send(" || JS.includes src ".transfer(") &&
       negb (JS.includes src "nonReentrant") &&
       negb (JS.includes src "ReentrancyGuard")),
     "CRITICAL: Potential reentrancy - external call without guard");
    (fun src => (test Regex.noFlags SolidityUtils.reCallValue src &&
       negb (JS.includes src "nonReentrant")),
     "CRITICAL: ETH transfer via call without reentrancy protection");
    (fun src => (JS.includes src "tx.origin"),
     "CRITICAL: tx.origin usage - vulnerable to phishing attacks");
    (fun src => (test Regex.flagI SolidityUtils.rePrivileged src &&
       negb (JS.includes src "onlyOwner") &&
       negb (JS.includes src "AccessControl")),
     "HIGH: Privileged function without access control");
    (fun src => (JS.includes src "selfdestruct" &&
       negb (JS.includes src "onlyOwner")),
     "CRITICAL: selfdestruct without access control");
    (fun src => (JS.includes src "delegatecall" &&
       negb (test Regex.flagI SolidityUtils.reRequireSender src)),
     "CRITICAL: delegatecall without proper validation");
    (fun src => (test Regex.noFlags SolidityUtils.reArithmetic src &&
       negb (JS.includes src "SafeMath") &&
       negb (test Regex.noFlags SolidityUtils.rePragma08 src)),
     "HIGH: Unchecked arithmetic - potential overflow/underflow");
    (fun src => (test Regex.noFlags SolidityUtils.reExternalCall src &&
       negb (test Regex.noFlags SolidityUtils.reSuccessChecked src)),
     "MEDIUM: Unchecked external call return value");
    (fun src => (test Regex.noFlags SolidityUtils.reTime src && test Regex.noFlags SolidityUtils.reRequireBlock src),
     "MEDIUM: Time-dependent logic - potential front-running");
    (fun src => (test Regex.noFlags SolidityUtils.reLoopCall src),
     "MEDIUM: Loop with external calls - gas griefing risk");
    (fun src =>
       (length (matchAll Regex.noFlags SolidityUtils.reEvent src) * 2 <? length (matchAll Regex.noFlags SolidityUtils.reFunctionBody src))%nat,
     "LOW: Missing event emissions for state changes");
    (fun src => (JS.includes src "assembly"),
     "HIGH: Inline assembly - requires careful security review");
    (fun src => (test Regex.noFlags SolidityUtils.reStoragePointer src &&
       negb (test Regex.noFlags SolidityUtils.reAssignment src)),
     "HIGH: Uninitialized storage pointer");
    (fun src => (existsb (fun p => JS.includes p "^" || JS.includes p ">=" ||
       JS.includes p "~") (map Regex.matched (matchAll Regex.noFlags SolidityUtils.rePragmaVersion src))),
     "MEDIUM: Floating pragma - use fixed version for production");
    (fun src => (test Regex.noFlags SolidityUtils.reOldPragma src),
     "HIGH: Outdated Solidity version - known vulnerabilities");
    (fun src => (test Regex.noFlags SolidityUtils.reAddressParam src &&
       negb (test Regex.noFlags SolidityUtils.reZeroCheck src)),
     "MEDIUM: Missing zero address validation");
    (fun src => (test Regex.noFlags SolidityUtils.rePayableExternal src &&
       negb (test Regex.noFlags SolidityUtils.reAccessControl src)),
     "HIGH: Unprotected payable function");
    (fun src => (test Regex.noFlags SolidityUtils.reTransferSend src &&
       negb (test Regex.noFlags SolidityUtils.reRequireSuccess src)),
     "MEDIUM: Missing return value check for transfer/send");
    (fun src => (test Regex.noFlags SolidityUtils.reBlockField src && test Regex.noFlags SolidityUtils.reRandom src),
     "CRITICAL: Weak randomness source - predictable values");
    (fun src => (test Regex.noFlags SolidityUtils.reLoopCall src &&
       negb (test Regex.noFlags SolidityUtils.reContinueBreak src)),
     "MEDIUM: DoS risk - loop with external calls may fail");
    (fun src => ((0 <? length (matchAll Regex.flagM SolidityUtils.reStateVar src)) &&
       (0 <? length (matchAll Regex.noFlags SolidityUtils.reLocalVar src)))%nat,
     "LOW: Potential variable shadowing - verify manually")
  ].

(** The searches of the similarity step in the comprehensive mode: (a)
    the source text with twice the limit, (b) each of the first three
    indicators with the limit 3. *)
Definition comprehensiveProbes (content : string) (inds : list string)
    (limit : Z) : list Knowledge.Probe :=
  probeOf Knowledge.EXPLOITS content (limit * 2)
  :: map (fun ind => probeOf Knowledge.EXPLOITS ind 3) (firstn 3 inds).

(** The searches the similarity step makes in the two modes. *)
Definition similarProbes (content : string) (inds : list string)
    (o : Options) : list Knowledge.Probe :=
  if comprehensiveMode o
  then comprehensiveProbes content inds (knowledgeLimit o)
  else [probeOf Knowledge.EXPLOITS content (knowledgeLimit o)].

End Spec.

(* ===================================================================== *)
(** * Sample inputs *)
(* ===================================================================== *)

Module Samples.
Import Core.

Definition newline : string := String "010"%char "".

Definition sampleConfig : Config :=
  {| maxFileSize := 4096; timeoutDefault := 30000; timeoutAnalysis := 120000 |}.

(** A machine on which [solhint] is the only installed tool; it prints
    its findings and exits with status 2. *)
Definition lintShell : Command.Shell :=
  {| Command.execSync := fun cmd _ =>
       if String.eqb cmd "which solhint" then Command.Returned "/usr/bin/solhint"
       else if JS.startsWith cmd "solhint " then
         Command.Failed {| Command.e_message := "Command failed: solhint";
                           Command.e_stdout := Some "2 problems";
                           Command.e_stderr := None;
                           Command.e_status := Some 2%Z |}
       else
         Command.Failed {| Command.e_message := "Command failed";
                           Command.e_stdout := None;
                           Command.e_stderr := None;
                           Command.e_status := Some 1%Z |};
     Command.elapsed := fun _ _ => 40%Z;
     Command.processCwd := "/work" |}.

(** A contract that declares one function without visibility and
    mutability keywords among others. *)
Definition helperSource : string :=
  "contract C {" +:+ newline +:+
  "  function helper(uint x) { x; }" +:+ newline +:+
  "  function peek() external view returns (uint) { return 1; }" +:+ newline +:+
  "}".

(** Declarations without a visibility or mutability keyword whose
    modifier has a name that begins with one. *)
Definition sweepSource : string :=
  "function sweep() externalOnly { msg.sender.transfer(1); }".

Definition saleSource : string := "function sale() publicSale { }".

Definition tallySource : string := "function tally() viewOnly { }".

(** A contract with a pinned compiler, a reentrancy guard and access
    control, and nothing for the scan to find. *)
Definition quietSource : string :=
  "pragma solidity 0.8.20;" +:+ newline +:+
  "contract Safe is ReentrancyGuard, AccessControl {" +:+ newline +:+
  "}".

Definition quietInfo : Comprehensive.FileInfo :=
  {| Comprehensive.path := "Safe.sol"; Comprehensive.fname := "Safe.sol";
     Comprehensive.size := 77; Comprehensive.lines := 3 |}.

Definition quietAnalysis : Comprehensive.ContractAnalysis :=
  Comprehensive.analyzeContent quietInfo quietSource.

(** Rows of the knowledge base. *)
Definition row (i : string) (cat : string) (d : Q) : Knowledge.QueryResult :=
  {| Knowledge.id := i;
     Knowledge.document := "Exploit " +:+ i;
     Knowledge.metadata := {[ "category" := cat ]};
     Knowledge.distance := d |}.

(** One query whose answer has the id [X] both among the SWC rows and
    among the exploit rows. *)
Definition sharedIdAnswer : Knowledge.SearchAllResult :=
  {| Knowledge.exploits := [row "X" "reentrancy" (1 # 4)];
     Knowledge.auditFindings := [];
     Knowledge.swc := [row "X" "reentrancy" (1 # 4)] |}.

(** Two queries that return the id [X] for the exploits collection, the
    later one at a smaller distance. *)
Definition repeatedIdAnswers : list Knowledge.SearchAllResult :=
  [ {| Knowledge.exploits := [row "X" "reentrancy" (2 # 5)];
       Knowledge.auditFindings := [];
       Knowledge.swc := [] |};
    {| Knowledge.exploits := [row "X" "reentrancy" (1 # 10); row "Y" "oracle" (1 # 2)];
       Knowledge.auditFindings := [];
       Knowledge.swc := [] |} ].

(** A vault with an external call before the balance update, an
    authorisation by [tx.origin] and an unprotected [setOwner]. *)
Definition vaultSource : string :=
  "pragma solidity ^0.7.0;" +:+ newline +:+
  "contract VulnerableVault {" +:+ newline +:+
  "  mapping(address => uint) balances;" +:+ newline +:+
  "  address owner;" +:+ newline +:+
  "  function withdraw(uint amount) external {" +:+ newline +:+
  "    (bool ok,) = msg.sender.call{value: amount}();" +:+ newline +:+
  "    balances[msg.sender] -= amount;" +:+ newline +:+
  "  }" +:+ newline +:+
  "  function withdrawAll() public {" +:+ newline +:+
  "    require(tx.origin == owner);" +:+ newline +:+
  "  }" +:+ newline +:+
  "  function setOwner(address o) external { owner = o; }" +:+ newline +:+
  "}".

Definition vaultInfo : Comprehensive.FileInfo :=
  {| Comprehensive.path := "Vault.sol"; Comprehensive.fname := "Vault.sol";
     Comprehensive.size := 380; Comprehensive.lines := 13 |}.

Definition vaultAnalysis : Comprehensive.ContractAnalysis :=
  Comprehensive.analyzeContent vaultInfo vaultSource.

(** The options of a call that turns the comprehensive mode off. *)
Definition plainOptions : Comprehensive.Options :=
  {| Comprehensive.includeKnowledgeBase := true;
     Comprehensive.knowledgeLimit := 10;
     Comprehensive.includeSimilarExploits := true;
     Comprehensive.useExternalTools := false;
     Comprehensive.comprehensiveMode := false |}.

(** A knowledge base without rows. *)
Definition noRows : Knowledge.Probe → list Knowledge.QueryResult := fun _ => [].

(** A knowledge base that holds two exploits and returns both to every
    search in the exploits collection. *)
Definition twoExploits : Knowledge.Probe → list Knowledge.QueryResult :=
  fun p =>
    match Knowledge.collection p with
    | Knowledge.EXPLOITS =>
        [row "dao" "reentrancy" (1 # 5); row "parity" "access-control" (3 # 10)]
    | _ => []
    end.

(** A machine without tools whose disk holds the vault under the name
    [Vault.sol]. *)
Definition bareShell : Command.Shell :=
  {| Command.execSync := fun _ _ =>
       Command.Failed {| Command.e_message := "Command failed";
                         Command.e_stdout := None;
                         Command.e_stderr := None;
                         Command.e_status := Some 1%Z |};
     Command.elapsed := fun _ _ => 1%Z;
     Command.processCwd := "/work" |}.

Definition vaultDisk : Comprehensive.FileSystem :=
  {| Comprehensive.fs_exists := fun p => String.eqb p "Vault.sol";
     Comprehensive.fs_size := fun _ => 380;
     Comprehensive.fs_content := fun _ => vaultSource;
     Comprehensive.basename := fun p => p;
     Comprehensive.dirname := fun _ => "." |}.

(** A vector database that cannot be reached. *)
Definition unreachable : Knowledge.VectorDb :=
  fun _ => Throw (OtherError "connect ECONNREFUSED 127.0.0.1:8000").

Definition offlineWorld : Comprehensive.World :=
  {| Comprehensive.config := sampleConfig;
     Comprehensive.fsys := vaultDisk;
     Comprehensive.shell := bareShell;
     Comprehensive.vectorDb := unreachable |}.

End Samples.

(* ===================================================================== *)
(** * The words of a pattern *)
(* ===================================================================== *)

Module RegexSem.
Import Regex.

(** The words a pattern can consume, positions and captures aside: the
    assertions [\b] and [^] consume nothing. *)
Inductive lang (fl : flags) : regex → string → Prop :=
| lang_Eps : lang fl Eps ""
| lang_Chr c a : sameChar fl a c = true → lang fl (Chr c) (String a "")
| lang_Dot a :
    dotAll fl || negb (isLineTerminator a) = true → lang fl Dot (String a "")
| lang_Space a : JS.isSpace a = true → lang fl Space (String a "")
| lang_Word a : isWordChar a = true → lang fl Word (String a "")
| lang_Digit a : JS.isDigit a = true → lang fl Digit (String a "")
| lang_OneOf cs a : memChar fl a cs = true → lang fl (OneOf cs) (String a "")
| lang_NoneOf cs a : memChar fl a cs = false → lang fl (NoneOf cs) (String a "")
| lang_Seq r1 r2 w1 w2 :
    lang fl r1 w1 → lang fl r2 w2 → lang fl (Seq r1 r2) (w1 +:+ w2)
| lang_AltL r1 r2 w : lang fl r1 w → lang fl (Alt r1 r2) w
| lang_AltR r1 r2 w : lang fl r2 w → lang fl (Alt r1 r2) w
| lang_Star0 r : lang fl (Star r) ""
| lang_StarS r w1 w2 :
    lang fl r w1 → lang fl (Star r) w2 → lang fl (Star r) (w1 +:+ w2)
| lang_Group n r w : lang fl r w → lang fl (Group n r) w
| lang_WordB : lang fl WordB ""
| lang_Bol : lang fl Bol "".

(** The text [v] is a word of a capture group numbered [n] inside [r]. *)
Fixpoint groupLang (fl : flags) (r : regex) (n : nat) (v : string) : Prop :=
  match r with
  | Seq r1 r2 | Alt r1 r2 => groupLang fl r1 n v ∨ groupLang fl r2 n v
  | Star r1 => groupLang fl r1 n v
  | Group m r1 => (m = n ∧ lang fl r1 v) ∨ groupLang fl r1 n v
  | _ => False
  end.

(** The group [n] takes part in every match of [r]. *)
Fixpoint mustCapture (r : regex) (n : nat) : bool :=
  match r with
  | Seq r1 r2 => mustCapture r1 n || mustCapture r2 n
  | Alt r1 r2 => mustCapture r1 n && mustCapture r2 n
  | Group m r1 => (m =? n)%nat || mustCapture r1 n
  | _ => false
  end.

(** Every character of [s] satisfies [p]. *)
Fixpoint allChars (p : ascii → bool) (s : string) : bool :=
  match s with
  | EmptyString => true
  | String c s' => p c && allChars p s'
  end.

(** From the state [st] the matcher reaches [st1] by consuming [w]. *)
Definition consumes (st st1 : state) (w : string) : Prop :=
  rest st = w +:+ rest st1 ∧ pos st1 = (pos st + String.length w)%nat.

(** The captures of [st1] are those of [st] or words of groups of [r]. *)
Definition capturesFrom (fl : flags) (r : regex) (st st1 : state) : Prop :=
  ∀ n v, caps st1 !! n = Some v →
         caps st !! n = Some v ∨ groupLang fl r n v.

End RegexSem.

(* ===================================================================== *)
(** * src/tools/analysis/analyze_contract.ts *)
(* ===================================================================== *)

Module Quick.
Import Core.

Record Summary := {
  totalFunctions : nat;
  external       : nat;
  public         : nat;
  stateChanging  : nat
}.

Record Security := {
  hasReentrancyGuard : bool;
  hasAccessControl   : bool;
  indicators         : list string
}.

Record FunctionNames := {
  fns_external : list string;
  fns_public   : list string
}.

Record Result := {
  file      : Comprehensive.FileInfo;
  summary   : Summary;
  security  : Security;
  protocols : list string;
  functions : FunctionNames
}.

(** The data a response carries before [JSON.stringify]; the details of
    an error are absent when [errorResponse] is called with the message
    alone. *)
Inductive Payload :=
| ResultData (r : Result)
| ErrorData (msg : string) (details : option (list (string * string))).

Record ToolResponse := {
  content : Payload;
  isError : bool
}.

Definition jsonResponse (data : Result) : ToolResponse :=
  {| content := ResultData data; isError := false |}.

Definition errorResponse (msg : string)
    (details : option (list (string * string))) : ToolResponse :=
  {| content := ErrorData msg details; isError := true |}.

(** The handler of the [analyze_contract] tool. *)
Definition handler (w : Comprehensive.World) (p : string) : ToolResponse :=
  if negb (Comprehensive.fs_exists (Comprehensive.fsys w) p) then
    errorResponse "File not found" (Some [("path", p)])
  else
    match Comprehensive.readFile w p with
    | Throw e => errorResponse (errorString e) None
    | Ok content =>
        let fns := SolidityUtils.extractFunctions content in
        let externalFns :=
          filter (fun f => SolidityUtils.visibility f = SolidityUtils.VExternal) fns in
        let publicFns :=
          filter (fun f => SolidityUtils.visibility f = SolidityUtils.VPublic) fns in
        match Comprehensive.getFileInfo w p with
        | Throw e => errorResponse (errorString e) None
        | Ok info =>
            jsonResponse
              {| file := info;
                 summary :=
                   {| totalFunctions := length fns;
                      external := length externalFns;
                      public := length publicFns;
                      stateChanging :=
                        length (filter
                                  (fun f =>
                                     SolidityUtils.mutability f ≠ SolidityUtils.MView
                                     ∧ SolidityUtils.mutability f ≠ SolidityUtils.MPure)
                                  fns) |};
                 security :=
                   {| hasReentrancyGuard :=
                        JS.includes content "nonReentrant"
                        || JS.includes content "ReentrancyGuard";
                      hasAccessControl :=
                        JS.includes content "onlyOwner"
                        || JS.includes content "AccessControl";
                      indicators :=
                        SolidityUtils.checkVulnerabilityIndicators content |};
                 protocols := SolidityUtils.detectProtocolType content;
                 functions :=
                   {| fns_external := map SolidityUtils.name externalFns;
                      fns_public := map SolidityUtils.name publicFns |} |}
        end
    end.

End Quick.

(* ===================================================================== *)
(** * Readings of the reports *)
(* ===================================================================== *)

Module Facts.
Import Core Comprehensive.

(** The order of the risk levels. *)
Definition levelRank (l : Level) : nat :=
  match l with
  | INFO => 0 | LOW => 1 | MEDIUM => 2 | HIGH => 3 | CRITICAL => 4
  end.

(** The protocol detection as a table: the condition of each check on the
    source text and the protocol it reports, in the order of the checks. *)
Definition protocolRules : list ((string → bool) * string) :=
  [ (fun src => JS.includes src "transfer(" || JS.includes src "balanceOf(",
     "ERC20");
    (fun src => JS.includes src "ownerOf(" || JS.includes src "tokenURI(",
     "ERC721");
    (fun src => JS.includes src "IVault" || JS.includes src "getPoolTokens",
     "Balancer");
    (fun src => JS.includes src "getReserves" || JS.includes src "UniswapV2",
     "Uniswap");
    (fun src => JS.includes src "AggregatorV3" || JS.includes src "latestRoundData",
     "Chainlink");
    (fun src => JS.includes src "Ownable" || JS.includes src "AccessControl",
     "OpenZeppelin") ].

(** What the entry [e] of the external tools says about the tool with
    the executable [binary]: whether it is installed; for a missing tool
    the installation hint and nothing else; for an installed tool one of
    the statuses [statuses], with the output of the run unless the run
    failed, and with the error text exactly when it failed. *)
Definition describes (w : World) (binary : string) (statuses : list string)
    (e : ToolEntry) : Prop :=
  available e = Command.isToolInstalled (shell w) binary
  ∧ (available e = false →
       hint e = Some (Command.getInstallHint binary)
       ∧ status e = None ∧ output e = None ∧ tool_error e = None)
  ∧ (available e = true →
       ∃ st, status e = Some st ∧ st ∈ statuses ∧ hint e = None
             ∧ (st = "failed" ↔ output e = None)
             ∧ (st = "failed" ↔ is_Some (tool_error e))).

(** The part of the comprehensive contract analysis that the quick
    analysis reports. *)
Definition quickOf (ca : ContractAnalysis) : Quick.Result :=
  {| Quick.file := file ca;
     Quick.summary :=
       {| Quick.totalFunctions := totalFunctions (summary ca);
          Quick.external := external (summary ca);
          Quick.public := public (summary ca);
          Quick.stateChanging := stateChanging (summary ca) |};
     Quick.security :=
       {| Quick.hasReentrancyGuard := hasReentrancyGuard (security ca);
          Quick.hasAccessControl := hasAccessControl (security ca);
          Quick.indicators := indicators (security ca) |};
     Quick.protocols := protocols ca;
     Quick.functions :=
       {| Quick.fns_external := map fn_name (fns_external (functions ca));
          Quick.fns_public := map fn_name (fns_public (functions ca)) |} |}.

(** The words of a text: its maximal runs of letters, digits and
    underscores, in order. *)
Fixpoint wordsFrom (cur : string) (s : string) : list string :=
  match s with
  | EmptyString => if String.eqb cur "" then [] else [cur]
  | String c s' =>
      if Regex.isWordChar c then wordsFrom (cur +:+ String c "") s'
      else if String.eqb cur "" then wordsFrom "" s'
      else cur :: wordsFrom "" s'
  end.

Definition wordsOf (s : string) : list string := wordsFrom "" s.

(** The keywords of visibility and of mutability. *)
Definition keywords : list string :=
  ["public"; "external"; "internal"; "private"; "view"; "pure"; "payable"].

(** The ids of the rows of an answer of [searchAll]. *)
Definition answerIds (a : Knowledge.SearchAllResult) : list string :=
  map Knowledge.id
      (Knowledge.swc a ++ Knowledge.exploits a ++ Knowledge.auditFindings a).

End Facts.

(* ===================================================================== *)
(** * The indicator scan with its effects *)
(* ===================================================================== *)

(** The scan once more, this time with what JavaScript does on the way:
    every regular expression literal creates a [RegExp] object, an object
    that carries the position [lastIndex]; [String.prototype.match] reads
    the object and, under the [g] flag, writes its [lastIndex]; a missing
    object or an [undefined] array element raises a [TypeError]. *)
Module Runtime.
Import Core Regex.

Record RegExpObject := {
  pattern   : regex;
  reFlags   : flags;
  global    : bool;     (* g *)
  lastIndex : nat
}.

(** The objects created so far; a reference is the position of its
    object. *)
Definition Heap := list RegExpObject.
Definition Ref := nat.

(** A computation over the heap that returns a value or throws. *)
Definition JSM (A : Type) : Type := Heap → Res A * Heap.

Definition ret {A} (a : A) : JSM A := fun h => (Ok a, h).

Definition bind {A B} (m : JSM A) (f : A → JSM B) : JSM B :=
  fun h =>
    match m h with
    | (Ok a, h') => f a h'
    | (Throw e, h') => (Throw e, h')
    end.

Definition throw {A} (e : Error) : JSM A := fun h => (Throw e, h).

Notation "x <-- m ;; k" := (bind m (fun x => k))
  (at level 100, m at next level, right associativity).

(** An array of strings; an element may be [undefined]. *)
Definition JSArray := list (option string).

(** The number of capture groups of a pattern. *)
Fixpoint groupCount (r : regex) : nat :=
  match r with
  | Seq r1 r2 | Alt r1 r2 => groupCount r1 + groupCount r2
  | Star r1 => groupCount r1
  | Group _ r1 => S (groupCount r1)
  | _ => 0
  end.

(** The array of a match without the [g] flag: the matched text, then
    the capture of each group, [undefined] for a group that took no
    part. *)
Definition matchArray (r : regex) (m : result) : JSArray :=
  Some (matched m) :: map (fun n => groups m !! n) (seq 1 (groupCount r)).

(** Evaluating a regular expression literal: a new object with
    [lastIndex] 0. *)
Definition regexLiteral (r : regex) (fl : flags) (g : bool) : JSM Ref :=
  fun h =>
    (Ok (length h),
     h ++ [{| pattern := r; reFlags := fl; global := g; lastIndex := 0 |}]).

(** [s.match(re)].  Without the [g] flag the search starts at the
    beginning of [s], whatever [lastIndex] is, and [lastIndex] is not
    written; the
    result is the array of the leftmost match or [null].  Under the [g]
    flag [lastIndex] is set to 0, all matches are collected, and the
    failing last attempt leaves [lastIndex] at 0; the result is the array
    of the matched texts, or [null] when there is none. *)
Definition stringMatch (s : string) (re : Ref) : JSM (option JSArray) :=
  fun h =>
    match h !! re with
    | None => (Throw (OtherError "TypeError: not a regular expression"), h)
    | Some o =>
        if global o then
          let ms := matchAll (reFlags o) (pattern o) s in
          (Ok (if (0 <? length ms)%nat
               then Some (map Some (map matched ms)) else None),
           <[re := {| pattern := pattern o; reFlags := reFlags o;
                      global := global o; lastIndex := 0 |}]> h)
        else
          (Ok (matchArray (pattern o) <$> exec (reFlags o) (pattern o) s), h)
    end.

(** The truth value of [s.match(re)]: an array is truthy, [null] is
    not. *)
Definition truthy {A} (v : option A) : bool :=
  match v with
  | Some _ => true
  | None => false
  end.

(** [s.match(/r/)] as a condition *)
Definition matches (s : string) (fl : flags) (r : regex) : JSM bool :=
  re <-- regexLiteral r fl false ;;
  m <-- stringMatch s re ;;
  ret (truthy m).

(** [s.match(/r/g) || []] *)
Definition matchesOrEmpty (s : string) (fl : flags) (r : regex) : JSM JSArray :=
  re <-- regexLiteral r fl true ;;
  m <-- stringMatch s re ;;
  ret (default [] m).

(** [a && b] and [!a] on conditions: [b] is evaluated only when [a]
    holds. *)
Definition andM (a b : JSM bool) : JSM bool :=
  x <-- a ;; if x then b else ret false.

Definition notM (a : JSM bool) : JSM bool :=
  x <-- a ;; ret (negb x).

(** [arr.some(p => f(p))] where [f] calls a method of the element: the
    elements are visited in order up to the first one that satisfies
    [f]; calling the method on [undefined] raises. *)
Fixpoint some (f : string → bool) (arr : JSArray) : JSM bool :=
  match arr with
  | [] => ret false
  | None :: _ =>
      throw (OtherError "TypeError: Cannot read properties of undefined")
  | Some p :: rest => if f p then ret true else some f rest
  end.

(** [if (c) indicators.push(msg)] *)
Definition pushWhen (c : JSM bool) (msg : string) (indicators : list string)
    : JSM (list string) :=
  b <-- c ;; ret (SolidityUtils.pushIf b msg indicators).

Import SolidityUtils.

Definition checkVulnerabilityIndicators (src : string) : JSM (list string) :=
  let has := JS.includes src in
  let indicators : list string := [] in
  (* Reentrancy checks *)
  indicators <--
    pushWhen (ret ((has ".call{" || has ".call(" || has ".send("
                    || has ".transfer(")
                   && negb (has "nonReentrant") && negb (has "ReentrancyGuard")))
      "CRITICAL: Potential reentrancy - external call without guard"
      indicators ;;
  indicators <--
    pushWhen (andM (matches src noFlags reCallValue)
                   (ret (negb (has "nonReentrant"))))
      "CRITICAL: ETH transfer via call without reentrancy protection"
      indicators ;;
  (* Access control *)
  indicators <--
    pushWhen (ret (has "tx.origin"))
      "CRITICAL: tx.origin usage - vulnerable to phishing attacks"
      indicators ;;
  indicators <--
    pushWhen (andM (andM (matches src flagI rePrivileged)
                         (ret (negb (has "onlyOwner"))))
                   (ret (negb (has "AccessControl"))))
      "HIGH: Privileged function without access control" indicators ;;
  (* Dangerous operations *)
  indicators <--
    pushWhen (ret (has "selfdestruct" && negb (has "onlyOwner")))
      "CRITICAL: selfdestruct without access control" indicators ;;
  indicators <--
    pushWhen (andM (ret (has "delegatecall"))
                   (notM (matches src flagI reRequireSender)))
      "CRITICAL: delegatecall without proper validation" indicators ;;
  (* Integer overflow/underflow *)
  indicators <--
    pushWhen (andM (andM (matches src noFlags reArithmetic)
                         (ret (negb (has "SafeMath"))))
                   (notM (matches src noFlags rePragma08)))
      "HIGH: Unchecked arithmetic - potential overflow/underflow"
      indicators ;;
  (* Unchecked external calls *)
  indicators <--
    pushWhen (andM (matches src noFlags reExternalCall)
                   (notM (matches src noFlags reSuccessChecked)))
      "MEDIUM: Unchecked external call return value" indicators ;;
  (* Front-running vulnerabilities *)
  indicators <--
    pushWhen (andM (matches src noFlags reTime)
                   (matches src noFlags reRequireBlock))
      "MEDIUM: Time-dependent logic - potential front-running" indicators ;;
  (* Gas griefing *)
  indicators <--
    pushWhen (matches src noFlags reLoopCall)
      "MEDIUM: Loop with external calls - gas griefing risk" indicators ;;
  (* Missing events *)
  stateChangingFns <-- matchesOrEmpty src noFlags reFunctionBody ;;
  events <-- matchesOrEmpty src noFlags reEvent ;;
  indicators <--
    pushWhen (ret (length events * 2 <? length stateChangingFns)%nat)
      "LOW: Missing event emissions for state changes" indicators ;;
  (* Assembly usage *)
  indicators <--
    pushWhen (ret (has "assembly"))
      "HIGH: Inline assembly - requires careful security review" indicators ;;
  (* Uninitialized storage *)
  indicators <--
    pushWhen (andM (matches src noFlags reStoragePointer)
                   (notM (matches src noFlags reAssignment)))
      "HIGH: Uninitialized storage pointer" indicators ;;
  (* Floating pragma *)
  pragmas <-- matchesOrEmpty src noFlags rePragmaVersion ;;
  indicators <--
    pushWhen (some (fun p => JS.includes p "^" || JS.includes p ">="
                             || JS.includes p "~") pragmas)
      "MEDIUM: Floating pragma - use fixed version for production"
      indicators ;;
  (* Outdated compiler *)
  indicators <--
    pushWhen (matches src noFlags reOldPragma)
      "HIGH: Outdated Solidity version - known vulnerabilities" indicators ;;
  (* Missing zero address checks *)
  indicators <--
    pushWhen (andM (matches src noFlags reAddressParam)
                   (notM (matches src noFlags reZeroCheck)))
      "MEDIUM: Missing zero address validation" indicators ;;
  (* Unprotected payable functions *)
  indicators <--
    pushWhen (andM (matches src noFlags rePayableExternal)
                   (notM (matches src noFlags reAccessControl)))
      "HIGH: Unprotected payable function" indicators ;;
  (* Missing return value checks *)
  indicators <--
    pushWhen (andM (matches src noFlags reTransferSend)
                   (notM (matches src noFlags reRequireSuccess)))
      "MEDIUM: Missing return value check for transfer/send" indicators ;;
  (* Weak randomness *)
  indicators <--
    pushWhen (andM (matches src noFlags reBlockField)
                   (matches src noFlags reRandom))
      "CRITICAL: Weak randomness source - predictable values" indicators ;;
  (* DoS with failed call *)
  indicators <--
    pushWhen (andM (matches src noFlags reLoopCall)
                   (notM (matches src noFlags reContinueBreak)))
      "MEDIUM: DoS risk - loop with external calls may fail" indicators ;;
  (* Shadowing state variables *)
  stateVars <-- matchesOrEmpty src flagM reStateVar ;;
  localVars <-- matchesOrEmpty src noFlags reLocalVar ;;
  indicators <--
    pushWhen (ret ((0 <? length stateVars) && (0 <? length localVars))%nat)
      "LOW: Potential variable shadowing - verify manually" indicators ;;
  ret indicators.

(** The computation [m] returns [v] from every heap, without raising and
    without touching the objects that were there. *)
Definition returns {A} (m : JSM A) (v : A) : Prop :=
  ∀ h, ∃ h', m h = (Ok v, h ++ h').

End Runtime.

(* ===================================================================== *)
(** * Properties *)
(* ===================================================================== *)

(** ** Insertion-ordered sets *)

Section SetOf.
Context {A : Type} `{EqDecision A}.
Implicit Types (xs acc : list A) (x : A).

Lemma setAdd_elem acc x y : y ∈ JS.setAdd acc x ↔ y ∈ acc ∨ y = x.
Proof.
  unfold JS.setAdd. case_decide as Hin.
  - split; [by left | intros [?| ->]; done].
  - rewrite elem_of_app, list_elem_of_singleton. done.
Qed.

Lemma setAdd_NoDup acc x : NoDup acc → NoDup (JS.setAdd acc x).
Proof.
  intros Hnd. unfold JS.setAdd. case_decide as Hin; [done|].
  apply NoDup_app. split_and!; [done| |apply NoDup_singleton].
  intros y Hy ->%list_elem_of_singleton. done.
Qed.

Lemma fold_setAdd_elem xs acc y :
  y ∈ fold_left JS.setAdd xs acc ↔ y ∈ acc ∨ y ∈ xs.
Proof.
  revert acc. induction xs as [|x xs IH]; intros acc; simpl.
  - rewrite elem_of_nil. tauto.
  - rewrite IH, setAdd_elem, elem_of_cons. tauto.
Qed.

Lemma fold_setAdd_NoDup xs acc :
  NoDup acc → NoDup (fold_left JS.setAdd xs acc).
Proof.
  revert acc. induction xs as [|x xs IH]; intros acc Hnd; simpl; [done|].
  apply IH, setAdd_NoDup, Hnd.
Qed.

Lemma setOf_elem xs y : y ∈ JS.setOf xs ↔ y ∈ xs.
Proof.
  unfold JS.setOf. rewrite fold_setAdd_elem, elem_of_nil. tauto.
Qed.

Lemma setOf_NoDup xs : NoDup (JS.setOf xs).
Proof. apply fold_setAdd_NoDup, NoDup_nil_2. Qed.

Lemma setOf_nil_inv xs : JS.setOf xs = [] → xs = [].
Proof.
  destruct xs as [|x xs]; [done|]. intros Heq.
  assert (x ∈ JS.setOf (x :: xs)) as Hx by (apply setOf_elem; left).
  rewrite Heq in Hx. by apply elem_of_nil in Hx.
Qed.

Lemma setOf_singleton x : JS.setOf [x] = [x].
Proof.
  unfold JS.setOf, JS.setAdd. cbn [fold_left].
  destruct (decide (x ∈ [])) as [Hin|_]; [|done].
  by apply elem_of_nil in Hin.
Qed.
End SetOf.

(** ** Risk scoring *)

Section RiskScore.
Import Comprehensive.

Lemma addFactor_score c n msg acc :
  (addFactor c n msg acc).1 = (acc.1 + (if c then n else 0))%nat.
Proof. unfold addFactor. destruct c; simpl; lia. Qed.

(** A factor that is added only for a positive count adds the weighted
    count in every case. *)
Lemma addFactor_count k n msg acc :
  (addFactor (0 <? k)%nat (k * n) msg acc).1 = (acc.1 + k * n)%nat.
Proof.
  rewrite addFactor_score. destruct k; simpl; lia.
Qed.

(** The score in terms of the fields of the analysis. *)
Lemma assessRisk_score ca kr se :
  score (assessRisk ca kr se) =
    (critical (severityBreakdown (security ca)) * 30
     + high (severityBreakdown (security ca)) * 20
     + medium (severityBreakdown (security ca)) * 10
     + low (severityBreakdown (security ca)) * 5
     + (if hasReentrancyGuard (security ca) then 0 else 30)
     + (if hasAccessControl (security ca) then 0 else 20)
     + (if hasOutdatedCompiler (metadata ca) then 25 else 0)
     + (if hasFloatingPragma (metadata ca) then 15 else 0)
     + length (privilegedFunctionsWithoutAccessControl (security ca)) * 15
     + length se * 5
     + length (filter (fun s => hasSeverity "critical" s = true)
                      (default [] (kr !! "swc"))) * 15)%nat.
Proof.
  unfold assessRisk. cbn [score].
  rewrite !addFactor_count, !addFactor_score. cbn [fst].
  destruct (hasReentrancyGuard _), (hasAccessControl _),
    (hasOutdatedCompiler _), (hasFloatingPragma _); simpl; lia.
Qed.
End RiskScore.

(** C3. The risk score of an analysed source text is the additive sum:
    30, 20, 10 and 5 points per indicator tagged CRITICAL, HIGH, MEDIUM
    and LOW (no cap); 30 points when neither [nonReentrant] nor
    [ReentrancyGuard] occurs in the source; 20 points when neither
    [onlyOwner] nor [AccessControl] occurs; 25 points when some pragma has
    a major version below 8; 15 points when some pragma is floating
    (contains [^], [>=] or [~]); 15 points per privileged external
    function without access control; 5 points per similar exploit; 15
    points per SWC match of critical severity. *)
Theorem C3_risk_score_is_additive_sum
    (info : Comprehensive.FileInfo) (content : string)
    (kr : Comprehensive.KnowledgeResults)
    (se : list Comprehensive.SimilarExploit) :
  let ca := Comprehensive.analyzeContent info content in
  let inds := SolidityUtils.checkVulnerabilityIndicators content in
  let versions :=
    map Comprehensive.compilerVersionOf
        (SolidityUtils.pragmas (SolidityUtils.extractMetadata content)) in
  Comprehensive.score (Comprehensive.assessRisk ca kr se) =
    (30 * Comprehensive.countTag "CRITICAL" inds
     + 20 * Comprehensive.countTag "HIGH" inds
     + 10 * Comprehensive.countTag "MEDIUM" inds
     + 5 * Comprehensive.countTag "LOW" inds
     + (if JS.includes content "nonReentrant"
           || JS.includes content "ReentrancyGuard" then 0 else 30)
     + (if JS.includes content "onlyOwner"
           || JS.includes content "AccessControl" then 0 else 20)
     + (if existsb Comprehensive.isOutdated versions then 25 else 0)
     + (if existsb Comprehensive.isFloating versions then 15 else 0)
     + 15 * length (Comprehensive.privilegedFunctionsOf content)
     + 5 * length se
     + 15 * length (filter (fun s => Comprehensive.hasSeverity "critical" s = true)
                           (default [] (kr !! "swc"))))%nat.
Proof.
  intros ca inds versions.
  rewrite assessRisk_score. subst ca.
  unfold Comprehensive.analyzeContent.
  cbn [Comprehensive.security Comprehensive.metadata
       Comprehensive.severityBreakdown Comprehensive.critical
       Comprehensive.high Comprehensive.medium Comprehensive.low
       Comprehensive.hasReentrancyGuard Comprehensive.hasAccessControl
       Comprehensive.hasOutdatedCompiler Comprehensive.hasFloatingPragma
       Comprehensive.privilegedFunctionsWithoutAccessControl].
  rewrite length_map. fold inds versions. lia.
Qed.

(** C4. The level is the threshold bucket of the score: CRITICAL from 70,
    HIGH from 50 to 69, MEDIUM from 30 to 49, LOW from 10 to 29 and INFO
    below 10; so 70 is CRITICAL, 69 and 50 are HIGH, 49 and 30 are MEDIUM,
    29 and 10 are LOW and 9 is INFO. *)
Theorem C4_level_is_threshold_bucket
    (ca : Comprehensive.ContractAnalysis)
    (kr : Comprehensive.KnowledgeResults)
    (se : list Comprehensive.SimilarExploit) :
  let r := Comprehensive.assessRisk ca kr se in
  let s := Comprehensive.score r in
  (Comprehensive.level r = Comprehensive.CRITICAL ↔ (70 ≤ s)%nat)
  ∧ (Comprehensive.level r = Comprehensive.HIGH ↔ (50 ≤ s < 70)%nat)
  ∧ (Comprehensive.level r = Comprehensive.MEDIUM ↔ (30 ≤ s < 50)%nat)
  ∧ (Comprehensive.level r = Comprehensive.LOW ↔ (10 ≤ s < 30)%nat)
  ∧ (Comprehensive.level r = Comprehensive.INFO ↔ (s < 10)%nat)
  ∧ Comprehensive.levelOf 70 = Comprehensive.CRITICAL
  ∧ Comprehensive.levelOf 69 = Comprehensive.HIGH
  ∧ Comprehensive.levelOf 50 = Comprehensive.HIGH
  ∧ Comprehensive.levelOf 49 = Comprehensive.MEDIUM
  ∧ Comprehensive.levelOf 30 = Comprehensive.MEDIUM
  ∧ Comprehensive.levelOf 29 = Comprehensive.LOW
  ∧ Comprehensive.levelOf 10 = Comprehensive.LOW
  ∧ Comprehensive.levelOf 9 = Comprehensive.INFO.
Proof.
  intros r s.
  assert (Comprehensive.level r = Comprehensive.levelOf s) as -> by done.
  clearbody s. clear r.
  unfold Comprehensive.levelOf.
  destruct (Nat.leb_spec 70 s), (Nat.leb_spec 50 s), (Nat.leb_spec 30 s),
    (Nat.leb_spec 10 s);
    split_and!; try reflexivity;
    (split; intros;
     first [ reflexivity | discriminate | lia | exfalso; lia ]).
Qed.

(** ** The external tool runner *)

(** C9. [executeCommand] raises the not-found error when the tool is not
    installed; when the tool is installed it returns a result record for a
    run that exits with 0, raises the execution error for a failed run
    that left no usable standard output, and returns a result record
    (success flag, stdout, stderr, exit code, duration) for a failed run
    that printed something, with the exit status of the run as its exit
    code.  These are the only ways it raises. *)
Theorem C9_execute_command_outcomes
    (cfg : Core.Config) (sh : Command.Shell) (cmd : string)
    (args : list string) (cwd : option string) (timeout : option Z) :
  let opts := {| Command.opt_cwd := Some (default (Command.processCwd sh) cwd);
                 Command.opt_timeout :=
                   Some (default (Core.timeoutDefault cfg) timeout) |} in
  let full := cmd +:+ " " +:+ JS.join " " args in
  let r := Command.executeCommand cfg sh cmd args cwd timeout in
  (Command.isToolInstalled sh cmd = false →
     r = Core.Throw (Core.ToolNotFoundError cmd (Command.getInstallHint cmd)))
  ∧ (∀ out,
       Command.isToolInstalled sh cmd = true →
       Command.execSync sh full opts = Command.Returned out →
       r = Core.Ok {| Command.success := true; Command.command := full;
                      Command.stdout := out; Command.stderr := "";
                      Command.duration := Command.elapsed sh full opts;
                      Command.exitCode := 0 |})
  ∧ (∀ e,
       Command.isToolInstalled sh cmd = true →
       Command.execSync sh full opts = Command.Failed e →
       Command.e_stdout e = None ∨ Command.e_stdout e = Some "" →
       r = Core.Throw (Core.ToolExecutionError (Command.e_message e) cmd))
  ∧ (∀ e out n,
       Command.isToolInstalled sh cmd = true →
       Command.execSync sh full opts = Command.Failed e →
       Command.e_stdout e = Some out → out ≠ "" →
       Command.e_status e = Some n → n ≠ 0%Z →
       r = Core.Ok {| Command.success := true; Command.command := full;
                      Command.stdout := out;
                      Command.stderr := Command.orString (Command.e_stderr e) "";
                      Command.duration := Command.elapsed sh full opts;
                      Command.exitCode := n |})
  ∧ (∀ err, r = Core.Throw err →
       (Command.isToolInstalled sh cmd = false
        ∧ err = Core.ToolNotFoundError cmd (Command.getInstallHint cmd))
       ∨ (∃ e, Command.execSync sh full opts = Command.Failed e
               ∧ Command.truthy (Command.e_stdout e) = false
               ∧ err = Core.ToolExecutionError (Command.e_message e) cmd)).
Proof.
  intros opts full r. subst r. unfold Command.executeCommand.
  fold opts full.
  split_and!.
  - intros ->. reflexivity.
  - intros out -> ->. reflexivity.
  - intros e -> -> [Hs|Hs]; rewrite Hs; reflexivity.
  - intros e out n -> -> Hout Hne Hst Hn. rewrite Hout, Hst. simpl.
    destruct out as [|c out]; [done|]. simpl.
    destruct n; done.
  - intros err. destruct (Command.isToolInstalled sh cmd); simpl.
    + destruct (Command.execSync sh full opts) as [out|e] eqn:Hex; [done|].
      destruct (Command.truthy (Command.e_stdout e)) eqn:Ht; [done|].
      intros [= <-]. right. by exists e.
    + intros [= <-]. by left.
Qed.

(** On the sample machine [solhint] exits with status 2 after printing
    its findings: the run is returned with exit code 2. *)
Lemma C9_execute_command_witness :
  Command.executeCommand Samples.sampleConfig Samples.lintShell "solhint"
    ["a.sol"] (Some "/src") None
  = Core.Ok {| Command.success := true; Command.command := "solhint a.sol";
               Command.stdout := "2 problems"; Command.stderr := "";
               Command.duration := 40; Command.exitCode := 2 |}.
Proof.
  pose proof (C9_execute_command_outcomes Samples.sampleConfig
                Samples.lintShell "solhint" ["a.sol"] (Some "/src") None) as H.
  cbv zeta in H. destruct H as (_ & _ & _ & H & _).
  apply (H {| Command.e_message := "Command failed: solhint";
              Command.e_stdout := Some "2 problems";
              Command.e_stderr := None;
              Command.e_status := Some 2%Z |} "2 problems" 2%Z);
    first [ reflexivity | discriminate ].
Defined.

(** ** Defaults of the function scan *)

(** A declaration matched by [extractFunctions] whose visibility
    group took no part in the match is recorded as internal, and it is
    then neither among the external nor the public functions of the
    summary, nor among the privileged functions; one whose mutability
    group took no part is recorded as nonpayable, and it is then neither
    among the payable nor the view functions. *)
Lemma absent_groups_give_defaults
    (src : string) (m : Regex.result) :
  m ∈ SolidityUtils.functionMatches src →
  let f := SolidityUtils.functionOfMatch src m in
  f ∈ SolidityUtils.extractFunctions src
  ∧ (Regex.groups m !! 2%nat = None →
       SolidityUtils.visibility f = SolidityUtils.VInternal
       ∧ (f ∉ Comprehensive.externalFnsOf src)
       ∧ (f ∉ Comprehensive.publicFnsOf src)
       ∧ (f ∉ Comprehensive.privilegedFunctionsOf src))
  ∧ (Regex.groups m !! 3%nat = None →
       SolidityUtils.mutability f = SolidityUtils.MNonpayable
       ∧ (f ∉ Comprehensive.payableFnsOf src)
       ∧ (f ∉ Comprehensive.viewFnsOf src)).
Proof.
  intros Hm f. split_and!.
  - apply list_elem_of_fmap. by exists m.
  - intros Hg.
    assert (SolidityUtils.visibility f = SolidityUtils.VInternal) as Hv.
    { subst f. unfold SolidityUtils.functionOfMatch. simpl. by rewrite Hg. }
    assert (f ∉ Comprehensive.externalFnsOf src) as Hext.
    { intros [Hf _]%list_elem_of_filter.
      unfold Comprehensive.isExternal in Hf.
      apply bool_decide_eq_true in Hf. congruence. }
    split_and!; [done|done| |].
    + intros [Hf _]%list_elem_of_filter.
      unfold Comprehensive.isPublic in Hf.
      apply bool_decide_eq_true in Hf. congruence.
    + intros [_ Hf]%list_elem_of_filter. done.
  - intros Hg.
    assert (SolidityUtils.mutability f = SolidityUtils.MNonpayable) as Hv.
    { subst f. unfold SolidityUtils.functionOfMatch. simpl. by rewrite Hg. }
    split_and!; [done| |].
    + intros [Hf _]%list_elem_of_filter.
      unfold Comprehensive.isPayable in Hf.
      apply bool_decide_eq_true in Hf. congruence.
    + intros [Hf _]%list_elem_of_filter.
      unfold Comprehensive.isView in Hf.
      apply orb_true_iff in Hf as [Hf|Hf];
        apply bool_decide_eq_true in Hf; congruence.
Qed.


Lemma helper_match :
  ∃ m rest,
    SolidityUtils.functionMatches Samples.helperSource = m :: rest
    ∧ Regex.groups m !! 2%nat = None
    ∧ Regex.groups m !! 3%nat = None
    ∧ Regex.groups m !! 1%nat = Some "helper".
Proof.
  set (ms := SolidityUtils.functionMatches Samples.helperSource).
  vm_compute in ms.
  eexists _, _. split; [subst ms; reflexivity|].
  split_and!; vm_compute; reflexivity.
Qed.

(** The second declaration of the sample contract carries both
    keywords. *)
Lemma peek_match :
  ∃ m,
    m ∈ SolidityUtils.functionMatches Samples.helperSource
    ∧ Regex.groups m !! 1%nat = Some "peek"
    ∧ Regex.groups m !! 2%nat = Some "external"
    ∧ Regex.groups m !! 3%nat = Some "view".
Proof.
  set (ms := SolidityUtils.functionMatches Samples.helperSource).
  vm_compute in ms.
  eexists. split; [subst ms; right; left|].
  split_and!; vm_compute; reflexivity.
Qed.

(** C10. A declaration without a visibility or mutability keyword is not
    always recorded as internal and nonpayable: one whose modifier has a
    name that begins with a keyword is recorded with that keyword.  The
    pattern of [extractFunctions] lists the keywords without a word
    boundary after them, so it takes the beginning of [externalOnly] for
    the keyword [external].  None of the
    words of the three sample declarations is a visibility or mutability
    keyword; yet [sweep] is recorded as external, counted among the
    external functions and classified as a privileged function without
    access control, [sale] is recorded as public and counted among the
    public functions, and [tally] is recorded as view and counted among
    the view functions. *)
Theorem C10_modifier_prefix_taken_for_keyword :
  let recorded src :=
    map (fun f => (SolidityUtils.name f, SolidityUtils.visibility f,
                   SolidityUtils.mutability f))
        (SolidityUtils.extractFunctions src) in
  let analysed src := Comprehensive.analyzeContent Samples.quietInfo src in
  (∀ k, k ∈ Facts.keywords →
        (k ∉ Facts.wordsOf Samples.sweepSource)
        ∧ (k ∉ Facts.wordsOf Samples.saleSource)
        ∧ (k ∉ Facts.wordsOf Samples.tallySource))
  ∧ recorded Samples.sweepSource
    = [("sweep", SolidityUtils.VExternal, SolidityUtils.MNonpayable)]
  ∧ Comprehensive.external (Comprehensive.summary (analysed Samples.sweepSource))
    = 1%nat
  ∧ Comprehensive.privilegedFunctionsWithoutAccessControl
      (Comprehensive.security (analysed Samples.sweepSource)) = ["sweep"]
  ∧ recorded Samples.saleSource
    = [("sale", SolidityUtils.VPublic, SolidityUtils.MNonpayable)]
  ∧ Comprehensive.public (Comprehensive.summary (analysed Samples.saleSource))
    = 1%nat
  ∧ recorded Samples.tallySource
    = [("tally", SolidityUtils.VInternal, SolidityUtils.MView)]
  ∧ Comprehensive.view (Comprehensive.summary (analysed Samples.tallySource))
    = 1%nat.
Proof.
  intros recorded analysed. split.
  - intros k Hk.
    assert (Facts.wordsOf Samples.sweepSource
            = ["function"; "sweep"; "externalOnly"; "msg"; "sender";
               "transfer"; "1"]) as -> by (vm_compute; reflexivity).
    assert (Facts.wordsOf Samples.saleSource
            = ["function"; "sale"; "publicSale"]) as ->
      by (vm_compute; reflexivity).
    assert (Facts.wordsOf Samples.tallySource
            = ["function"; "tally"; "viewOnly"]) as ->
      by (vm_compute; reflexivity).
    unfold Facts.keywords in Hk.
    repeat (apply elem_of_cons in Hk as [->|Hk];
            [split_and!; intros Hin;
             repeat (apply elem_of_cons in Hin as [Hin|Hin];
                     [discriminate Hin|]);
             by apply elem_of_nil in Hin|]).
    by apply elem_of_nil in Hk.
  - subst recorded analysed. split_and!; vm_compute; reflexivity.
Qed.

(** ** The recommendation generator *)

Section Recommendations.
Import Comprehensive.

Lemma has_false `{EqDecision A} (set : list A) (x : A) :
  has set x = false ↔ x ∉ set.
Proof. unfold has. apply bool_decide_eq_false. Qed.

Lemma filter_none {A} (P : A → Prop) `{∀ x, Decision (P x)} (l : list A) :
  (∀ x, x ∈ l → ¬ P x) → filter P l = [].
Proof.
  induction l as [|x l IH]; intros Hall; [done|].
  rewrite filter_cons_False by (apply Hall; left).
  apply IH. intros y Hy. apply Hall. by right.
Qed.

Lemma existsb_none {A} (p : A → bool) (l : list A) :
  (∀ x, x ∈ l → p x = false) → existsb p l = false.
Proof.
  induction l as [|x l IH]; intros Hall; [done|]. simpl.
  rewrite (Hall x) by left. apply IH. intros y Hy. apply Hall. by right.
Qed.

Lemma fold_indicatorAdvice_quiet inds acc :
  (∀ ind, ind ∈ inds →
     JS.includes ind "reentrancy" = false
     ∧ JS.includes ind "tx.origin" = false
     ∧ JS.includes ind "delegatecall" = false) →
  fold_left indicatorAdvice inds acc = acc.
Proof.
  revert acc. induction inds as [|ind inds IH]; intros acc Hall; [done|].
  cbn [fold_left]. destruct (Hall ind) as (H1 & H2 & H3); [left|].
  unfold indicatorAdvice. rewrite H1, H2, H3. cbn [pushAll].
  apply IH. intros i Hi. apply Hall. by right.
Qed.

Lemma orElse_eq v d x : orElse v d = x → x ≠ d → v = Some x.
Proof.
  destruct v as [[|c s]|]; simpl; intros <- Hne; done.
Qed.

(** The fallback test sees an empty list when no condition holds. *)
Lemma collectRecommendations_quiet ca kr se :
  Spec.noConditionTriggers ca kr se → collectRecommendations ca kr se = [].
Proof.
  intros (Hrg & Hac & Hind & Hse & Hswc).
  assert (∀ c, Some c ∈ [Some "reentrancy"; Some "flash-loan";
                         Some "oracle-manipulation"; Some "access-control";
                         Some "logic-error"; Some "integer-overflow"] →
               has (JS.setOf (map category se)) (Some c) = false) as Hcat.
  { intros c Hc. apply has_false. rewrite setOf_elem.
    intros (e & Heq & He)%list_elem_of_fmap.
    destruct (Hse e He) as [Hno _]. apply Hno. by rewrite <- Heq. }
  assert (∀ c, Some c ∈ [Some "DeFiHackLabs"; Some "learn-evm-attacks"] →
               c ≠ "unknown" →
               has (JS.setOf (map (fun e => orElse (source e) "unknown") se)) c
               = false) as Hsrc.
  { intros c Hc Hne. apply has_false. rewrite setOf_elem.
    intros (e & Heq & He)%list_elem_of_fmap.
    destruct (Hse e He) as [_ Hno]. apply Hno.
    symmetry in Heq. apply orElse_eq in Heq; [|done]. by rewrite Heq. }
  unfold collectRecommendations. cbv zeta.
  rewrite Hrg, Hac. cbn [negb pushAll].
  rewrite fold_indicatorAdvice_quiet by done.
  rewrite !Hcat by (repeat first [left | right]).
  rewrite !Hsrc by first [done | repeat first [left | right]].
  cbn [pushAll].
  destruct (0 <? length (default [] (kr !! "swc")))%nat; [|done].
  rewrite !filter_none.
  2:{ intros s Hs Hsev. destruct (Hswc s Hs) as [Hno _]. apply Hno.
      unfold hasSeverity in Hsev. apply bool_decide_eq_true in Hsev.
      rewrite Hsev. first [left | right; left]. }
  2:{ intros s Hs Hsev. destruct (Hswc s Hs) as [Hno _]. apply Hno.
      unfold hasSeverity in Hsev. apply bool_decide_eq_true in Hsev.
      rewrite Hsev. first [left | right; left]. }
  cbn [length Nat.ltb Nat.leb pushAll].
  assert (∀ id, id ∈ JS.setOf (map swcCategoryOf (default [] (kr !! "swc"))) →
                JS.includes id "107" = false ∧ JS.includes id "105" = false)
    as Hids.
  { intros id (s & -> & Hs)%setOf_elem%list_elem_of_fmap.
    destruct (Hswc s Hs) as (_ & ? & ?). done. }
  rewrite !existsb_none by (intros id Hid; by apply Hids).
  assert (has (JS.setOf (map swcCategoryOf (default [] (kr !! "swc")))) "SWC-107"
          = false) as ->.
  { apply has_false. intros [H107 _]%Hids. discriminate H107. }
  assert (has (JS.setOf (map swcCategoryOf (default [] (kr !! "swc")))) "SWC-105"
          = false) as ->.
  { apply has_false. intros [_ H105]%Hids. discriminate H105. }
  reflexivity.
Qed.

Lemma generateRecommendations_nonempty ca kr se :
  generateRecommendations ca kr se ≠ [].
Proof.
  unfold generateRecommendations. cbv zeta.
  destruct (collectRecommendations ca kr se) as [|r rs] eqn:Hrs.
  - cbn [length Nat.eqb pushAll app]. by rewrite setOf_singleton.
  - cbn [length Nat.eqb pushAll]. intros Hnil%setOf_nil_inv. done.
Qed.
End Recommendations.

(** C7. The recommendation generator returns a list without duplicate
    strings, the list is never empty, and when no remediation condition
    holds it consists of the fallback message alone. *)
Theorem C7_recommendations_deduplicated_and_nonempty
    (ca : Comprehensive.ContractAnalysis)
    (kr : Comprehensive.KnowledgeResults)
    (se : list Comprehensive.SimilarExploit) :
  NoDup (Comprehensive.generateRecommendations ca kr se)
  ∧ Comprehensive.generateRecommendations ca kr se ≠ []
  ∧ (Spec.noConditionTriggers ca kr se →
       Comprehensive.generateRecommendations ca kr se
       = [Comprehensive.fallbackRecommendation]).
Proof.
  split_and!.
  - apply setOf_NoDup.
  - apply generateRecommendations_nonempty.
  - intros Hquiet. unfold Comprehensive.generateRecommendations. cbv zeta.
    rewrite (collectRecommendations_quiet _ _ _ Hquiet).
    cbn [length Nat.eqb Comprehensive.pushAll app].
    apply setOf_singleton.
Qed.

Lemma quietAnalysis_security :
  Comprehensive.hasReentrancyGuard (Comprehensive.security Samples.quietAnalysis) = true
  ∧ Comprehensive.hasAccessControl (Comprehensive.security Samples.quietAnalysis) = true
  ∧ Comprehensive.indicators (Comprehensive.security Samples.quietAnalysis) = [].
Proof. split_and!; vm_compute; reflexivity. Qed.

(** The quiet sample contract with no knowledge data gets the fallback
    message alone. *)
Lemma C7_recommendations_witness :
  Comprehensive.generateRecommendations Samples.quietAnalysis ∅ []
  = [Comprehensive.fallbackRecommendation].
Proof.
  apply C7_recommendations_deduplicated_and_nonempty.
  destruct quietAnalysis_security as (Hrg & Hac & Hind).
  unfold Spec.noConditionTriggers. rewrite Hind.
  split_and!; [exact Hrg | exact Hac | | |].
  - intros ind Hin. exfalso. eapply not_elem_of_nil, Hin.
  - intros e Hin. exfalso. eapply not_elem_of_nil, Hin.
  - intros s Hin. rewrite lookup_empty in Hin.
    exfalso. eapply not_elem_of_nil, Hin.
Defined.

(** ** The multi-query aggregation *)

Section Aggregation.
Import Comprehensive.
Implicit Types (acc new : list Formatted) (ids : gset string)
               (rows : list Knowledge.QueryResult).

Lemma firstWithId_cons_ne x r rows :
  Knowledge.id r ≠ x →
  Spec.firstWithId x (r :: rows) = Spec.firstWithId x rows.
Proof.
  intros Hne. unfold Spec.firstWithId. simpl.
  destruct (String.eqb_spec (Knowledge.id r) x); done.
Qed.

Lemma firstWithId_cons_eq r rows :
  Spec.firstWithId (Knowledge.id r) (r :: rows) = Some r.
Proof. unfold Spec.firstWithId. simpl. by rewrite String.eqb_refl. Qed.

Lemma firstWithId_none x rows :
  (∀ r, r ∈ rows → Knowledge.id r ≠ x) → Spec.firstWithId x rows = None.
Proof.
  induction rows as [|r rows IH]; intros Hall; [done|].
  rewrite firstWithId_cons_ne by (apply Hall; left).
  apply IH. intros r' Hr'. apply Hall. by right.
Qed.

Lemma firstWithId_app x rows1 rows2 :
  Spec.firstWithId x (rows1 ++ rows2) =
    match Spec.firstWithId x rows1 with
    | Some r => Some r
    | None => Spec.firstWithId x rows2
    end.
Proof.
  unfold Spec.firstWithId.
  induction rows1 as [|r rows1 IH]; simpl; [done|].
  destruct (String.eqb (Knowledge.id r) x); done.
Qed.

Lemma firstWithId_some x rows r :
  Spec.firstWithId x rows = Some r → r ∈ rows ∧ Knowledge.id r = x.
Proof.
  unfold Spec.firstWithId. intros [Hin Heq]%find_some.
  split; [by apply list_elem_of_In | by apply String.eqb_eq].
Qed.

Lemma mergeResult_old acc ids r :
  Knowledge.id r ∈ ids → mergeResult (acc, ids) r = (acc, ids).
Proof. intros Hin. unfold mergeResult. simpl. by rewrite decide_True. Qed.

Lemma mergeResult_new acc ids r :
  Knowledge.id r ∉ ids →
  mergeResult (acc, ids) r
  = (acc ++ [formatResult r], ids ∪ {[Knowledge.id r]}).
Proof. intros Hin. unfold mergeResult. simpl. by rewrite decide_False. Qed.

Lemma mergeCollection_cons r rows st :
  mergeCollection (r :: rows) st = mergeCollection rows (mergeResult st r).
Proof. reflexivity. Qed.

(** What one loop over the rows of a collection does to the array and
    to the set of ids. *)
Lemma mergeCollection_spec rows acc ids :
  ∃ new,
    (mergeCollection rows (acc, ids)).1 = acc ++ new
    ∧ (mergeCollection rows (acc, ids)).2 = ids ∪ list_to_set (map f_id new)
    ∧ NoDup (map f_id new)
    ∧ (∀ e, e ∈ new → f_id e ∉ ids)
    ∧ (∀ e, e ∈ new →
         ∃ r, Spec.firstWithId (f_id e) rows = Some r ∧ e = formatResult r)
    ∧ (∀ r, r ∈ rows → Knowledge.id r ∈ (mergeCollection rows (acc, ids)).2).
Proof.
  revert acc ids. induction rows as [|r rows IH]; intros acc ids.
  - exists []. simpl. rewrite app_nil_r.
    split_and!; [done|set_solver|constructor| | |];
      intros ? Hin; by apply elem_of_nil in Hin.
  - rewrite mergeCollection_cons.
    destruct (decide (Knowledge.id r ∈ ids)) as [Hin|Hnin].
    + rewrite mergeResult_old by done.
      destruct (IH acc ids) as (new & H1 & H2 & Hnd & Hfresh & Hfirst & Hall).
      exists new. split_and!; try done.
      * intros e He. destruct (Hfirst e He) as (r' & Hr' & ->).
        exists r'. split; [|done].
        rewrite firstWithId_cons_ne; [done|].
        intros Heq. apply (Hfresh _ He). simpl in *. by rewrite <- Heq.
      * intros r' [->|Hr']%elem_of_cons; [|by apply Hall].
        rewrite H2. set_solver.
    + rewrite mergeResult_new by done.
      destruct (IH (acc ++ [formatResult r]) (ids ∪ {[Knowledge.id r]}))
        as (new & H1 & H2 & Hnd & Hfresh & Hfirst & Hall).
      exists (formatResult r :: new).
      rewrite H1, H2.
      split_and!.
      * by rewrite <- app_assoc.
      * simpl. set_solver.
      * simpl. apply NoDup_cons. split; [|done].
        intros (e & Heq & He)%list_elem_of_fmap.
        apply (Hfresh _ He). rewrite <- Heq. set_solver.
      * intros e [->|He]%elem_of_cons; [done|].
        intros Hin. apply (Hfresh _ He). set_solver.
      * intros e [->|He]%elem_of_cons.
        -- exists r. split; [|done]. apply firstWithId_cons_eq.
        -- destruct (Hfirst e He) as (r' & Hr' & ->).
           exists r'. split; [|done].
           rewrite firstWithId_cons_ne; [done|].
           intros Heq. apply (Hfresh _ He). simpl. set_solver.
      * intros r' [->|Hr']%elem_of_cons.
        -- set_solver.
        -- rewrite <- H2. by apply Hall.
Qed.

Lemma nodup_extend (iS iE iA nS nE nA : list string) :
  NoDup (iS ++ iE ++ iA) → NoDup nS → NoDup nE → NoDup nA →
  (∀ x, x ∈ nS → x ∉ (list_to_set (iS ++ iE ++ iA) : gset string)) →
  (∀ x, x ∈ nE →
        x ∉ (list_to_set (iS ++ iE ++ iA) : gset string) ∪ list_to_set nS) →
  (∀ x, x ∈ nA →
        x ∉ ((list_to_set (iS ++ iE ++ iA) : gset string) ∪ list_to_set nS)
            ∪ list_to_set nE) →
  NoDup ((iS ++ nS) ++ (iE ++ nE) ++ (iA ++ nA)).
Proof.
  intros Hold HS HE HA FS FE FA.
  rewrite !NoDup_app in *. set_solver.
Qed.

Lemma firstSeen_old pick answers a e :
  Spec.firstSeen pick answers e → Spec.firstSeen pick (answers ++ [a]) e.
Proof.
  intros (r & Hr & ->). exists r. split; [|done].
  rewrite flat_map_app, firstWithId_app, Hr. done.
Qed.

Lemma firstSeen_new pick answers a e r :
  (∀ a' r', a' ∈ answers → r' ∈ pick a' → Knowledge.id r' ≠ f_id e) →
  Spec.firstWithId (f_id e) (pick a) = Some r →
  e = formatResult r →
  Spec.firstSeen pick (answers ++ [a]) e.
Proof.
  intros Hfresh Hr ->. exists r. split; [|done].
  rewrite flat_map_app, firstWithId_app.
  rewrite firstWithId_none.
  - simpl. by rewrite app_nil_r.
  - intros r' (a' & Ha' & Hr')%list_elem_of_In%in_flat_map.
    apply (Hfresh a' r'); by apply list_elem_of_In.
Qed.

(** One turn of the loop over the queries keeps the state. *)
Lemma aggregateStep_aggregated answers agg a :
  Spec.aggregated answers agg →
  Spec.aggregated (answers ++ [a]) (aggregateStep agg a).
Proof.
  intros [Hnd HS HE HA Hseen].
  destruct agg as [S E A]. unfold Spec.allIds in *. simpl in *.
  set (ids0 := existingIdsOf {| allSwcResults := S; allExploitResults := E;
                                allAuditResults := A |}).
  destruct (mergeCollection_spec (Knowledge.swc a) S ids0)
    as (nS & HS1 & HS2 & HSnd & HSfresh & HSfirst & HSall).
  destruct (mergeCollection_spec (Knowledge.exploits a) E
              (mergeCollection (Knowledge.swc a) (S, ids0)).2)
    as (nE & HE1 & HE2 & HEnd & HEfresh & HEfirst & HEall).
  destruct (mergeCollection_spec (Knowledge.auditFindings a) A
              (mergeCollection (Knowledge.exploits a)
                 (E, (mergeCollection (Knowledge.swc a) (S, ids0)).2)).2)
    as (nA & HA1 & HA2 & HAnd & HAfresh & HAfirst & HAall).
  assert (aggregateStep {| allSwcResults := S; allExploitResults := E;
                           allAuditResults := A |} a
          = {| allSwcResults := S ++ nS; allExploitResults := E ++ nE;
               allAuditResults := A ++ nA |}) as ->.
  { unfold aggregateStep. cbv zeta. cbn [allSwcResults allExploitResults
                                           allAuditResults].
    fold ids0. by rewrite HS1, HE1, HA1. }
  rewrite HE2, HS2 in HA2, HAfresh, HAall.
  rewrite HS2 in HE2, HEfresh, HEall.
  rewrite HS2 in HSall. rewrite HE2 in HEall. rewrite HA2 in HAall.
  assert (ids0 = list_to_set (map f_id S ++ map f_id E ++ map f_id A)) as Hids0
    by done.
  clearbody ids0. subst ids0.
  assert (∀ a' r' x, a' ∈ answers →
            r' ∈ Knowledge.swc a' ++ Knowledge.exploits a'
                 ++ Knowledge.auditFindings a' →
            x ∉ (list_to_set (map f_id S ++ map f_id E ++ map f_id A)
                   : gset string) →
            Knowledge.id r' ≠ x) as Hfresh.
  { intros a' r' x Ha' Hr' Hx Heq. subst x. apply Hx.
    apply elem_of_list_to_set. by eapply Hseen. }
  split; unfold Spec.allIds; simpl.
  - rewrite !fmap_app.
    apply nodup_extend; try done.
    + intros x (e & -> & He)%list_elem_of_fmap. by apply HSfresh.
    + intros x (e & -> & He)%list_elem_of_fmap. by apply HEfresh.
    + intros x (e & -> & He)%list_elem_of_fmap. by apply HAfresh.
  - intros e [He|He]%elem_of_app.
    + by apply firstSeen_old, HS.
    + destruct (HSfirst e He) as (r & Hr & ->).
      eapply firstSeen_new; [|done|done].
      intros a' r' Ha' Hr'. eapply Hfresh; [done| |by apply HSfresh].
      clear -Hr'. set_solver.
  - intros e [He|He]%elem_of_app.
    + by apply firstSeen_old, HE.
    + destruct (HEfirst e He) as (r & Hr & ->).
      eapply firstSeen_new; [|done|done].
      intros a' r' Ha' Hr'. eapply Hfresh; [done| |].
      * clear -Hr'. set_solver.
      * specialize (HEfresh _ He). clear -HEfresh. set_solver.
  - intros e [He|He]%elem_of_app.
    + by apply firstSeen_old, HA.
    + destruct (HAfirst e He) as (r & Hr & ->).
      eapply firstSeen_new; [|done|done].
      intros a' r' Ha' Hr'. eapply Hfresh; [done| |].
      * clear -Hr'. set_solver.
      * specialize (HAfresh _ He). clear -HAfresh. set_solver.
  - intros a' r [Ha'|Ha']%elem_of_app Hr.
    + specialize (Hseen a' r Ha' Hr). rewrite !fmap_app.
      clear -Hseen. set_solver.
    + apply list_elem_of_singleton in Ha' as ->.
      rewrite !fmap_app.
      apply elem_of_app in Hr as [Hr|[Hr|Hr]%elem_of_app].
      * specialize (HSall r Hr). clear -HSall. set_solver.
      * specialize (HEall r Hr). clear -HEall. set_solver.
      * specialize (HAall r Hr). clear -HAall. set_solver.
Qed.

Lemma emptyAggregate_aggregated : Spec.aggregated [] emptyAggregate.
Proof.
  split; unfold Spec.allIds; simpl.
  - constructor.
  - intros e He. by apply elem_of_nil in He.
  - intros e He. by apply elem_of_nil in He.
  - intros e He. by apply elem_of_nil in He.
  - intros a r Ha. by apply elem_of_nil in Ha.
Qed.

Lemma fold_aggregateStep_aggregated answers done_ agg :
  Spec.aggregated done_ agg →
  Spec.aggregated (done_ ++ answers) (fold_left aggregateStep answers agg).
Proof.
  revert done_ agg. induction answers as [|a answers IH]; intros done_ agg Hagg.
  - by rewrite app_nil_r.
  - cbn [fold_left]. rewrite (assoc_L (++) done_ [a] answers : done_ ++ a :: answers = (done_ ++ [a]) ++ answers).
    apply IH, aggregateStep_aggregated, Hagg.
Qed.

(** The state after a whole run. *)
Lemma mergeAll_aggregated answers :
  Spec.aggregated answers (Spec.mergeAll answers).
Proof.
  apply (fold_aggregateStep_aggregated answers [] emptyAggregate).
  apply emptyAggregate_aggregated.
Qed.
End Aggregation.

Section AggregationRun.
Import Comprehensive.

Lemma slice0_sublist {A} (e : Z) (xs : list A) : sublist (JS.slice0 e xs) xs.
Proof. unfold JS.slice0. destruct (e <? 0)%Z; apply sublist_take. Qed.

Lemma slice0_length {A} (e : Z) (xs : list A) :
  (0 ≤ e)%Z → (Z.of_nat (length (JS.slice0 e xs)) ≤ e)%Z.
Proof.
  intros He. unfold JS.slice0.
  destruct (Z.ltb_spec e 0) as [Hlt|_]; [lia|].
  rewrite length_take. lia.
Qed.

Lemma slice0_ids_NoDup (e : Z) (xs : list Formatted) :
  NoDup (map f_id xs) → NoDup (map f_id (JS.slice0 e xs)).
Proof.
  intros Hnd.
  assert (sublist (map f_id (JS.slice0 e xs)) (map f_id xs)) as Hsub
    by apply (fmap_sublist f_id), slice0_sublist.
  exact (sublist_NoDup _ _ Hnd Hsub).
Qed.

Lemma slice0_elem {A} (e : Z) (xs : list A) x : x ∈ JS.slice0 e xs → x ∈ xs.
Proof. apply (sublist_subseteq _ _ (slice0_sublist e xs)). Qed.

Lemma aggregateRun_lookup limit answers :
  Spec.aggregateRun limit answers !! "swc"
    = Some (JS.slice0 limit (allSwcResults (Spec.mergeAll answers)))
  ∧ Spec.aggregateRun limit answers !! "exploits"
    = Some (JS.slice0 limit (allExploitResults (Spec.mergeAll answers)))
  ∧ Spec.aggregateRun limit answers !! "auditFindings"
    = Some (JS.slice0 limit (allAuditResults (Spec.mergeAll answers))).
Proof.
  unfold Spec.aggregateRun, truncateAggregate.
  split_and!.
  - by rewrite lookup_insert_eq.
  - rewrite lookup_insert_ne by done. by rewrite lookup_insert_eq.
  - rewrite !lookup_insert_ne by done. by rewrite lookup_insert_eq.
Qed.

Lemma allIds_parts agg :
  NoDup (Spec.allIds agg) →
  NoDup (map f_id (allSwcResults agg))
  ∧ NoDup (map f_id (allExploitResults agg))
  ∧ NoDup (map f_id (allAuditResults agg)).
Proof.
  unfold Spec.allIds. rewrite !NoDup_app. tauto.
Qed.

(** What [searchAll] does against a database that answers. *)
Lemma searchAll_answering rows q n log :
  Knowledge.searchAll (Spec.answering rows) q (Some n) log
  = (Core.Ok (Spec.answerOf rows n q), log ++ Spec.searchProbes n q).
Proof.
  unfold Knowledge.searchAll, Knowledge.bind, Knowledge.promiseAll3,
    Knowledge.findSimilarExploits, Knowledge.findSimilarAuditFindings,
    Knowledge.querySWC, Knowledge.query, Spec.answering. simpl.
  by rewrite <- !app_assoc.
Qed.

Lemma aggregateLoop_answering rows limit queries agg log :
  aggregateLoop (Spec.answering rows) limit queries agg log
  = (Core.Ok (fold_left aggregateStep (map (Spec.answerOf rows limit) queries) agg),
     log ++ flat_map (Spec.searchProbes limit) queries).
Proof.
  revert agg log. induction queries as [|q queries IH]; intros agg log.
  - simpl. unfold Knowledge.ret. by rewrite app_nil_r.
  - cbn [aggregateLoop]. unfold Knowledge.bind.
    rewrite searchAll_answering, IH. cbn [map fold_left flat_map].
    by rewrite <- !app_assoc.
Qed.

(** Against a database that answers, the knowledge stage of the
    orchestrator is an aggregation run over the answers to its queries. *)
Lemma knowledgeStage_answering rows ca o log :
  let queries := buildQueries ca (comprehensiveMode o) in
  let limit := JS.ceilDiv (knowledgeLimit o) (length queries) in
  knowledgeStage (Spec.answering rows) ca o log
  = (Core.Ok (Spec.aggregateRun (knowledgeLimit o)
                (map (Spec.answerOf rows limit) queries)),
     log ++ flat_map (Spec.searchProbes limit) queries).
Proof.
  intros queries limit. unfold knowledgeStage, Knowledge.bind.
  fold queries limit. rewrite aggregateLoop_answering. reflexivity.
Qed.
End AggregationRun.

(** C5. In every aggregation run, whatever the queries returned, the
    merged list of each collection has no two entries with one id, every
    entry is the formatted first row with its id among the rows returned
    for that collection in the order of the queries (whatever the
    distances of later rows), and, for a limit that is a count, no list is
    longer than the limit. *)
Theorem C5_aggregation_unique_first_seen_bounded
    (limit : Z) (answers : list Knowledge.SearchAllResult) :
  ∃ swcs exps audits,
    Spec.aggregateRun limit answers !! "swc" = Some swcs
    ∧ Spec.aggregateRun limit answers !! "exploits" = Some exps
    ∧ Spec.aggregateRun limit answers !! "auditFindings" = Some audits
    ∧ NoDup (map Comprehensive.f_id swcs)
    ∧ NoDup (map Comprehensive.f_id exps)
    ∧ NoDup (map Comprehensive.f_id audits)
    ∧ (∀ e, e ∈ swcs → Spec.firstSeen Knowledge.swc answers e)
    ∧ (∀ e, e ∈ exps → Spec.firstSeen Knowledge.exploits answers e)
    ∧ (∀ e, e ∈ audits → Spec.firstSeen Knowledge.auditFindings answers e)
    ∧ ((0 ≤ limit)%Z →
       (Z.of_nat (length swcs) ≤ limit)%Z
       ∧ (Z.of_nat (length exps) ≤ limit)%Z
       ∧ (Z.of_nat (length audits) ≤ limit)%Z).
Proof.
  destruct (aggregateRun_lookup limit answers) as (Hs & He & Ha).
  destruct (mergeAll_aggregated answers) as [Hnd HS HE HA _].
  destruct (allIds_parts _ Hnd) as (HndS & HndE & HndA).
  eexists _, _, _. split_and!; [exact Hs | exact He | exact Ha | ..].
  - by apply slice0_ids_NoDup.
  - by apply slice0_ids_NoDup.
  - by apply slice0_ids_NoDup.
  - intros e Hin%slice0_elem. by apply HS.
  - intros e Hin%slice0_elem. by apply HE.
  - intros e Hin%slice0_elem. by apply HA.
  - intros Hlimit. split_and!; by apply slice0_length.
Qed.

Lemma repeatedId_run :
  (λ l, (map Comprehensive.f_id l, map Comprehensive.relevance l))
    <$> (Spec.aggregateRun 10 Samples.repeatedIdAnswers !! "exploits")
  = Some (["X"; "Y"], ["60%"; "50%"]).
Proof. vm_compute. reflexivity. Qed.

(** Two queries return the id [X] for the exploits collection, the second
    at a smaller distance: the merged list holds [X] once, with the
    relevance of the first row, and is within the limit of 10. *)
Lemma C5_aggregation_witness :
  ∃ exps,
    Spec.aggregateRun 10 Samples.repeatedIdAnswers !! "exploits" = Some exps
    ∧ map Comprehensive.f_id exps = ["X"; "Y"]
    ∧ map Comprehensive.relevance exps = ["60%"; "50%"]
    ∧ NoDup (map Comprehensive.f_id exps)
    ∧ (Z.of_nat (length exps) ≤ 10)%Z.
Proof.
  destruct (C5_aggregation_unique_first_seen_bounded 10 Samples.repeatedIdAnswers)
    as (s & e & a & Hs & He & Ha & HndS & HndE & HndA & _ & _ & _ & Hlen).
  destruct (Hlen ltac:(lia)) as (_ & HlenE & _).
  pose proof repeatedId_run as Hrun. rewrite He in Hrun.
  injection Hrun as Hids Hrel.
  exists e. split_and!; [exact He | exact Hids | exact Hrel | exact HndE | exact HlenE].
Defined.

(** ** The duplicate test of the aggregation looks at all collections *)

(** The set of ids the duplicate test consults is built from the three
    arrays together, so an id is retained at most once across them. *)
Lemma C2_counterexample :
  ¬ (∀ (answers : list Knowledge.SearchAllResult) (x : string),
       (∃ a r, a ∈ answers ∧ r ∈ Knowledge.swc a ∧ Knowledge.id r = x) →
       (∃ a r, a ∈ answers ∧ r ∈ Knowledge.exploits a ∧ Knowledge.id r = x) →
       x ∈ map Comprehensive.f_id
             (Comprehensive.allSwcResults (Spec.mergeAll answers))
       ∧ x ∈ map Comprehensive.f_id
               (Comprehensive.allExploitResults (Spec.mergeAll answers))).
Proof.
  intros Hclaim.
  destruct (Hclaim [Samples.sharedIdAnswer] "X") as [_ Hex].
  - exists Samples.sharedIdAnswer, (Samples.row "X" "reentrancy" (1 # 4)).
    split_and!; [left | left | reflexivity].
  - exists Samples.sharedIdAnswer, (Samples.row "X" "reentrancy" (1 # 4)).
    split_and!; [left | left | reflexivity].
  - assert (map Comprehensive.f_id
              (Comprehensive.allExploitResults
                 (Spec.mergeAll [Samples.sharedIdAnswer])) = []) as Hnil
      by (vm_compute; reflexivity).
    rewrite Hnil in Hex. by apply elem_of_nil in Hex.
Qed.

(** C2 (amended). A match is discarded as a duplicate when its id is
    already present in the merged list of any of the three collections:
    the ids of the three merged lists are pairwise distinct, and an id
    that the queries returned both for the swc collection and for the
    exploits collection is retained, but not in both lists. *)
Theorem C2_duplicates_across_collections
    (answers : list Knowledge.SearchAllResult) (x : string) :
  (∃ a r, a ∈ answers ∧ r ∈ Knowledge.swc a ∧ Knowledge.id r = x) →
  (∃ a r, a ∈ answers ∧ r ∈ Knowledge.exploits a ∧ Knowledge.id r = x) →
  NoDup (Spec.allIds (Spec.mergeAll answers))
  ∧ x ∈ Spec.allIds (Spec.mergeAll answers)
  ∧ ¬ (x ∈ map Comprehensive.f_id
             (Comprehensive.allSwcResults (Spec.mergeAll answers))
       ∧ x ∈ map Comprehensive.f_id
               (Comprehensive.allExploitResults (Spec.mergeAll answers))).
Proof.
  intros (a & r & Ha & Hr & <-) _.
  destruct (mergeAll_aggregated answers) as [Hnd _ _ _ Hseen].
  split_and!; [done| |].
  - apply (Hseen a r Ha). apply elem_of_app. by left.
  - intros [HinS HinE]. unfold Spec.allIds in Hnd.
    apply NoDup_app in Hnd as (_ & Hdisj & _).
    apply (Hdisj _ HinS). apply elem_of_app. by left.
Qed.

(** The answer that has [X] among its swc rows and among its exploit
    rows: [X] is kept in the swc list only. *)
Lemma C2_duplicates_witness :
  "X" ∈ Spec.allIds (Spec.mergeAll [Samples.sharedIdAnswer])
  ∧ ¬ ("X" ∈ map Comprehensive.f_id
               (Comprehensive.allSwcResults
                  (Spec.mergeAll [Samples.sharedIdAnswer]))
       ∧ "X" ∈ map Comprehensive.f_id
                 (Comprehensive.allExploitResults
                    (Spec.mergeAll [Samples.sharedIdAnswer]))).
Proof.
  destruct (C2_duplicates_across_collections [Samples.sharedIdAnswer] "X")
    as (_ & Hin & Hnot).
  - exists Samples.sharedIdAnswer, (Samples.row "X" "reentrancy" (1 # 4)).
    split_and!; [left | left | reflexivity].
  - exists Samples.sharedIdAnswer, (Samples.row "X" "reentrancy" (1 # 4)).
    split_and!; [left | left | reflexivity].
  - split; [exact Hin | exact Hnot].
Defined.

(** ** The similarity step *)

Section Similarity.
Import Comprehensive.
Implicit Types (rs acc new : list Knowledge.QueryResult).

Lemma uniqueAdd_old acc r :
  Knowledge.id r ∈ map Knowledge.id acc → uniqueAdd acc r = acc.
Proof. intros Hin. unfold uniqueAdd. by rewrite decide_True. Qed.

Lemma uniqueAdd_new acc r :
  Knowledge.id r ∉ map Knowledge.id acc → uniqueAdd acc r = acc ++ [r].
Proof. intros Hin. unfold uniqueAdd. by rewrite decide_False. Qed.

(** The values of the [Map] after the rows [rs] were offered to it. *)
Lemma fold_uniqueAdd_spec rs acc :
  ∃ new,
    fold_left uniqueAdd rs acc = acc ++ new
    ∧ NoDup (map Knowledge.id new)
    ∧ (∀ r, r ∈ new → Knowledge.id r ∉ map Knowledge.id acc)
    ∧ (∀ r, r ∈ new → Spec.firstWithId (Knowledge.id r) rs = Some r).
Proof.
  revert acc. induction rs as [|r rs IH]; intros acc.
  - exists []. simpl. rewrite app_nil_r.
    split_and!; [done|constructor| |]; intros ? Hin; by apply elem_of_nil in Hin.
  - cbn [fold_left].
    destruct (decide (Knowledge.id r ∈ map Knowledge.id acc)) as [Hin|Hnin].
    + rewrite uniqueAdd_old by done.
      destruct (IH acc) as (new & Heq & Hnd & Hfresh & Hfirst).
      exists new. split_and!; try done.
      intros r' Hr'. rewrite firstWithId_cons_ne; [by apply Hfirst|].
      intros Heq'. apply (Hfresh r' Hr'). by rewrite <- Heq'.
    + rewrite uniqueAdd_new by done.
      destruct (IH (acc ++ [r])) as (new & Heq & Hnd & Hfresh & Hfirst).
      exists (r :: new). rewrite Heq, <- app_assoc.
      assert (∀ r', r' ∈ new → Knowledge.id r' ≠ Knowledge.id r
                               ∧ Knowledge.id r' ∉ map Knowledge.id acc) as Hnew.
      { intros r' Hr'. specialize (Hfresh r' Hr').
        rewrite fmap_app, elem_of_app in Hfresh. simpl in Hfresh.
        rewrite list_elem_of_singleton in Hfresh. split; intros ?; apply Hfresh; auto. }
      split_and!; [done| | |].
      * simpl. apply NoDup_cons. split; [|done].
        intros (r' & Heq' & Hr')%list_elem_of_fmap.
        destruct (Hnew r' Hr') as [Hne _]. by apply Hne.
      * intros r' [->|Hr']%elem_of_cons; [done|]. by apply Hnew.
      * intros r' [->|Hr']%elem_of_cons; [apply firstWithId_cons_eq|].
        rewrite firstWithId_cons_ne; [by apply Hfirst|].
        intros Heq'. destruct (Hnew r' Hr') as [Hne _]. by apply Hne.
Qed.

Lemma uniqueById_spec rs :
  NoDup (map Knowledge.id (uniqueById rs))
  ∧ (∀ r, r ∈ uniqueById rs → Spec.firstWithId (Knowledge.id r) rs = Some r).
Proof.
  unfold uniqueById.
  destruct (fold_uniqueAdd_spec rs []) as (new & -> & Hnd & _ & Hfirst).
  done.
Qed.

Lemma projectExploit_ids rs :
  map se_id (map projectExploit rs) = map Knowledge.id rs.
Proof. induction rs as [|r rs IH]; simpl; by f_equal. Qed.

Lemma findSimilarExploits_answering rows q n log :
  Knowledge.findSimilarExploits (Spec.answering rows) q (Some n) None log
  = (Core.Ok (rows (Spec.probeOf Knowledge.EXPLOITS q n)),
     log ++ [Spec.probeOf Knowledge.EXPLOITS q n]).
Proof. reflexivity. Qed.

Lemma probeIndicators_answering rows inds acc log :
  let probes := map (fun ind => Spec.probeOf Knowledge.EXPLOITS ind 3) inds in
  probeIndicators (Spec.answering rows) inds acc log
  = (Core.Ok (acc ++ flat_map rows probes), log ++ probes).
Proof.
  revert acc log. induction inds as [|ind inds IH]; intros acc log; simpl.
  - unfold Knowledge.ret. by rewrite !app_nil_r.
  - unfold Knowledge.bind. rewrite findSimilarExploits_answering.
    simpl in IH. rewrite IH. by rewrite <- !app_assoc.
Qed.

(** The similarity step against a database that answers: the searches
    it makes and what it returns. *)
Lemma similarStage_answering rows content ca o log :
  let probes := Spec.similarProbes content (indicators (security ca)) o in
  similarStage (Spec.answering rows) content ca o log
  = (Core.Ok (map projectExploit
                (JS.slice0 (knowledgeLimit o * 2)
                   (uniqueById (flat_map rows probes)))),
     log ++ probes).
Proof.
  unfold similarStage, Knowledge.bind, Spec.similarProbes,
    Spec.comprehensiveProbes.
  rewrite findSimilarExploits_answering.
  destruct (comprehensiveMode o); cbn [andb].
  - destruct (indicators (security ca)) as [|i inds] eqn:Hinds.
    + simpl. unfold Knowledge.ret. by rewrite !app_nil_r.
    + cbn [length Nat.ltb Nat.leb].
      rewrite probeIndicators_answering. unfold Knowledge.ret.
      cbn [app flat_map]. by rewrite <- !app_assoc.
  - unfold Knowledge.ret. simpl. by rewrite !app_nil_r.
Qed.
End Similarity.

(** With the comprehensive mode off, the only search is the one with the
    source text, and its capacity is the limit itself. *)
Lemma C6_counterexample :
  ¬ (∀ (rows : Knowledge.Probe → list Knowledge.QueryResult) (content : string)
       (ca : Comprehensive.ContractAnalysis) (o : Comprehensive.Options),
       (Comprehensive.similarStage (Spec.answering rows) content ca o []).2
       = Spec.comprehensiveProbes content
           (Comprehensive.indicators (Comprehensive.security ca))
           (Comprehensive.knowledgeLimit o)).
Proof.
  intros Hclaim.
  specialize (Hclaim Samples.noRows Samples.vaultSource Samples.vaultAnalysis
                Samples.plainOptions).
  rewrite similarStage_answering in Hclaim.
  unfold Spec.similarProbes, Spec.comprehensiveProbes in Hclaim.
  cbn [snd app Samples.plainOptions Comprehensive.comprehensiveMode
       Comprehensive.knowledgeLimit] in Hclaim.
  apply (f_equal (fun l => Knowledge.nResults <$> head l)) in Hclaim.
  cbn [head fmap option_fmap option_map Knowledge.nResults Spec.probeOf]
    in Hclaim.
  discriminate Hclaim.
Qed.

(** C6 (amended). The similarity step searches the exploits collection
    only.  In the comprehensive mode it searches (a) with the source text
    and capacity twice the limit and (b) with each of the first three
    indicators and capacity 3; with the comprehensive mode off it searches
    with the source text alone, with the limit as capacity.  In both
    modes the rows found are deduplicated by id, the first occurrence in
    the order of the searches winning, each retained row is projected to
    the display shape, and, for a limit that is a count, at most twice the
    limit entries are returned. *)
Theorem C6_similarity_probes_and_dedup
    (rows : Knowledge.Probe → list Knowledge.QueryResult) (content : string)
    (ca : Comprehensive.ContractAnalysis) (o : Comprehensive.Options)
    (log : list Knowledge.Probe) :
  let limit := Comprehensive.knowledgeLimit o in
  let inds := Comprehensive.indicators (Comprehensive.security ca) in
  let probes := Spec.similarProbes content inds o in
  let found := flat_map rows probes in
  ∃ result,
    Comprehensive.similarStage (Spec.answering rows) content ca o log
    = (Core.Ok result, log ++ probes)
    ∧ (Comprehensive.comprehensiveMode o = true →
       probes = Spec.probeOf Knowledge.EXPLOITS content (limit * 2)
                :: map (fun ind => Spec.probeOf Knowledge.EXPLOITS ind 3)
                       (firstn 3 inds))
    ∧ (Comprehensive.comprehensiveMode o = false →
       probes = [Spec.probeOf Knowledge.EXPLOITS content limit])
    ∧ NoDup (map Comprehensive.se_id result)
    ∧ (∀ e, e ∈ result →
         ∃ r, Spec.firstWithId (Comprehensive.se_id e) found = Some r
              ∧ e = Comprehensive.projectExploit r)
    ∧ ((0 ≤ limit)%Z → (Z.of_nat (length result) ≤ limit * 2)%Z).
Proof.
  intros limit inds probes found.
  eexists. split; [apply similarStage_answering|].
  fold inds probes found limit.
  destruct (uniqueById_spec found) as [Hnd Hfirst].
  split_and!.
  - intros Hmode. subst probes. unfold Spec.similarProbes. by rewrite Hmode.
  - intros Hmode. subst probes. unfold Spec.similarProbes. by rewrite Hmode.
  - rewrite projectExploit_ids.
    assert (sublist (map Knowledge.id
                       (JS.slice0 (limit * 2) (Comprehensive.uniqueById found)))
                    (map Knowledge.id (Comprehensive.uniqueById found))) as Hsub
      by apply (fmap_sublist Knowledge.id), slice0_sublist.
    exact (sublist_NoDup _ _ Hnd Hsub).
  - intros e (r & -> & Hr)%list_elem_of_fmap.
    apply slice0_elem in Hr. exists r. split; [|done]. by apply Hfirst.
  - intros Hlimit. rewrite length_map. apply slice0_length. lia.
Qed.

Lemma vault_similar_ids :
  (λ r, map Comprehensive.se_id r)
    <$> match (Comprehensive.similarStage (Spec.answering Samples.twoExploits)
                 Samples.vaultSource Samples.vaultAnalysis
                 Comprehensive.defaultOptions []).1 with
        | Core.Ok r => Some r
        | Core.Throw _ => None
        end
  = Some ["dao"; "parity"].
Proof. vm_compute. reflexivity. Qed.

(** The vault in the comprehensive mode, against a knowledge base that
    returns the same two exploits to every search: four searches are made,
    and each exploit is listed once. *)
Lemma C6_similarity_witness :
  ∃ result,
    Comprehensive.similarStage (Spec.answering Samples.twoExploits)
      Samples.vaultSource Samples.vaultAnalysis Comprehensive.defaultOptions []
    = (Core.Ok result,
       Spec.probeOf Knowledge.EXPLOITS Samples.vaultSource 20
       :: map (fun ind => Spec.probeOf Knowledge.EXPLOITS ind 3)
              (firstn 3 (Comprehensive.indicators
                           (Comprehensive.security Samples.vaultAnalysis))))
    ∧ map Comprehensive.se_id result = ["dao"; "parity"]
    ∧ NoDup (map Comprehensive.se_id result)
    ∧ (Z.of_nat (length result) ≤ 20)%Z.
Proof.
  destruct (C6_similarity_probes_and_dedup Samples.twoExploits
              Samples.vaultSource Samples.vaultAnalysis
              Comprehensive.defaultOptions [])
    as (result & Hrun & Hprobes & _ & Hnd & _ & Hlen).
  exists result.
  pose proof vault_similar_ids as Hids. rewrite Hrun in Hids.
  cbn [fst fmap option_fmap option_map] in Hids. injection Hids as Hids.
  split_and!; [|exact Hids|exact Hnd|apply Hlen; cbn; lia].
  rewrite Hrun. rewrite (Hprobes eq_refl). reflexivity.
Defined.

(** ** An unreachable knowledge base *)

Section Degradation.
Import Comprehensive.

Lemma buildQueries_cons ca mode : ∃ q qs, buildQueries ca mode = q :: qs.
Proof. unfold buildQueries. destruct mode; simpl; eauto. Qed.

Lemma searchAll_raises db q n log :
  Spec.alwaysRaises db →
  ∃ e log', Knowledge.searchAll db q (Some n) log = (Core.Throw e, log').
Proof.
  intros Hdb.
  unfold Knowledge.searchAll, Knowledge.bind, Knowledge.promiseAll3,
    Knowledge.findSimilarExploits, Knowledge.findSimilarAuditFindings,
    Knowledge.querySWC, Knowledge.query. cbn.
  destruct (Hdb (Spec.probeOf Knowledge.EXPLOITS q n)) as [e He].
  unfold Spec.probeOf in He. rewrite He. eauto.
Qed.

Lemma knowledgeStage_raises db ca o log :
  Spec.alwaysRaises db →
  ∃ e log', knowledgeStage db ca o log = (Core.Throw e, log').
Proof.
  intros Hdb. unfold knowledgeStage.
  destruct (buildQueries_cons ca (comprehensiveMode o)) as (q & qs & ->).
  cbn [aggregateLoop]. unfold Knowledge.bind at 1 2.
  destruct (searchAll_raises db q
              (JS.ceilDiv (knowledgeLimit o) (length (q :: qs))) log Hdb)
    as (e & log' & ->).
  eauto.
Qed.

Lemma readFile_ok w p content :
  readFile w p = Core.Ok content →
  fs_exists (fsys w) p = true
  ∧ (fs_size (fsys w) p ≤ Core.maxFileSize (config w))%nat
  ∧ content = fs_content (fsys w) p.
Proof.
  unfold readFile. destruct (fs_exists (fsys w) p); [|done]. cbn [negb].
  destruct (Nat.ltb_spec (Core.maxFileSize (config w)) (fs_size (fsys w) p));
    [done|]. intros [= <-]. split_and!; [done|lia|done].
Qed.

Lemma getFileInfo_ok w p content :
  readFile w p = Core.Ok content →
  getFileInfo w p
  = Core.Ok {| path := p; fname := basename (fsys w) p;
          size := fs_size (fsys w) p; lines := JS.countLines content |}.
Proof. intros Hread. unfold getFileInfo. by rewrite Hread. Qed.

Lemma analysis_unreadable w p o log e :
  readFile w p = Core.Throw e → analysis w p o log = (Core.Throw e, log).
Proof.
  intros Hread. unfold analysis, Knowledge.bind, lift. by rewrite Hread.
Qed.

(** A search whose first call raises ends with the error of that call,
    after all three calls were issued. *)
Lemma searchAll_first_raises db q n log e :
  db (Spec.probeOf Knowledge.EXPLOITS q n) = Core.Throw e →
  Knowledge.searchAll db q (Some n) log
  = (Core.Throw e, log ++ Spec.searchProbes n q).
Proof.
  intros He.
  unfold Knowledge.searchAll, Knowledge.bind, Knowledge.promiseAll3,
    Knowledge.findSimilarExploits, Knowledge.findSimilarAuditFindings,
    Knowledge.querySWC, Knowledge.query.
  cbn [default from_option id Knowledge.whereOf].
  change {| Knowledge.collection := Knowledge.EXPLOITS; Knowledge.queryText := q;
            Knowledge.nResults := n; Knowledge.whereEq := None |}
    with (Spec.probeOf Knowledge.EXPLOITS q n).
  change {| Knowledge.collection := Knowledge.AUDIT_FINDINGS; Knowledge.queryText := q;
            Knowledge.nResults := n; Knowledge.whereEq := None |}
    with (Spec.probeOf Knowledge.AUDIT_FINDINGS q n).
  change {| Knowledge.collection := Knowledge.SWC; Knowledge.queryText := q;
            Knowledge.nResults := n; Knowledge.whereEq := None |}
    with (Spec.probeOf Knowledge.SWC q n).
  rewrite He. unfold Spec.searchProbes.
  destruct (db (Spec.probeOf Knowledge.AUDIT_FINDINGS q n)),
    (db (Spec.probeOf Knowledge.SWC q n));
    cbn [fst snd]; by rewrite <- !app_assoc.
Qed.

(** The knowledge stage stops at its first query when the first call of
    that query raises. *)
Lemma knowledgeStage_first_raises db ca o log q qs e :
  buildQueries ca (comprehensiveMode o) = q :: qs →
  db (Spec.probeOf Knowledge.EXPLOITS q
        (JS.ceilDiv (knowledgeLimit o) (length (q :: qs)))) = Core.Throw e →
  knowledgeStage db ca o log
  = (Core.Throw e,
     log ++ Spec.searchProbes
              (JS.ceilDiv (knowledgeLimit o) (length (q :: qs))) q).
Proof.
  intros Hq He. unfold knowledgeStage. rewrite Hq.
  cbn [aggregateLoop]. unfold Knowledge.bind.
  by rewrite (searchAll_first_raises _ _ _ _ _ He).
Qed.

(** The handler of a readable file, knowledge base enabled, when the
    first call to the database raises. *)
Lemma handler_first_raises w p o content q qs e :
  includeKnowledgeBase o = true →
  readFile w p = Core.Ok content →
  let info := {| path := p; fname := basename (fsys w) p;
                 size := fs_size (fsys w) p;
                 lines := JS.countLines content |} in
  let capacity := JS.ceilDiv (knowledgeLimit o) (length (q :: qs)) in
  buildQueries (analyzeContent info content) (comprehensiveMode o) = q :: qs →
  vectorDb w (Spec.probeOf Knowledge.EXPLOITS q capacity) = Core.Throw e →
  handler w p o
  = (errorResponse "Analysis failed" [("error", Core.errorString e)],
     Spec.searchProbes capacity q).
Proof.
  intros Hkb Hread info capacity Hq He.
  destruct (readFile_ok w p content Hread) as (Hex & _ & _).
  unfold handler, analysis, Knowledge.bind, lift.
  rewrite Hex, Hread, (getFileInfo_ok w p content Hread), Hkb. cbn [negb].
  fold info.
  by rewrite (knowledgeStage_first_raises _ _ _ [] _ _ _ Hq He).
Qed.

(** With the knowledge base enabled and unreachable, the body of the
    handler ends in a throw. *)
Lemma analysis_raises w p o log :
  Spec.alwaysRaises (vectorDb w) → includeKnowledgeBase o = true →
  ∃ e log', analysis w p o log = (Core.Throw e, log').
Proof.
  intros Hdb Hkb. unfold analysis, Knowledge.bind, lift. rewrite Hkb.
  destruct (readFile w p) as [content|e]; [|eauto].
  destruct (getFileInfo w p) as [info|e]; [|eauto].
  destruct (knowledgeStage_raises (vectorDb w) (analyzeContent info content)
              o log Hdb) as (e & log' & ->).
  eauto.
Qed.

(** With the knowledge base disabled, a readable file is analysed
    without a call to the database. *)
Lemma analysis_without_knowledge w p o content log :
  includeKnowledgeBase o = false → readFile w p = Core.Ok content →
  ∃ info report,
    getFileInfo w p = Core.Ok info
    ∧ analysis w p o log = (Core.Ok report, log)
    ∧ knowledgeBase report = None
    ∧ riskAssessment report = assessRisk (analyzeContent info content) ∅ []
    ∧ recommendations report
      = generateRecommendations (analyzeContent info content) ∅ [].
Proof.
  intros Hkb Hread.
  assert (∃ info, getFileInfo w p = Core.Ok info) as [info Hinfo].
  { unfold getFileInfo. rewrite Hread. eauto. }
  exists info. eexists. split; [exact Hinfo|].
  unfold analysis, Knowledge.bind, lift, Knowledge.ret.
  rewrite Hread, Hinfo, Hkb. cbn [andb].
  split_and!; reflexivity.
Qed.
End Degradation.

(** When the knowledge base raises on every call, the analysis of the
    vault with the default options ends in an error response. *)
Lemma C1_counterexample :
  ¬ (∀ (w : Comprehensive.World) (p : string) (o : Comprehensive.Options)
       (content : string),
       Spec.alwaysRaises (Comprehensive.vectorDb w) →
       Comprehensive.includeKnowledgeBase o = true →
       Comprehensive.fs_exists (Comprehensive.fsys w) p = true →
       Comprehensive.readFile w p = Core.Ok content →
       ∃ report, Comprehensive.analyze w p o = Comprehensive.jsonResponse report).
Proof.
  intros Hclaim.
  destruct (Hclaim Samples.offlineWorld "Vault.sol" Comprehensive.defaultOptions
              Samples.vaultSource) as [report Hreport].
  - intros probe. eexists. reflexivity.
  - reflexivity.
  - reflexivity.
  - reflexivity.
  - destruct (analysis_raises Samples.offlineWorld "Vault.sol"
                Comprehensive.defaultOptions [])
      as (e & log' & Hraise).
    + intros probe. eexists. reflexivity.
    + reflexivity.
    + unfold Comprehensive.analyze, Comprehensive.handler in Hreport.
      rewrite Hraise in Hreport.
      cbn [Comprehensive.fs_exists Comprehensive.fsys Samples.offlineWorld
           Samples.vaultDisk String.eqb Ascii.eqb Bool.eqb negb fst] in Hreport.
      apply (f_equal Comprehensive.isError) in Hreport.
      discriminate Hreport.
Qed.

(** C1 (amended). When every query to the knowledge base raises and the
    knowledge base is enabled, [analyze] returns an error response and no
    report.  For a readable file it is the response [Analysis failed]
    with the text of the error that the database raised on one of the
    three calls of the first query, and these three calls are the only
    ones issued.  For a file that
    cannot be read it is the response of the file error, and the database
    is not called.  The report whose risk assessment and recommendations
    come from the heuristic scan alone, with no knowledge data, is
    returned when the knowledge base is disabled, and then no query is
    issued. *)
Theorem C1_unreachable_knowledge_base
    (w : Comprehensive.World) (p : string) (o : Comprehensive.Options) :
  Spec.alwaysRaises (Comprehensive.vectorDb w) →
  (Comprehensive.includeKnowledgeBase o = true →
     Comprehensive.isError (Comprehensive.analyze w p o) = true
     ∧ (∀ report, Comprehensive.analyze w p o ≠ Comprehensive.jsonResponse report)
     ∧ (Comprehensive.fs_exists (Comprehensive.fsys w) p = true →
        ∃ e, Comprehensive.analyze w p o
             = Comprehensive.errorResponse "Analysis failed"
                 [("error", Core.errorString e)])
     ∧ (∀ content, Comprehensive.readFile w p = Core.Ok content →
        let fs := Comprehensive.fsys w in
        let info :=
          {| Comprehensive.path := p;
             Comprehensive.fname := Comprehensive.basename fs p;
             Comprehensive.size := Comprehensive.fs_size fs p;
             Comprehensive.lines := JS.countLines content |} in
        let queries :=
          Comprehensive.buildQueries
            (Comprehensive.analyzeContent info content)
            (Comprehensive.comprehensiveMode o) in
        let capacity :=
          JS.ceilDiv (Comprehensive.knowledgeLimit o) (length queries) in
        ∃ q call e,
          head queries = Some q
          ∧ call ∈ Spec.searchProbes capacity q
          ∧ Comprehensive.vectorDb w call = Core.Throw e
          ∧ Comprehensive.handler w p o
            = (Comprehensive.errorResponse "Analysis failed"
                 [("error", Core.errorString e)],
               Spec.searchProbes capacity q))
     ∧ (∀ e, Comprehensive.readFile w p = Core.Throw e →
        Comprehensive.fs_exists (Comprehensive.fsys w) p = true →
        Comprehensive.handler w p o
        = (Comprehensive.errorResponse "Analysis failed"
             [("error", Core.errorString e)], []))
     ∧ (Comprehensive.fs_exists (Comprehensive.fsys w) p = false →
        Comprehensive.handler w p o
        = (Comprehensive.errorResponse "File not found" [("path", p)], [])))
  ∧ (Comprehensive.includeKnowledgeBase o = false →
     ∀ content, Comprehensive.readFile w p = Core.Ok content →
     ∃ info report,
       Comprehensive.getFileInfo w p = Core.Ok info
       ∧ Comprehensive.handler w p o = (Comprehensive.jsonResponse report, [])
       ∧ Comprehensive.analyze w p o = Comprehensive.jsonResponse report
       ∧ Comprehensive.knowledgeBase report = None
       ∧ Comprehensive.riskAssessment report
         = Comprehensive.assessRisk
             (Comprehensive.analyzeContent info content) ∅ []
       ∧ Comprehensive.recommendations report
         = Comprehensive.generateRecommendations
             (Comprehensive.analyzeContent info content) ∅ []).
Proof.
  intros Hdb. split.
  - intros Hkb.
    destruct (analysis_raises w p o [] Hdb Hkb) as (e & log' & Hraise).
    split_and!.
    + unfold Comprehensive.analyze, Comprehensive.handler. rewrite Hraise.
      by destruct (Comprehensive.fs_exists (Comprehensive.fsys w) p).
    + intros report. unfold Comprehensive.analyze, Comprehensive.handler.
      rewrite Hraise.
      by destruct (Comprehensive.fs_exists (Comprehensive.fsys w) p).
    + intros Hex. exists e.
      unfold Comprehensive.analyze, Comprehensive.handler.
      by rewrite Hraise, Hex.
    + intros content Hread fs info queries capacity.
      destruct (buildQueries_cons (Comprehensive.analyzeContent info content)
                  (Comprehensive.comprehensiveMode o)) as (q & qs & Hq).
      destruct (Hdb (Spec.probeOf Knowledge.EXPLOITS q capacity)) as [e1 He1].
      exists q, (Spec.probeOf Knowledge.EXPLOITS q capacity), e1.
      subst capacity queries. rewrite Hq in *.
      split_and!; [done|apply list_elem_of_here|done|].
      by apply (handler_first_raises w p o content q qs e1).
    + intros e' Hread Hex. unfold Comprehensive.handler.
      by rewrite Hex, (analysis_unreadable w p o [] e' Hread).
    + intros Hex. unfold Comprehensive.handler. by rewrite Hex.
  - intros Hkb content Hread.
    destruct (analysis_without_knowledge w p o content [] Hkb Hread)
      as (info & report & Hinfo & Hrun & Hnone & Hrisk & Hrecs).
    destruct (readFile_ok w p content Hread) as (Hex & _ & _).
    assert (Comprehensive.handler w p o
            = (Comprehensive.jsonResponse report, [])) as Hhandler.
    { unfold Comprehensive.handler. by rewrite Hex, Hrun. }
    exists info, report. split_and!; try done.
    unfold Comprehensive.analyze. by rewrite Hhandler.
Qed.

(** The vault against the unreachable knowledge base: the default call
    fails with the text of the connection error, after the three calls
    of the first query. *)
Lemma C1_unreachable_witness :
  Comprehensive.analyze Samples.offlineWorld "Vault.sol"
    Comprehensive.defaultOptions
  = Comprehensive.errorResponse "Analysis failed"
      [("error", "Error: connect ECONNREFUSED 127.0.0.1:8000")]
  ∧ length (Comprehensive.handler Samples.offlineWorld "Vault.sol"
              Comprehensive.defaultOptions).2 = 3%nat.
Proof.
  assert (Spec.alwaysRaises (Comprehensive.vectorDb Samples.offlineWorld))
    as Hdb by (intros probe; eexists; reflexivity).
  destruct (C1_unreachable_knowledge_base Samples.offlineWorld "Vault.sol"
              Comprehensive.defaultOptions Hdb) as [Hon _].
  destruct (Hon eq_refl) as (_ & _ & _ & Hfirst & _).
  destruct (Hfirst Samples.vaultSource eq_refl)
    as (q & call & e & _ & _ & Hcall & Hrun).
  change (@Core.Throw (list Knowledge.QueryResult)
            (Core.OtherError "connect ECONNREFUSED 127.0.0.1:8000")
          = Core.Throw e) in Hcall.
  injection Hcall as <-.
  unfold Comprehensive.analyze. rewrite Hrun. split; reflexivity.
Defined.

(** ** The indicator scan *)

Section Scan.
Import SolidityUtils.

(** Running a table of checks: each check that holds appends its
    indicator. *)
Lemma fold_pushIf (rules : list ((string → bool) * string)) src acc :
  fold_left (fun acc r => pushIf (r.1 src) r.2 acc) rules acc
  = acc ++ map snd (filter (fun r => r.1 src = true) rules).
Proof.
  revert acc. induction rules as [|[c msg] rules IH]; intros acc.
  - simpl. by rewrite app_nil_r.
  - cbn [fold_left fst snd]. rewrite IH. unfold pushIf.
    destruct (c src) eqn:Hc.
    + rewrite filter_cons_True by done. simpl. by rewrite <- app_assoc.
    + rewrite filter_cons_False by (simpl; congruence). done.
Qed.

Lemma scan_runs_rules src :
  checkVulnerabilityIndicators src
  = fold_left (fun acc r => pushIf (r.1 src) r.2 acc) Spec.indicatorRules [].
Proof. reflexivity. Qed.
End Scan.

(** ** The scan and the state of the regular expressions *)

Section Purity.
Import Core Regex Runtime.

Lemma returns_ret {A} (a : A) : returns (ret a) a.
Proof. intros h. exists []. by rewrite app_nil_r. Qed.

Lemma returns_bind {A B} (m : JSM A) (f : A → JSM B) v w :
  returns m v → returns (f v) w → returns (bind m f) w.
Proof.
  intros Hm Hf h. destruct (Hm h) as [h1 H1].
  destruct (Hf (h ++ h1)) as [h2 H2].
  exists (h1 ++ h2). unfold bind. by rewrite H1, H2, app_assoc.
Qed.

Lemma returns_andM (a b : JSM bool) x y :
  returns a x → returns b y → returns (andM a b) (x && y).
Proof.
  intros Ha Hb. apply (returns_bind a _ x); [done|].
  destruct x; [done|apply returns_ret].
Qed.

Lemma returns_notM (a : JSM bool) x : returns a x → returns (notM a) (negb x).
Proof. intros Ha. apply (returns_bind a _ x); [done|apply returns_ret]. Qed.

Lemma returns_pushWhen (c : JSM bool) b msg indicators :
  returns c b →
  returns (pushWhen c msg indicators) (SolidityUtils.pushIf b msg indicators).
Proof. intros Hc. apply (returns_bind c _ b); [done|apply returns_ret]. Qed.

Lemma fresh_lookup (h : Heap) (o : RegExpObject) : (h ++ [o]) !! length h = Some o.
Proof. by apply list_lookup_middle. Qed.

Lemma fresh_insert (h : Heap) (o o' : RegExpObject) :
  <[length h := o']> (h ++ [o]) = h ++ [o'].
Proof.
  replace (length h) with (length h + 0)%nat by lia.
  by rewrite insert_app_r.
Qed.

(** A match against a literal without the [g] flag is the test of the
    pattern. *)
Lemma returns_matches s fl r : returns (matches s fl r) (test fl r s).
Proof.
  intros h. eexists [_]. unfold matches, bind, regexLiteral, stringMatch, ret.
  rewrite fresh_lookup. cbn [global pattern reFlags].
  unfold test. destruct (exec fl r s) as [m|]; cbn [fmap option_fmap option_map truthy].
  - by rewrite bool_decide_eq_true_2 by eauto.
  - rewrite bool_decide_eq_false_2; [done|]. by intros [? ?].
Qed.

(** A match against a literal with the [g] flag, made an array, holds
    the texts of all matches. *)
Lemma returns_matchesOrEmpty s fl r :
  returns (matchesOrEmpty s fl r) (map Some (map matched (matchAll fl r s))).
Proof.
  intros h. eexists [_].
  unfold matchesOrEmpty, bind, regexLiteral, stringMatch, ret.
  rewrite fresh_lookup. cbn [global pattern reFlags].
  rewrite fresh_insert. f_equal. f_equal.
  by destruct (matchAll fl r s).
Qed.

Lemma returns_some (f : string → bool) (l : list string) :
  returns (some f (map Some l)) (existsb f l).
Proof.
  induction l as [|p l IH]; [apply returns_ret|].
  cbn [map some existsb]. destruct (f p); [apply returns_ret|exact IH].
Qed.

Ltac runs :=
  repeat (cbv beta;
          first [ apply returns_ret
                | apply returns_pushWhen
                | apply returns_andM
                | apply returns_notM
                | apply returns_matches
                | apply returns_matchesOrEmpty
                | apply returns_some
                | eapply returns_bind ]).

(** The scan with its effects returns, from every heap, the list that
    the checks of the text determine. *)
Lemma scan_returns src :
  returns (Runtime.checkVulnerabilityIndicators src)
          (SolidityUtils.checkVulnerabilityIndicators src).
Proof.
  assert (∃ v, returns (Runtime.checkVulnerabilityIndicators src) v
               ∧ v = SolidityUtils.checkVulnerabilityIndicators src)
    as (v & Hv & <-); [|done].
  eexists. split.
  - unfold Runtime.checkVulnerabilityIndicators. cbv zeta. runs.
  - unfold SolidityUtils.checkVulnerabilityIndicators.
    rewrite !length_map. reflexivity.
Qed.
(** A computation that matches against an object it did not create has
    no such property: from the empty heap it raises. *)
Lemma foreign_object_raises (s : string) (v : option Runtime.JSArray) :
  ¬ Runtime.returns (Runtime.stringMatch s 0) v.
Proof. intros Hret. destruct (Hret []) as [h' Hrun]. discriminate Hrun. Qed.
End Purity.

(** C8. The indicator scan is a pure and total function of the source
    text.  Run with its effects from any state of the regular expression
    objects, it returns without raising, and the list it returns is the
    same for every state: two calls on one text, also one after the
    other, return the identical list in the identical order, and the
    objects that existed before a call are left as they were.  The list
    holds the indicators of the checks that hold for the text, in the
    fixed order of the checks; it is empty when no check holds, in
    particular for the empty text. *)
Theorem C8_scan_is_a_function_of_the_text (src : string) :
  let scan := Runtime.checkVulnerabilityIndicators in
  let found := SolidityUtils.checkVulnerabilityIndicators src in
  (∀ h, ∃ h', scan src h = (Core.Ok found, h ++ h'))
  ∧ (∀ h1 h2, (scan src h1).1 = (scan src h2).1)
  ∧ (∀ h, (scan src (scan src h).2).1 = (scan src h).1)
  ∧ found = map snd (filter (fun r => r.1 src = true) Spec.indicatorRules)
  ∧ sublist found (map snd Spec.indicatorRules)
  ∧ ((∀ r, r ∈ Spec.indicatorRules → r.1 src = false) →
     ∀ h, (scan src h).1 = Core.Ok [])
  ∧ (∀ h, (scan "" h).1 = Core.Ok []).
Proof.
  intros scan found.
  assert (∀ text h, (scan text h).1
                    = Core.Ok (SolidityUtils.checkVulnerabilityIndicators text))
    as Hvalue.
  { intros text h. destruct (scan_returns text h) as [h' Hrun].
    subst scan. by rewrite Hrun. }
  assert (found = map snd (filter (fun r => r.1 src = true) Spec.indicatorRules))
    as Hrules.
  { subst found. rewrite scan_runs_rules, fold_pushIf. reflexivity. }
  split_and!.
  - apply scan_returns.
  - intros h1 h2. by rewrite !Hvalue.
  - intros h. by rewrite !Hvalue.
  - exact Hrules.
  - rewrite Hrules. apply (fmap_sublist snd), sublist_filter.
  - intros Hnone h. rewrite Hvalue. fold found. rewrite Hrules.
    rewrite filter_none; [done|].
    intros r Hr Hfires. rewrite (Hnone r Hr) in Hfires. discriminate.
  - intros h. rewrite Hvalue. vm_compute. reflexivity.
Qed.

(** ** Soundness of the matcher *)

Section Matcher.
Import Regex RegexSem.

Lemma string_app_cons (c : ascii) (a b : string) :
  String c a +:+ b = String c (a +:+ b).
Proof. reflexivity. Qed.

Lemma string_app_nil_r (s : string) : s +:+ "" = s.
Proof. induction s as [|c s IH]; [done|]. rewrite string_app_cons. by f_equal. Qed.

Lemma string_app_assoc (a b c : string) : (a +:+ b) +:+ c = a +:+ (b +:+ c).
Proof.
  induction a as [|x a IH]; [done|]. rewrite !string_app_cons. by f_equal.
Qed.

Lemma string_app_length (a b : string) :
  String.length (a +:+ b) = (String.length a + String.length b)%nat.
Proof.
  induction a as [|x a IH]; [done|]. rewrite string_app_cons. simpl.
  by f_equal.
Qed.

Lemma take_app_length (w s : string) : JS.take (String.length w) (w +:+ s) = w.
Proof.
  induction w as [|c w IH]; [done|]. rewrite string_app_cons. simpl.
  by f_equal.
Qed.

Lemma consumes_refl st : consumes st st "".
Proof. split; simpl; [done|lia]. Qed.

Lemma consumes_trans st st1 st2 w1 w2 :
  consumes st st1 w1 → consumes st1 st2 w2 → consumes st st2 (w1 +:+ w2).
Proof.
  intros [Hr1 Hp1] [Hr2 Hp2]. split.
  - rewrite Hr1, Hr2. by rewrite string_app_assoc.
  - rewrite Hp2, Hp1, string_app_length. lia.
Qed.

(** What a successful run of the matcher means: the continuation was
    entered in a state reached by consuming a word of the pattern, with
    captures that are words of the groups. *)
Definition sound (fl : flags) (r : regex) : Prop :=
  ∀ st k res,
    run fl r st k = Some res →
    ∃ st1 w, consumes st st1 w ∧ lang fl r w ∧ capturesFrom fl r st st1
             ∧ k st1 = Some res.

Lemma eat_sound fl r (p : ascii → bool) :
  (∀ st k, run fl r st k = eat p st k) →
  (∀ a, p a = true → lang fl r (String a "")) →
  (∀ n v, ¬ groupLang fl r n v) →
  sound fl r.
Proof.
  intros Hrun Hlang Hgroups st k res. rewrite Hrun. unfold eat.
  destruct (rest st) as [|c s'] eqn:Hrest; [done|].
  destruct (p c) eqn:Hp; [|done]. intros Hk.
  eexists _, (String c ""). split_and!; [|by apply Hlang| |exact Hk].
  - split; simpl; [done|lia].
  - intros n v Hv. by left.
Qed.

Lemma capturesFrom_refl fl r st : capturesFrom fl r st st.
Proof. intros n v Hv. by left. Qed.

Lemma run_sound fl r : sound fl r.
Proof.
  induction r as [|c| | | | |cs|cs|r1 IH1 r2 IH2|r1 IH1 r2 IH2|r1 IH1|m r1 IH1| |].
  - intros st k res Hk. exists st, "".
    split_and!; [apply consumes_refl|constructor|apply capturesFrom_refl|done].
  - eapply eat_sound; [intros; reflexivity| |intros n v []]. intros a Ha. by constructor.
  - eapply eat_sound; [intros; reflexivity| |intros n v []]. intros a Ha. by constructor.
  - eapply eat_sound; [intros; reflexivity| |intros n v []]. intros a Ha. by constructor.
  - eapply eat_sound; [intros; reflexivity| |intros n v []]. intros a Ha. by constructor.
  - eapply eat_sound; [intros; reflexivity| |intros n v []]. intros a Ha. by constructor.
  - eapply eat_sound; [intros; reflexivity| |intros n v []]. intros a Ha. by constructor.
  - eapply eat_sound; [intros; reflexivity| |intros n v []]. intros a Ha.
    constructor. by apply negb_true_iff.
  - intros st k res Hrun. cbn [run] in Hrun.
    apply IH1 in Hrun as (st1 & w1 & Hc1 & Hl1 & Hcap1 & Hrun).
    apply IH2 in Hrun as (st2 & w2 & Hc2 & Hl2 & Hcap2 & Hk).
    exists st2, (w1 +:+ w2).
    split_and!; [by eapply consumes_trans|by constructor| |done].
    intros n v Hv. destruct (Hcap2 n v Hv) as [Hv1|Hg]; [|right; by right].
    destruct (Hcap1 n v Hv1) as [Hv0|Hg]; [by left|right; by left].
  - intros st k res Hrun. cbn [run] in Hrun.
    destruct (run fl r1 st k) as [res1|] eqn:Hr1.
    + injection Hrun as <-.
      apply IH1 in Hr1 as (st1 & w & Hc & Hl & Hcap & Hk).
      exists st1, w. split_and!; [done|by apply lang_AltL| |done].
      intros n v Hv. destruct (Hcap n v Hv); [by left|right; by left].
    + apply IH2 in Hrun as (st1 & w & Hc & Hl & Hcap & Hk).
      exists st1, w. split_and!; [done|by apply lang_AltR| |done].
      intros n v Hv. destruct (Hcap n v Hv); [by left|right; by right].
  - intros st k res.
    change (run fl (Star r1) st k)
      with ((fix loop (fuel : nat) (st0 : state) {struct fuel} : option state :=
               match fuel with
               | O => k st0
               | S fuel' =>
                   match run fl r1 st0
                           (fun st1 => if (pos st0 <? pos st1)%nat
                                       then loop fuel' st1 else None) with
                   | Some res => Some res
                   | None => k st0
                   end
               end) (S (String.length (rest st))) st).
    generalize (S (String.length (rest st))). intros fuel. revert st.
    induction fuel as [|fuel IHf]; intros st Hrun.
    + exists st, "".
      split_and!;
        [apply consumes_refl|apply lang_Star0|apply capturesFrom_refl|done].
    + cbn beta iota fix in Hrun.
      destruct (run fl r1 st _) as [res1|] eqn:Hbody.
      * injection Hrun as <-.
        apply IH1 in Hbody as (st1 & w1 & Hc1 & Hl1 & Hcap1 & Hloop).
        destruct (pos st <? pos st1)%nat; [|done].
        apply IHf in Hloop as (st2 & w2 & Hc2 & Hl2 & Hcap2 & Hk).
        exists st2, (w1 +:+ w2).
        split_and!; [by eapply consumes_trans|by apply lang_StarS| |done].
        intros n v Hv. destruct (Hcap2 n v Hv) as [Hv1|Hg]; [|by right].
        destruct (Hcap1 n v Hv1) as [Hv0|Hg]; [by left|by right].
      * exists st, "".
        split_and!;
          [apply consumes_refl|apply lang_Star0|apply capturesFrom_refl|done].
  - intros st k res Hrun. cbn [run] in Hrun.
    apply IH1 in Hrun as (st1 & w & Hc & Hl & Hcap & Hk).
    eexists _, w. split_and!; [| |  |exact Hk].
    + destruct Hc as [Hrest Hpos]. split; simpl; done.
    + by constructor.
    + intros n v Hv. cbn [caps] in Hv.
      destruct (decide (m = n)) as [->|Hne].
      * rewrite lookup_insert_eq in Hv. injection Hv as <-.
        right. left. split; [done|].
        destruct Hc as [Hrest Hpos]. rewrite Hrest, Hpos.
        replace (pos st + String.length w - pos st)%nat
          with (String.length w) by lia.
        by rewrite take_app_length.
      * rewrite lookup_insert_ne in Hv by done.
        destruct (Hcap n v Hv); [by left|right; by right].
  - intros st k res Hrun. cbn [run] in Hrun.
    destruct (xorb _ _); [|done]. exists st, "".
    split_and!; [apply consumes_refl|constructor|apply capturesFrom_refl|done].
  - intros st k res Hrun. cbn [run] in Hrun.
    exists st, "".
    split_and!; [apply consumes_refl|constructor|apply capturesFrom_refl|].
    destruct (prev st) as [c|]; [|done].
    destruct (multiline fl && isLineTerminator c); done.
Qed.

(** A match found at a position: its index is the position, its text is
    a word of the pattern and a prefix of the text ahead, and its
    captures are words of the groups. *)
Lemma matchHere_sound fl r p i s res :
  matchHere fl r p i s = Some res →
  index res = i
  ∧ lang fl r (matched res)
  ∧ (∃ s', s = matched res +:+ s')
  ∧ (∀ n v, groups res !! n = Some v → groupLang fl r n v).
Proof.
  unfold matchHere.
  destruct (run fl r (State p i s ∅) Some) as [st|] eqn:Hrun; [|done].
  intros [= <-].
  apply run_sound in Hrun as (st1 & w & [Hrest Hpos] & Hl & Hcap & [= ->]).
  cbn [rest pos] in *.
  assert (JS.take (pos st - i) s = w) as Hw.
  { rewrite Hrest, Hpos.
    replace (i + String.length w - i)%nat with (String.length w) by lia.
    apply take_app_length. }
  cbn [index matched groups]. rewrite Hw.
  split_and!; [done|done|by exists (rest st)|].
  intros n v Hv. destruct (Hcap n v Hv) as [Hempty|Hg]; [|done].
  cbn [caps] in Hempty. by rewrite lookup_empty in Hempty.
Qed.

(** The matches of a scan: each one was found at its index, at or after
    the position where the scan started. *)
Lemma scanFrom_sound fl r p i s skip res :
  res ∈ scanFrom fl r p i s skip →
  (i ≤ index res)%nat
  ∧ lang fl r (matched res)
  ∧ (∀ n v, groups res !! n = Some v → groupLang fl r n v).
Proof.
  revert p i skip. induction s as [|c s IH]; intros p i skip.
  - destruct skip as [|skip]; cbn [scanFrom]; [|by intros ?%elem_of_nil].
    destruct (matchHere fl r p i "") as [m|] eqn:Hm; [|by intros ?%elem_of_nil].
    intros ->%list_elem_of_singleton.
    apply matchHere_sound in Hm as (Hi & Hl & _ & Hg). split_and!; [lia|done..].
  - destruct skip as [|skip]; cbn [scanFrom].
    + destruct (matchHere fl r p i (String c s)) as [m|] eqn:Hm.
      * intros [->|Hin]%elem_of_cons.
        -- apply matchHere_sound in Hm as (Hi & Hl & _ & Hg).
           split_and!; [lia|done..].
        -- apply IH in Hin as (Hi & Hl & Hg). split_and!; [lia|done..].
      * intros Hin. apply IH in Hin as (Hi & Hl & Hg). split_and!; [lia|done..].
    + intros Hin. apply IH in Hin as (Hi & Hl & Hg). split_and!; [lia|done..].
Qed.
End Matcher.

Section Captures.
Import Regex RegexSem.

(** A capture, once made, is never removed, and a group that every match
    passes through has a capture when the match succeeds. *)
Definition capturing (fl : flags) (r : regex) : Prop :=
  ∀ st k res,
    run fl r st k = Some res →
    ∃ st1, k st1 = Some res
           ∧ ∀ n, is_Some (caps st !! n) ∨ mustCapture r n = true →
                  is_Some (caps st1 !! n).

Lemma eat_capturing fl r (p : ascii → bool) :
  (∀ st k, run fl r st k = eat p st k) →
  (∀ n, mustCapture r n = false) →
  capturing fl r.
Proof.
  intros Hrun Hnone st k res. rewrite Hrun. unfold eat.
  destruct (rest st) as [|c s']; [done|].
  destruct (p c); [|done]. intros Hk.
  eexists. split; [exact Hk|].
  intros n [Hn|Hn]; [done|]. by rewrite Hnone in Hn.
Qed.

Lemma run_capturing fl r : capturing fl r.
Proof.
  induction r as [|c| | | | |cs|cs|r1 IH1 r2 IH2|r1 IH1 r2 IH2|r1 IH1|m r1 IH1| |].
  - intros st k res Hk. exists st. split; [done|]. by intros n [Hn|Hn].
  - eapply eat_capturing; [intros; reflexivity|done].
  - eapply eat_capturing; [intros; reflexivity|done].
  - eapply eat_capturing; [intros; reflexivity|done].
  - eapply eat_capturing; [intros; reflexivity|done].
  - eapply eat_capturing; [intros; reflexivity|done].
  - eapply eat_capturing; [intros; reflexivity|done].
  - eapply eat_capturing; [intros; reflexivity|done].
  - intros st k res Hrun. cbn [run] in Hrun.
    apply IH1 in Hrun as (st1 & Hrun & Hcap1).
    apply IH2 in Hrun as (st2 & Hk & Hcap2).
    exists st2. split; [done|].
    intros n [Hn|Hn]; [apply Hcap2; left; apply Hcap1; by left|].
    cbn [mustCapture] in Hn. apply orb_true_iff in Hn as [Hn|Hn].
    + apply Hcap2. left. apply Hcap1. by right.
    + apply Hcap2. by right.
  - intros st k res Hrun. cbn [run] in Hrun.
    destruct (run fl r1 st k) as [res1|] eqn:Hr1.
    + injection Hrun as <-.
      apply IH1 in Hr1 as (st1 & Hk & Hcap). exists st1. split; [done|].
      intros n [Hn|Hn]; [apply Hcap; by left|].
      cbn [mustCapture] in Hn. apply andb_true_iff in Hn as [Hn _].
      apply Hcap. by right.
    + apply IH2 in Hrun as (st1 & Hk & Hcap). exists st1. split; [done|].
      intros n [Hn|Hn]; [apply Hcap; by left|].
      cbn [mustCapture] in Hn. apply andb_true_iff in Hn as [_ Hn].
      apply Hcap. by right.
  - intros st k res.
    change (run fl (Star r1) st k)
      with ((fix loop (fuel : nat) (st0 : state) {struct fuel} : option state :=
               match fuel with
               | O => k st0
               | S fuel' =>
                   match run fl r1 st0
                           (fun st1 => if (pos st0 <? pos st1)%nat
                                       then loop fuel' st1 else None) with
                   | Some res => Some res
                   | None => k st0
                   end
               end) (S (String.length (rest st))) st).
    generalize (S (String.length (rest st))). intros fuel. revert st.
    induction fuel as [|fuel IHf]; intros st Hrun.
    + exists st. split; [done|]. by intros n [Hn|Hn].
    + cbn beta iota fix in Hrun.
      destruct (run fl r1 st _) as [res1|] eqn:Hbody.
      * injection Hrun as <-.
        apply IH1 in Hbody as (st1 & Hloop & Hcap1).
        destruct (pos st <? pos st1)%nat; [|done].
        apply IHf in Hloop as (st2 & Hk & Hcap2).
        exists st2. split; [done|].
        intros n [Hn|Hn]; [|done]. apply Hcap2. left. apply Hcap1. by left.
      * exists st. split; [done|]. by intros n [Hn|Hn].
  - intros st k res Hrun. cbn [run] in Hrun.
    apply IH1 in Hrun as (st1 & Hk & Hcap).
    eexists. split; [exact Hk|].
    intros n Hn. cbn [caps].
    destruct (decide (m = n)) as [->|Hne];
      [rewrite lookup_insert_eq; eauto|].
    rewrite lookup_insert_ne by done. apply Hcap.
    destruct Hn as [Hn|Hn]; [by left|right].
    cbn [mustCapture] in Hn. apply orb_true_iff in Hn as [Hn|Hn]; [|done].
    apply Nat.eqb_eq in Hn. done.
  - intros st k res Hrun. cbn [run] in Hrun.
    destruct (xorb _ _); [|done]. exists st. split; [done|].
    by intros n [Hn|Hn].
  - intros st k res Hrun. cbn [run] in Hrun. exists st. split.
    + destruct (prev st) as [c|]; [|done].
      destruct (multiline fl && isLineTerminator c); done.
    + by intros n [Hn|Hn].
Qed.

Lemma scanFrom_captures fl r p i s skip res n :
  res ∈ scanFrom fl r p i s skip → mustCapture r n = true →
  is_Some (groups res !! n).
Proof.
  intros Hin Hmust.
  assert (∀ p i s m, matchHere fl r p i s = Some m → is_Some (groups m !! n))
    as Hhere.
  { clear -Hmust. intros p i s m. unfold matchHere.
    destruct (run fl r (State p i s ∅) Some) as [st|] eqn:Hrun; [|done].
    intros [= <-]. apply run_capturing in Hrun as (st1 & [= ->] & Hcap).
    cbn [groups]. apply Hcap. by right. }
  revert p i skip Hin. induction s as [|c s IH]; intros p i skip.
  - destruct skip as [|skip]; cbn [scanFrom]; [|by intros ?%elem_of_nil].
    destruct (matchHere fl r p i "") as [m|] eqn:Hm; [|by intros ?%elem_of_nil].
    intros ->%list_elem_of_singleton. by eapply Hhere.
  - destruct skip as [|skip]; cbn [scanFrom]; [|by apply IH].
    destruct (matchHere fl r p i (String c s)) as [m|] eqn:Hm; [|by apply IH].
    intros [->|Hin]%elem_of_cons; [by eapply Hhere|by eapply IH].
Qed.

(** Words of literal patterns and of runs of word characters. *)
Lemma sameChar_noFlags a c : sameChar noFlags a c = true → a = c.
Proof. unfold sameChar. simpl. by intros ?%Ascii.eqb_eq. Qed.

Lemma lang_Chr_inv c w : lang noFlags (Chr c) w → w = String c "".
Proof. inversion 1; subst. by rewrite (sameChar_noFlags a c). Qed.

Lemma lang_Lit s w : lang noFlags (Lit s) w → w = s.
Proof.
  revert w. induction s as [|c s IH]; intros w Hl.
  - by inversion Hl.
  - destruct s as [|c' s].
    + by apply lang_Chr_inv.
    + change (Lit (String c (String c' s)))
        with (Seq (Chr c) (Lit (String c' s))) in Hl.
      inversion Hl as [| | | | | | | |r1 r2 w1 w2 H1 H2| | | | | | |]; subst.
      apply lang_Chr_inv in H1 as ->. apply IH in H2 as ->. done.
Qed.

Lemma lang_Star_Word w : lang noFlags (Star Word) w → allChars isWordChar w = true.
Proof.
  remember (Star Word) as r eqn:Hr. induction 1; try discriminate Hr.
  - done.
  - injection Hr as ->.
    match goal with H : lang _ Word _ |- _ => inversion H; subst end.
    rewrite string_app_cons. simpl.
    apply andb_true_iff. split; [done|]. simpl. by apply IHlang2.
Qed.

Lemma lang_Plus_Word w :
  lang noFlags (Plus Word) w → w ≠ "" ∧ allChars isWordChar w = true.
Proof.
  unfold Plus.
  inversion 1 as [| | | | | | | |r1 r2 w1 w2 H1 H2| | | | | | |]; subst.
  inversion H1; subst. apply lang_Star_Word in H2.
  rewrite string_app_cons. split; [done|]. simpl.
  apply andb_true_iff. done.
Qed.
End Captures.

(** ** The function scan *)

Section FunctionScan.
Import Regex RegexSem SolidityUtils.

Lemma lang_Alt_inv fl r1 r2 w :
  lang fl (Alt r1 r2) w → lang fl r1 w ∨ lang fl r2 w.
Proof. inversion 1; subst; [by left|by right]. Qed.

Lemma lang_Seq_inv fl r1 r2 w :
  lang fl (Seq r1 r2) w → ∃ w1 w2, w = w1 +:+ w2 ∧ lang fl r1 w1 ∧ lang fl r2 w2.
Proof. inversion 1; subst. eauto. Qed.

(** The groups of the function pattern: the name, the visibility keyword
    and the mutability keyword. *)
Lemma reFunction_groups n v :
  groupLang noFlags reFunction n v →
  (n = 1%nat ∧ v ≠ "" ∧ allChars isWordChar v = true)
  ∨ (n = 2%nat ∧ v ∈ ["public"; "external"; "internal"; "private"])
  ∨ (n = 3%nat ∧ v ∈ ["view"; "pure"; "payable"]).
Proof.
  intros Hg.
  cbv [groupLang reFunction Cat AltL Opt Plus Lit] in Hg.
  repeat match goal with
         | H : False |- _ => destruct H
         | H : _ ∨ _ |- _ => destruct H as [H|H]
         | H : _ = n ∧ _ |- _ => destruct H as [<- H]
         end.
  - left. split; [done|]. by apply lang_Plus_Word.
  - right. left. split; [done|].
    apply lang_Alt_inv in Hg as [Hl|Hl];
      [apply (lang_Lit "public") in Hl as ->; set_solver|].
    apply lang_Alt_inv in Hl as [Hl|Hl];
      [apply (lang_Lit "external") in Hl as ->; set_solver|].
    apply lang_Alt_inv in Hl as [Hl|Hl];
      [apply (lang_Lit "internal") in Hl as ->; set_solver|].
    apply (lang_Lit "private") in Hl as ->. set_solver.
  - right. right. split; [done|].
    apply lang_Alt_inv in Hg as [Hl|Hl];
      [apply (lang_Lit "view") in Hl as ->; set_solver|].
    apply lang_Alt_inv in Hl as [Hl|Hl];
      [apply (lang_Lit "pure") in Hl as ->; set_solver|].
    apply (lang_Lit "payable") in Hl as ->. set_solver.
Qed.
End FunctionScan.

Section FunctionRecords.
Import Regex RegexSem SolidityUtils.

Lemma functionMatches_sound src m :
  m ∈ functionMatches src →
  lang noFlags reFunction (matched m)
  ∧ (∀ n v, groups m !! n = Some v → groupLang noFlags reFunction n v)
  ∧ is_Some (groups m !! 1%nat).
Proof.
  intros Hm. unfold functionMatches, matchAll in Hm.
  destruct (scanFrom_sound _ _ _ _ _ _ _ Hm) as (_ & Hl & Hg).
  split_and!; [done|done|].
  by eapply scanFrom_captures.
Qed.

Lemma countNewlines_take_mono a b s :
  (a ≤ b)%nat → (countNewlines (JS.take a s) ≤ countNewlines (JS.take b s))%nat.
Proof.
  revert a b. induction s as [|c s IH]; intros a b Hab.
  - destruct a, b; simpl; lia.
  - destruct a as [|a]; [simpl; lia|]. destruct b as [|b]; [lia|].
    simpl. specialize (IH a b ltac:(lia)).
    destruct (Ascii.eqb c "010"); lia.
Qed.

Lemma countNewlines_take_le a s :
  (countNewlines (JS.take a s) ≤ countNewlines s)%nat.
Proof.
  revert a. induction s as [|c s IH]; intros a.
  - destruct a; simpl; lia.
  - destruct a as [|a]; [simpl; lia|]. simpl. specialize (IH a).
    destruct (Ascii.eqb c "010"); lia.
Qed.

Lemma countLines_countNewlines s : JS.countLines s = S (countNewlines s).
Proof.
  induction s as [|c s IH]; [done|]. simpl.
  destruct (Ascii.eqb c "010"); lia.
Qed.

(** The matches of a scan come in the order of the text, without
    overlap of their starting points. *)
Lemma scanFrom_sorted fl r p i s skip :
  StronglySorted lt (map index (scanFrom fl r p i s skip)).
Proof.
  revert p i skip. induction s as [|c s IH]; intros p i skip.
  - destruct skip as [|skip]; cbn [scanFrom]; [|constructor].
    destruct (matchHere fl r p i ""); repeat constructor.
  - destruct skip as [|skip]; cbn [scanFrom]; [|apply IH].
    destruct (matchHere fl r p i (String c s)) as [m|] eqn:Hm; [|apply IH].
    cbn [map]. constructor; [apply IH|].
    apply matchHere_sound in Hm as (-> & _).
    apply Forall_forall. intros j (m' & -> & Hm')%list_elem_of_fmap.
    apply scanFrom_sound in Hm' as (Hle & _). lia.
Qed.

Lemma StronglySorted_map_mono {A} (f : A → nat) (g : nat → nat) (l : list A) :
  (∀ a b, (a < b)%nat → (g a ≤ g b)%nat) →
  StronglySorted lt (map f l) →
  StronglySorted le (map (fun x => g (f x)) l).
Proof.
  intros Hmono. induction l as [|x l IH]; intros Hs; [constructor|].
  cbn [map] in *. apply StronglySorted_inv in Hs as [Hs Hall].
  constructor; [by apply IH|].
  apply Forall_forall. intros j (y & -> & Hy)%list_elem_of_fmap.
  apply Hmono. rewrite Forall_forall in Hall. apply Hall.
  apply list_elem_of_fmap. by exists y.
Qed.

Lemma functionOfMatch_recorded src m :
  m ∈ functionMatches src → functionOfMatch src m ∈ extractFunctions src.
Proof. intros Hm. apply list_elem_of_fmap. by exists m. Qed.
End FunctionRecords.

(** X1. Every function the scan records has a name that is not empty
    and consists of word characters (letters, digits, underscore) only:
    the name is always defined, and it stands for itself in the pattern
    that [extractFunctionContent] builds from it. *)
Theorem X1_function_names_are_identifiers
    (src : string) (f : SolidityUtils.SolidityFunction) :
  f ∈ SolidityUtils.extractFunctions src →
  SolidityUtils.name f ≠ ""
  ∧ RegexSem.allChars Regex.isWordChar (SolidityUtils.name f) = true.
Proof.
  intros (m & -> & Hm)%list_elem_of_fmap.
  destruct (functionMatches_sound src m Hm) as (_ & Hgroups & [v Hv]).
  unfold SolidityUtils.functionOfMatch. cbn [SolidityUtils.name].
  rewrite Hv. cbn [default].
  destruct (reFunction_groups _ _ (Hgroups _ _ Hv))
    as [(_ & Hne & Hword)|[(Hn & _)|(Hn & _)]]; [done|discriminate..].
Qed.

Lemma X1_function_names_witness :
  ∃ f, f ∈ SolidityUtils.extractFunctions Samples.helperSource
       ∧ SolidityUtils.name f = "helper"
       ∧ RegexSem.allChars Regex.isWordChar (SolidityUtils.name f) = true.
Proof.
  destruct helper_match as (m & rest & Hms & _ & _ & H1).
  exists (SolidityUtils.functionOfMatch Samples.helperSource m).
  assert (SolidityUtils.functionOfMatch Samples.helperSource m
            ∈ SolidityUtils.extractFunctions Samples.helperSource) as Hin.
  { apply functionOfMatch_recorded. rewrite Hms. apply list_elem_of_here. }
  split_and!; [exact Hin| |exact (proj2 (X1_function_names_are_identifiers _ _ Hin))].
  unfold SolidityUtils.functionOfMatch. cbn [SolidityUtils.name].
  rewrite H1. reflexivity.
Defined.

(** X2. In a match of the function pattern the visibility group, when it
    took part, holds one of [public], [external], [internal], [private],
    and the mutability group one of [view], [pure], [payable]: the casts
    of the captured strings to the visibility and mutability types are
    safe, and a function is recorded as external (payable) exactly when
    the keyword captured is [external] ([payable]). *)
Theorem X2_captured_keywords (src : string) (m : Regex.result) :
  m ∈ SolidityUtils.functionMatches src →
  (∀ v, Regex.groups m !! 2%nat = Some v →
        v ∈ ["public"; "external"; "internal"; "private"])
  ∧ (∀ v, Regex.groups m !! 3%nat = Some v → v ∈ ["view"; "pure"; "payable"])
  ∧ (SolidityUtils.visibility (SolidityUtils.functionOfMatch src m)
       = SolidityUtils.VExternal
     ↔ Regex.groups m !! 2%nat = Some "external")
  ∧ (SolidityUtils.mutability (SolidityUtils.functionOfMatch src m)
       = SolidityUtils.MPayable
     ↔ Regex.groups m !! 3%nat = Some "payable").
Proof.
  intros Hm.
  destruct (functionMatches_sound src m Hm) as (_ & Hgroups & _).
  assert (∀ v, Regex.groups m !! 2%nat = Some v →
               v ∈ ["public"; "external"; "internal"; "private"]) as H2.
  { intros v Hv.
    destruct (reFunction_groups _ _ (Hgroups _ _ Hv))
      as [(Hn & _)|[(_ & Hin)|(Hn & _)]]; [discriminate|done|discriminate]. }
  assert (∀ v, Regex.groups m !! 3%nat = Some v →
               v ∈ ["view"; "pure"; "payable"]) as H3.
  { intros v Hv.
    destruct (reFunction_groups _ _ (Hgroups _ _ Hv))
      as [(Hn & _)|[(Hn & _)|(_ & Hin)]]; [discriminate|discriminate|done]. }
  split_and!; [done|done| |].
  - unfold SolidityUtils.functionOfMatch. cbn [SolidityUtils.visibility].
    destruct (Regex.groups m !! 2%nat) as [v|] eqn:Hv; [|done].
    specialize (H2 v eq_refl).
    repeat (apply elem_of_cons in H2 as [->|H2]; [done|]).
    by apply elem_of_nil in H2.
  - unfold SolidityUtils.functionOfMatch. cbn [SolidityUtils.mutability].
    destruct (Regex.groups m !! 3%nat) as [v|] eqn:Hv; [|done].
    specialize (H3 v eq_refl).
    repeat (apply elem_of_cons in H3 as [->|H3]; [done|]).
    by apply elem_of_nil in H3.
Qed.

(** The declaration of [peek] in the sample contract carries both
    keywords: they are among the admitted ones, and the function is
    recorded as external. *)
Lemma X2_captured_keywords_witness :
  ∃ m, m ∈ SolidityUtils.functionMatches Samples.helperSource
       ∧ Regex.groups m !! 2%nat = Some "external"
       ∧ Regex.groups m !! 3%nat = Some "view"
       ∧ "external" ∈ ["public"; "external"; "internal"; "private"]
       ∧ "view" ∈ ["view"; "pure"; "payable"]
       ∧ SolidityUtils.visibility
           (SolidityUtils.functionOfMatch Samples.helperSource m)
         = SolidityUtils.VExternal.
Proof.
  destruct peek_match as (m & Hm & _ & H2 & H3).
  exists m.
  destruct (X2_captured_keywords Samples.helperSource m Hm)
    as (Hvis & Hmut & Hext & _).
  repeat split;
    [exact Hm | exact H2 | exact H3 | exact (Hvis _ H2) | exact (Hmut _ H3)
    | exact (proj2 Hext H2)].
Defined.

(** X3. Every match of the function pattern is a text that starts with
    the word [function]: no match is empty, so each turn of the loop
    [while ((m = re.exec(src)))] moves the search forward and the loop
    ends. *)
Theorem X3_function_matches_start_with_keyword
    (src : string) (m : Regex.result) :
  m ∈ SolidityUtils.functionMatches src →
  JS.startsWith (Regex.matched m) "function" = true
  ∧ (8 < String.length (Regex.matched m))%nat.
Proof.
  intros Hm.
  destruct (functionMatches_sound src m Hm) as (Hl & _ & _).
  unfold SolidityUtils.reFunction in Hl.
  change (Regex.Cat _)
    with (Regex.Seq (Regex.Lit "function")
            (Regex.Seq (Regex.Plus Regex.Space)
               (Regex.Cat
                  [Regex.Group 1 (Regex.Plus Regex.Word); Regex.Star Regex.Space;
                   Regex.Chr "("; Regex.Star (Regex.NoneOf ")"); Regex.Chr ")";
                   Regex.Star Regex.Space;
                   Regex.Opt (Regex.Group 2
                     (Regex.AltL [Regex.Lit "public"; Regex.Lit "external";
                                  Regex.Lit "internal"; Regex.Lit "private"]));
                   Regex.Star Regex.Space;
                   Regex.Opt (Regex.Group 3
                     (Regex.AltL [Regex.Lit "view"; Regex.Lit "pure";
                                  Regex.Lit "payable"]))]))) in Hl.
  apply lang_Seq_inv in Hl as (w1 & w2 & -> & Hl1 & Hl2).
  apply lang_Lit in Hl1 as ->.
  apply lang_Seq_inv in Hl2 as (w3 & w4 & -> & Hl3 & _).
  unfold Regex.Plus in Hl3.
  apply lang_Seq_inv in Hl3 as (w5 & w6 & -> & Hl5 & _).
  inversion Hl5; subst.
  split; [reflexivity|].
  rewrite !string_app_length. simpl. lia.
Qed.

Lemma X3_function_matches_witness :
  ∃ m, m ∈ SolidityUtils.functionMatches Samples.helperSource
       ∧ JS.startsWith (Regex.matched m) "function" = true.
Proof.
  destruct helper_match as (m & rest & Hms & _).
  assert (m ∈ SolidityUtils.functionMatches Samples.helperSource) as Hm.
  { rewrite Hms. apply list_elem_of_here. }
  exists m. split; [exact Hm|].
  exact (proj1 (X3_function_matches_start_with_keyword _ m Hm)).
Defined.

(** X4. The functions are recorded in the order of the source text:
    their line numbers never decrease along the list, and each line
    number lies between 1 and the number of lines of the text. *)
Theorem X4_functions_in_source_order (src : string) :
  StronglySorted le
    (map SolidityUtils.lineNumber (SolidityUtils.extractFunctions src))
  ∧ Forall (fun f => (1 ≤ SolidityUtils.lineNumber f ≤ JS.countLines src)%nat)
           (SolidityUtils.extractFunctions src).
Proof.
  split.
  - unfold SolidityUtils.extractFunctions.
    rewrite <- list_fmap_compose.
    apply (StronglySorted_map_mono Regex.index
             (fun i => (SolidityUtils.countNewlines (JS.take i src) + 1)%nat)).
    + intros a b Hab.
      pose proof (countNewlines_take_mono a b src ltac:(lia)). lia.
    + apply scanFrom_sorted.
  - apply Forall_forall. intros f (m & -> & _)%list_elem_of_fmap.
    unfold SolidityUtils.functionOfMatch. cbn [SolidityUtils.lineNumber].
    rewrite countLines_countNewlines.
    pose proof (countNewlines_take_le (Regex.index m) src). lia.
Qed.


(** ** Counts of the contract analysis *)

Section Counts.
Import Comprehensive.

Lemma filter_split_length {A} (p : A → bool) (l : list A) :
  (length (filter (fun x => p x = true) l)
   + length (filter (fun x => p x = false) l))%nat = length l.
Proof.
  induction l as [|x l IH]; [done|].
  destruct (p x) eqn:Hp.
  - rewrite filter_cons_True by done.
    rewrite (filter_cons_False (fun x => p x = false)) by congruence.
    simpl. lia.
  - rewrite filter_cons_False by congruence.
    rewrite (filter_cons_True (fun x => p x = false)) by done.
    simpl. lia.
Qed.

Lemma filter_disjoint_length {A} (p q : A → bool) (l : list A) :
  (∀ x, p x = true → q x = false) →
  (length (filter (fun x => p x = true) l)
   + length (filter (fun x => q x = true) l) ≤ length l)%nat.
Proof.
  intros Hpq. induction l as [|x l IH]; [done|].
  destruct (p x) eqn:Hp.
  - rewrite filter_cons_True by done.
    rewrite (filter_cons_False (fun x => q x = true))
      by (rewrite (Hpq x Hp); discriminate).
    simpl. lia.
  - rewrite filter_cons_False by congruence.
    destruct (q x) eqn:Hq.
    + rewrite (filter_cons_True (fun x => q x = true)) by done. simpl. lia.
    + rewrite (filter_cons_False (fun x => q x = true)) by congruence.
      simpl. lia.
Qed.

Lemma filter_excluded_length {A} (p q : A → bool) (l : list A) :
  (∀ x, p x = true → q x = false) →
  (length (filter (fun x => p x = true) l)
   ≤ length (filter (fun x => q x = false) l))%nat.
Proof.
  intros Hpq. induction l as [|x l IH]; [done|].
  destruct (p x) eqn:Hp.
  - rewrite filter_cons_True by done.
    rewrite (filter_cons_True (fun x => q x = false)) by auto.
    simpl. lia.
  - rewrite filter_cons_False by congruence.
    destruct (q x) eqn:Hq.
    + rewrite (filter_cons_False (fun x => q x = false)) by congruence. done.
    + rewrite (filter_cons_True (fun x => q x = false)) by done. simpl. lia.
Qed.

(** Every indicator of the scan is one of the messages of the table. *)
Lemma scan_in_table src ind :
  ind ∈ SolidityUtils.checkVulnerabilityIndicators src →
  ind ∈ map snd Spec.indicatorRules.
Proof.
  rewrite scan_runs_rules, fold_pushIf. cbn [app].
  intros (r & -> & [_ Hr]%list_elem_of_filter)%list_elem_of_fmap.
  apply list_elem_of_fmap. by exists r.
Qed.

(** Every message of the table carries exactly one of the four severity
    tags. *)
Lemma table_one_tag :
  Forall (fun msg =>
            (Nat.b2n (JS.includes msg "CRITICAL") + Nat.b2n (JS.includes msg "HIGH")
             + Nat.b2n (JS.includes msg "MEDIUM") + Nat.b2n (JS.includes msg "LOW"))%nat
            = 1%nat)
         (map snd Spec.indicatorRules).
Proof. vm_compute. repeat constructor. Qed.

Lemma countTag_cons tag x l :
  countTag tag (x :: l) = (Nat.b2n (JS.includes x tag) + countTag tag l)%nat.
Proof.
  unfold countTag. destruct (JS.includes x tag) eqn:Hx.
  - rewrite filter_cons_True by done. done.
  - rewrite filter_cons_False by congruence. done.
Qed.

Lemma countTag_partition l :
  (∀ x, x ∈ l → x ∈ map snd Spec.indicatorRules) →
  (countTag "CRITICAL" l + countTag "HIGH" l + countTag "MEDIUM" l
   + countTag "LOW" l)%nat = length l.
Proof.
  induction l as [|x l IH]; intros Hall; [done|].
  rewrite !countTag_cons. cbn [length].
  pose proof table_one_tag as Htab. rewrite Forall_forall in Htab.
  specialize (Htab x (Hall x ltac:(left))). cbv beta in Htab.
  specialize (IH (fun y Hy => Hall y ltac:(by right))). lia.
Qed.
End Counts.

(** X5. The function counts of the summary are consistent: every
    function is either counted as view (view or pure) or as state
    changing, the external and the public functions together are no more
    than all functions, every payable function is state changing, and the
    privileged functions without access control are external ones. *)
Theorem X5_function_counts_consistent
    (info : Comprehensive.FileInfo) (content : string) :
  let ca := Comprehensive.analyzeContent info content in
  let s := Comprehensive.summary ca in
  (Comprehensive.view s + Comprehensive.stateChanging s)%nat
  = Comprehensive.totalFunctions s
  ∧ (Comprehensive.external s + Comprehensive.public s
     ≤ Comprehensive.totalFunctions s)%nat
  ∧ (Comprehensive.payable s ≤ Comprehensive.stateChanging s)%nat
  ∧ (length (Comprehensive.privilegedFunctionsWithoutAccessControl
               (Comprehensive.security ca))
     ≤ Comprehensive.external s)%nat.
Proof.
  intros ca s. subst s ca. unfold Comprehensive.analyzeContent.
  cbn [Comprehensive.summary Comprehensive.view Comprehensive.stateChanging
       Comprehensive.totalFunctions Comprehensive.external
       Comprehensive.public Comprehensive.payable Comprehensive.security
       Comprehensive.privilegedFunctionsWithoutAccessControl].
  unfold Comprehensive.viewFnsOf, Comprehensive.externalFnsOf,
    Comprehensive.publicFnsOf, Comprehensive.payableFnsOf,
    Comprehensive.privilegedFunctionsOf.
  split_and!.
  - apply filter_split_length.
  - apply filter_disjoint_length. intros f Hext.
    unfold Comprehensive.isExternal, Comprehensive.isPublic in *.
    apply bool_decide_eq_true in Hext. apply bool_decide_eq_false. congruence.
  - apply filter_excluded_length. intros f Hpay.
    unfold Comprehensive.isPayable, Comprehensive.isView in *.
    apply bool_decide_eq_true in Hpay. rewrite Hpay. reflexivity.
  - rewrite length_map. apply length_filter.
Qed.

(** X6. The severity breakdown partitions the indicators of the scan:
    each indicator carries exactly one of the four severity tags, so the
    four counts add up to the number of findings. *)
Theorem X6_severity_breakdown_partitions
    (info : Comprehensive.FileInfo) (content : string) :
  let sec := Comprehensive.security (Comprehensive.analyzeContent info content) in
  let sb := Comprehensive.severityBreakdown sec in
  (Comprehensive.critical sb + Comprehensive.high sb + Comprehensive.medium sb
   + Comprehensive.low sb)%nat
  = length (Comprehensive.indicators sec).
Proof.
  intros sec sb. subst sb sec. unfold Comprehensive.analyzeContent.
  cbn [Comprehensive.security Comprehensive.severityBreakdown
       Comprehensive.critical Comprehensive.high Comprehensive.medium
       Comprehensive.low Comprehensive.indicators].
  apply countTag_partition. intros x. apply scan_in_table.
Qed.

(** ** The display projections *)

Section Display.
Import Comprehensive.

Lemma take_length_le n s : (String.length (JS.take n s) ≤ n)%nat.
Proof.
  revert s. induction n as [|n IH]; intros s; [simpl; lia|].
  destruct s as [|c s]; simpl; [lia|]. specialize (IH s). lia.
Qed.

Lemma take_length_exact n s :
  (n ≤ String.length s)%nat → String.length (JS.take n s) = n.
Proof.
  revert s. induction n as [|n IH]; intros s Hlen; [done|].
  destruct s as [|c s]; simpl in *; [lia|]. rewrite IH by lia. done.
Qed.

Lemma take_all n s : (String.length s ≤ n)%nat → JS.take n s = s.
Proof.
  revert s. induction n as [|n IH]; intros s Hlen.
  - destruct s; [done|simpl in Hlen; lia].
  - destruct s as [|c s]; [done|]. simpl in *. rewrite IH by lia. done.
Qed.

(** The percentage of a distance between 0 and 1. *)
Lemma round_percentage (d : Q) :
  (0 <= d)%Q → (d <= 1)%Q → (0 ≤ JS.round ((1 - d) * 100) ≤ 100)%Z.
Proof.
  intros H0 H1. unfold JS.round.
  set (x := ((1 - d) * 100 + (1 # 2))%Q).
  assert (0 <= x)%Q as Hx0 by (subst x; lra).
  assert (x < 101)%Q as Hx1 by (subst x; lra).
  split.
  - change 0%Z with (Qfloor 0). by apply Qfloor_resp_le.
  - pose proof (Qfloor_le x) as Hfl.
    assert (inject_Z (Qfloor x) < inject_Z 101)%Q as Hlt.
    { eapply Qle_lt_trans; [exact Hfl|]. exact Hx1. }
    rewrite <- Zlt_Qlt in Hlt. lia.
Qed.
End Display.

(** X7. The display projections are bounded: the excerpt of a formatted
    result is the document itself when it has at most 300 characters and
    its first 300 characters followed by three dots otherwise, the
    description of a similar exploit has at most 500 characters, and for
    a distance between 0 and 1 the relevance and the similarity are a
    whole percentage between 0 and 100. *)
Theorem X7_display_projections_bounded (r : Knowledge.QueryResult) :
  let doc := Knowledge.document r in
  ((String.length doc ≤ 300)%nat →
     Comprehensive.excerpt (Comprehensive.formatResult r) = doc)
  ∧ ((300 < String.length doc)%nat →
     Comprehensive.excerpt (Comprehensive.formatResult r)
     = JS.take 300 doc +:+ "..."
     ∧ String.length (Comprehensive.excerpt (Comprehensive.formatResult r))
       = 303%nat)
  ∧ (String.length (Comprehensive.description (Comprehensive.projectExploit r))
     ≤ 500)%nat
  ∧ ((0 <= Knowledge.distance r)%Q → (Knowledge.distance r <= 1)%Q →
     ∃ n, (0 ≤ n ≤ 100)%Z
          ∧ Comprehensive.relevance (Comprehensive.formatResult r)
            = JS.ofZ n +:+ "%"
          ∧ Comprehensive.similarity (Comprehensive.projectExploit r)
            = JS.ofZ n +:+ "%").
Proof.
  intros doc. unfold Comprehensive.formatResult, Comprehensive.projectExploit.
  cbn [Comprehensive.excerpt Comprehensive.description
       Comprehensive.relevance Comprehensive.similarity].
  fold doc. unfold JS.substring0.
  split_and!.
  - intros Hlen. assert ((300 <? String.length doc)%nat = false) as ->
      by (apply Nat.ltb_ge; lia).
    rewrite string_app_nil_r. apply take_all. simpl. lia.
  - intros Hlen. assert ((300 <? String.length doc)%nat = true) as ->
      by (apply Nat.ltb_lt; lia).
    split; [reflexivity|].
    rewrite string_app_length.
    change (Z.to_nat 300) with 300%nat.
    rewrite take_length_exact by lia. done.
  - apply take_length_le.
  - intros H0 H1. exists (JS.round ((1 - Knowledge.distance r) * 100)).
    split; [by apply round_percentage|done].
Qed.

(** A row at the distance 1/4 is 75% relevant. *)
Lemma X7_display_projections_witness :
  ∃ n, (0 ≤ n ≤ 100)%Z
       ∧ Comprehensive.relevance
           (Comprehensive.formatResult (Samples.row "X" "reentrancy" (1 # 4)))
         = JS.ofZ n +:+ "%".
Proof.
  destruct (X7_display_projections_bounded (Samples.row "X" "reentrancy" (1 # 4)))
    as (_ & _ & _ & Hpct).
  destruct Hpct as (n & Hn & Hrel & _).
  - cbn. discriminate.
  - cbn. discriminate.
  - exists n. split; [exact Hn | exact Hrel].
Defined.

(** ** More on the external tool runner *)

Section Runner.
Import Core Command.

Lemma orStatus_nonzero v : orStatus v ≠ 0%Z.
Proof. destruct v as [[| |]|]; done. Qed.
End Runner.

(** X8. A result that [executeCommand] returns always has the success
    flag set and carries the command line that was run; its exit code is
    0 exactly when the process ended normally, so a failed run that is
    returned for its output is told apart by a nonzero exit code (1 when
    the process had no exit status). *)
Theorem X8_returned_results
    (cfg : Core.Config) (sh : Command.Shell) (cmd : string)
    (args : list string) (cwd : option string) (timeout : option Z)
    (res : Command.CommandResult) :
  Command.executeCommand cfg sh cmd args cwd timeout = Core.Ok res →
  let opts := {| Command.opt_cwd := Some (default (Command.processCwd sh) cwd);
                 Command.opt_timeout :=
                   Some (default (Core.timeoutDefault cfg) timeout) |} in
  let full := cmd +:+ " " +:+ JS.join " " args in
  Command.isToolInstalled sh cmd = true
  ∧ Command.success res = true
  ∧ Command.command res = full
  ∧ Command.duration res = Command.elapsed sh full opts
  ∧ (Command.exitCode res = 0%Z
     ↔ ∃ out, Command.execSync sh full opts = Command.Returned out)
  ∧ (∀ e, Command.execSync sh full opts = Command.Failed e →
          Command.e_status e = None → Command.exitCode res = 1%Z).
Proof.
  intros Hrun opts full. unfold Command.executeCommand in Hrun.
  fold opts full in Hrun.
  destruct (Command.isToolInstalled sh cmd); [|done]. cbn [negb] in Hrun.
  destruct (Command.execSync sh full opts) as [out|e] eqn:Hex.
  - injection Hrun as <-. cbn.
    split_and!; try done. split; [eauto|done].
  - destruct (Command.truthy (Command.e_stdout e)); [|done].
    injection Hrun as <-. cbn.
    split_and!; try done.
    + split; [|by intros [? ?]].
      intros Hzero. by apply orStatus_nonzero in Hzero.
    + intros e' [= <-] ->. reflexivity.
Qed.

Lemma X8_returned_results_witness :
  ∃ res,
    Command.executeCommand Samples.sampleConfig Samples.lintShell "solhint"
      ["a.sol"] (Some "/src") None = Core.Ok res
    ∧ Command.success res = true
    ∧ Command.command res = "solhint a.sol".
Proof.
  eexists. split; [reflexivity|].
  destruct (X8_returned_results Samples.sampleConfig Samples.lintShell
              "solhint" ["a.sol"] (Some "/src") None _ eq_refl)
    as (_ & Hok & Hcmd & _).
  split; [exact Hok | exact Hcmd].
Defined.

(** ** The external tools of the comprehensive analysis *)

Section Tools.
Import Core Command Comprehensive.

Lemma executeCommand_success cfg sh cmd args cwd timeout res :
  executeCommand cfg sh cmd args cwd timeout = Ok res → success res = true.
Proof.
  unfold executeCommand. destruct (isToolInstalled sh cmd); [|done].
  cbn [negb]. destruct (execSync sh _ _) as [out|e].
  - by intros [= <-].
  - destruct (truthy (e_stdout e)); [|done]. by intros [= <-].
Qed.

Lemma toolMissing_describes w binary statuses :
  isToolInstalled (shell w) binary = false →
  Facts.describes w binary statuses (toolMissing (getInstallHint binary)).
Proof.
  intros Hinst. unfold Facts.describes. rewrite Hinst. cbn.
  split_and!; [done|done|discriminate].
Qed.

Lemma toolFailed_describes w binary statuses e :
  isToolInstalled (shell w) binary = true → "failed" ∈ statuses →
  Facts.describes w binary statuses (toolFailed e).
Proof.
  intros Hinst Hst. unfold Facts.describes. rewrite Hinst. cbn.
  split_and!; [done|discriminate|]. intros _. exists "failed".
  split_and!; try done; try (split; [eauto|done]).
Qed.

Lemma toolRan_describes w binary statuses st out :
  isToolInstalled (shell w) binary = true → st ∈ statuses → st ≠ "failed" →
  Facts.describes w binary statuses (toolRan st out).
Proof.
  intros Hinst Hst Hne. unfold Facts.describes. rewrite Hinst. cbn.
  split_and!; [done|discriminate|]. intros _. exists st.
  split_and!; try done; try (split; [done|intros [? ?]; discriminate]).
Qed.

Lemma runSlither_entry w p dir :
  ∃ e, runSlither w p dir = Some e
       ∧ Facts.describes w "slither" ["completed"; "failed"] e.
Proof.
  unfold runSlither. destruct (isToolInstalled (shell w) "slither") eqn:Hinst.
  - destruct (executeCommand _ _ _ _ _ _) as [res|e] eqn:Hrun.
    + rewrite (executeCommand_success _ _ _ _ _ _ _ Hrun).
      eexists. split; [done|].
      apply toolRan_describes; [done|set_solver|done].
    + eexists. split; [done|]. apply toolFailed_describes; [done|set_solver].
  - eexists. split; [done|]. by apply (toolMissing_describes w "slither").
Qed.

Lemma runSolhint_entry w p dir :
  ∃ e, runSolhint w p dir = Some e
       ∧ Facts.describes w "solhint" ["passed"; "warnings"; "failed"] e.
Proof.
  unfold runSolhint. destruct (isToolInstalled (shell w) "solhint") eqn:Hinst.
  - destruct (executeCommand _ _ _ _ _ _) as [res|e] eqn:Hrun.
    + eexists. split; [done|].
      destruct (exitCode res =? 0)%Z;
        (apply toolRan_describes; [done|set_solver|done]).
    + eexists. split; [done|]. apply toolFailed_describes; [done|set_solver].
  - eexists. split; [done|]. by apply (toolMissing_describes w "solhint").
Qed.

Lemma runMythril_entry w o p dir :
  comprehensiveMode o = true →
  ∃ e, runMythril w o p dir = Some e
       ∧ Facts.describes w "myth" ["completed"; "warnings"; "failed"] e.
Proof.
  intros Hmode. unfold runMythril. rewrite Hmode. cbn [andb].
  destruct (isToolInstalled (shell w) "myth") eqn:Hinst.
  - destruct (executeCommand _ _ _ _ _ _) as [res|e] eqn:Hrun.
    + eexists. split; [done|].
      destruct (exitCode res =? 0)%Z;
        (apply toolRan_describes; [done|set_solver|done]).
    + eexists. split; [done|]. apply toolFailed_describes; [done|set_solver].
  - eexists. split; [done|]. by apply (toolMissing_describes w "myth").
Qed.

Lemma runMythril_skipped w o p dir :
  comprehensiveMode o = false → runMythril w o p dir = None.
Proof. intros Hmode. unfold runMythril. by rewrite Hmode. Qed.
End Tools.

(** X9. The external tools of a report.  With the tools switched off the
    object is empty.  With the tools switched on it always has an entry
    for slither and one for solhint, and an entry for mythril exactly in
    the comprehensive mode; no other key occurs.  Each entry tells whether
    the executable ([slither], [solhint], [myth]) is installed; a missing
    tool carries the installation hint of the runner's table and no
    status, an installed one a status ([completed] or [failed] for
    slither, [passed], [warnings] or [failed] for solhint, [completed],
    [warnings] or [failed] for mythril), the output unless the run failed
    and the error text exactly when it failed. *)
Theorem X9_external_tool_entries
    (w : Comprehensive.World) (o : Comprehensive.Options) (p : string) :
  let tools := Comprehensive.externalToolsStage w o p in
  (Comprehensive.useExternalTools o = false → tools = ∅)
  ∧ (Comprehensive.useExternalTools o = true →
     (∃ e, tools !! "slither" = Some e
           ∧ Facts.describes w "slither" ["completed"; "failed"] e)
     ∧ (∃ e, tools !! "solhint" = Some e
             ∧ Facts.describes w "solhint" ["passed"; "warnings"; "failed"] e)
     ∧ (Comprehensive.comprehensiveMode o = true →
        ∃ e, tools !! "mythril" = Some e
             ∧ Facts.describes w "myth" ["completed"; "warnings"; "failed"] e)
     ∧ (Comprehensive.comprehensiveMode o = false → tools !! "mythril" = None)
     ∧ (∀ k, is_Some (tools !! k) → k ∈ ["slither"; "solhint"; "mythril"])).
Proof.
  intros tools. subst tools. unfold Comprehensive.externalToolsStage.
  split; [by intros ->|]. intros ->.
  set (dir := Comprehensive.dirname (Comprehensive.fsys w) p).
  destruct (runSlither_entry w p dir) as (sl & -> & Hsl).
  destruct (runSolhint_entry w p dir) as (sh & -> & Hsh).
  cbn [Comprehensive.assign].
  destruct (Comprehensive.comprehensiveMode o) eqn:Hmode.
  - destruct (runMythril_entry w o p dir Hmode) as (my & -> & Hmy).
    cbn [Comprehensive.assign].
    split_and!.
    + exists sl. split; [|done].
      rewrite !lookup_insert_ne by done. by rewrite lookup_insert_eq.
    + exists sh. split; [|done].
      rewrite lookup_insert_ne by done. by rewrite lookup_insert_eq.
    + intros _. exists my. split; [|done]. by rewrite lookup_insert_eq.
    + discriminate.
    + intros k [e Hk].
      destruct (decide (k = "mythril")) as [->|?]; [set_solver|].
      rewrite lookup_insert_ne in Hk by done.
      destruct (decide (k = "solhint")) as [->|?]; [set_solver|].
      rewrite lookup_insert_ne in Hk by done.
      destruct (decide (k = "slither")) as [->|?]; [set_solver|].
      rewrite lookup_insert_ne in Hk by done. by rewrite lookup_empty in Hk.
  - rewrite (runMythril_skipped w o p dir Hmode). cbn [Comprehensive.assign].
    split_and!.
    + exists sl. split; [|done].
      rewrite !lookup_insert_ne by done. by rewrite lookup_insert_eq.
    + exists sh. split; [|done]. by rewrite lookup_insert_eq.
    + discriminate.
    + intros _. by rewrite !lookup_insert_ne by done.
    + intros k [e Hk].
      destruct (decide (k = "solhint")) as [->|?]; [set_solver|].
      rewrite lookup_insert_ne in Hk by done.
      destruct (decide (k = "slither")) as [->|?]; [set_solver|].
      rewrite lookup_insert_ne in Hk by done. by rewrite lookup_empty in Hk.
Qed.

(** ** The outcomes of the comprehensive handler *)

Section Outcomes.
Import Core Comprehensive.

(** A report comes from a file that could be read, and its contract part
    is the analysis of the text of that file. *)
Lemma analysis_ok_inv w p o log report log' :
  analysis w p o log = (Ok report, log') →
  ∃ content info,
    readFile w p = Ok content ∧ getFileInfo w p = Ok info
    ∧ contract report = analyzeContent info content
    ∧ externalTools report = externalToolsStage w o p.
Proof.
  unfold analysis, Knowledge.bind, lift, Knowledge.ret.
  destruct (readFile w p) as [content|e] eqn:Hread; [|done].
  rewrite (getFileInfo_ok w p content Hread).
  destruct (includeKnowledgeBase o); cbn [andb].
  - destruct (knowledgeStage _ _ _ log) as [[kr|e] log1]; [|done].
    destruct (includeSimilarExploits o).
    + destruct (similarStage _ _ _ _ log1) as [[se|e] log2]; [|done].
      intros [= <- <-]. eexists _, _. split_and!; reflexivity.
    + intros [= <- <-]. eexists _, _. split_and!; reflexivity.
  - intros [= <- <-]. eexists _, _. split_and!; reflexivity.
Qed.

End Outcomes.

(** X10. What the comprehensive handler does with the file.  For a path
    that does not exist the response is the error [File not found] with
    the path; for a file larger than the configured maximum it is the
    error [Analysis failed] with the text of the size error; in both cases
    the knowledge base is not queried.  A report is returned only for a
    file that exists and is within the size limit; its contract part is
    the analysis of the text of that file, described by its path, base
    name, size and number of lines, and its tools part is what the tools
    stage produced. *)
Theorem X10_file_outcomes
    (w : Comprehensive.World) (p : string) (o : Comprehensive.Options) :
  let fs := Comprehensive.fsys w in
  let size := Comprehensive.fs_size fs p in
  (Comprehensive.fs_exists fs p = false →
     Comprehensive.handler w p o
     = (Comprehensive.errorResponse "File not found" [("path", p)], []))
  ∧ (Comprehensive.fs_exists fs p = true →
     (Core.maxFileSize (Comprehensive.config w) < size)%nat →
     Comprehensive.handler w p o
     = (Comprehensive.errorResponse "Analysis failed"
          [("error", "McpError: File too large: " +:+ JS.ofNat size)], []))
  ∧ (∀ report log,
       Comprehensive.handler w p o = (Comprehensive.jsonResponse report, log) →
       Comprehensive.fs_exists fs p = true
       ∧ (size ≤ Core.maxFileSize (Comprehensive.config w))%nat
       ∧ Comprehensive.contract report
         = Comprehensive.analyzeContent
             {| Comprehensive.path := p;
                Comprehensive.fname := Comprehensive.basename fs p;
                Comprehensive.size := size;
                Comprehensive.lines :=
                  JS.countLines (Comprehensive.fs_content fs p) |}
             (Comprehensive.fs_content fs p)
       ∧ Comprehensive.externalTools report
         = Comprehensive.externalToolsStage w o p).
Proof.
  intros fs size. subst fs size. split_and!.
  - intros Hex. unfold Comprehensive.handler. by rewrite Hex.
  - intros Hex Hbig. unfold Comprehensive.handler. rewrite Hex. cbn [negb].
    rewrite (analysis_unreadable w p o []
               (Core.FileError
                  ("File too large: "
                   +:+ JS.ofNat (Comprehensive.fs_size (Comprehensive.fsys w) p)) p)).
    + reflexivity.
    + unfold Comprehensive.readFile. rewrite Hex. cbn [negb].
      by apply Nat.ltb_lt in Hbig as ->.
  - intros report log. unfold Comprehensive.handler.
    destruct (Comprehensive.fs_exists (Comprehensive.fsys w) p) eqn:Hex;
      cbn [negb]; [|discriminate].
    destruct (Comprehensive.analysis w p o []) as [[r|e] log1] eqn:Hrun;
      [|discriminate].
    intros [= <- <-].
    destruct (analysis_ok_inv _ _ _ _ _ _ Hrun)
      as (content & info & Hread & Hinfo & Hca & Htools).
    rewrite (getFileInfo_ok w p content Hread) in Hinfo.
    injection Hinfo as <-.
    destruct (readFile_ok w p content Hread) as (_ & Hsize & ->).
    split_and!; done.
Qed.

(** X11. With the knowledge base switched off the vector database plays
    no part, whatever the other options say: for a readable file the
    handler returns a report without issuing a single query, also when
    similar exploits were asked for; the report has no knowledge part, no
    similar exploits, no knowledge matches and no source totals, and it
    is the same report whatever database the server is connected to. *)
Theorem X11_knowledge_switched_off
    (w : Comprehensive.World) (p : string) (o : Comprehensive.Options)
    (content : string) :
  Comprehensive.includeKnowledgeBase o = false →
  Comprehensive.readFile w p = Core.Ok content →
  ∃ report,
    Comprehensive.handler w p o = (Comprehensive.jsonResponse report, [])
    ∧ Comprehensive.knowledgeBase report = None
    ∧ Comprehensive.similarExploitsFound (Comprehensive.r_summary report) = 0%nat
    ∧ Comprehensive.knowledgeBaseMatches (Comprehensive.r_summary report) = 0%nat
    ∧ Comprehensive.totalSources (Comprehensive.r_summary report) = None
    ∧ ∀ db,
        Comprehensive.handler
          {| Comprehensive.config := Comprehensive.config w;
             Comprehensive.fsys := Comprehensive.fsys w;
             Comprehensive.shell := Comprehensive.shell w;
             Comprehensive.vectorDb := db |} p o
        = (Comprehensive.jsonResponse report, []).
Proof.
  intros Hkb Hread.
  destruct (readFile_ok w p content Hread) as (Hex & _ & _).
  eexists. split_and!.
  - unfold Comprehensive.handler, Comprehensive.analysis, Knowledge.bind,
      Comprehensive.lift, Knowledge.ret.
    rewrite Hex, Hread, (getFileInfo_ok w p content Hread), Hkb.
    cbn [negb andb]. reflexivity.
  - reflexivity.
  - reflexivity.
  - reflexivity.
  - reflexivity.
  - intros db.
    unfold Comprehensive.handler, Comprehensive.analysis, Knowledge.bind,
      Comprehensive.lift, Knowledge.ret.
    cbn [Comprehensive.fsys Comprehensive.config Comprehensive.shell
         Comprehensive.vectorDb].
    unfold Comprehensive.getFileInfo, Comprehensive.readFile in *.
    cbn [Comprehensive.fsys Comprehensive.config] in *.
    rewrite Hex, Hkb in *. cbn [negb andb] in *. rewrite Hread.
    reflexivity.
Qed.

(** The vault on a machine without tools, knowledge base switched off
    although similar exploits are asked for. *)
Lemma X11_knowledge_switched_off_witness :
  ∃ report,
    Comprehensive.handler Samples.offlineWorld "Vault.sol"
      {| Comprehensive.includeKnowledgeBase := false;
         Comprehensive.knowledgeLimit := 10;
         Comprehensive.includeSimilarExploits := true;
         Comprehensive.useExternalTools := true;
         Comprehensive.comprehensiveMode := true |}
    = (Comprehensive.jsonResponse report, [])
    ∧ Comprehensive.similarExploitsFound (Comprehensive.r_summary report) = 0%nat.
Proof.
  destruct (X11_knowledge_switched_off Samples.offlineWorld "Vault.sol"
              {| Comprehensive.includeKnowledgeBase := false;
                 Comprehensive.knowledgeLimit := 10;
                 Comprehensive.includeSimilarExploits := true;
                 Comprehensive.useExternalTools := true;
                 Comprehensive.comprehensiveMode := true |}
              Samples.vaultSource eq_refl eq_refl)
    as (report & Hrun & _ & Hnone & _).
  exists report. split; [exact Hrun | exact Hnone].
Defined.

(** ** Tables of checks *)

Section Tables.
Import SolidityUtils.
Implicit Types (rules : list ((string → bool) * string)).

Lemma detect_runs_rules src :
  detectProtocolType src
  = map snd (filter (fun r => r.1 src = true) Facts.protocolRules).
Proof.
  change (detectProtocolType src)
    with (fold_left (fun acc r => pushIf (r.1 src) r.2 acc) Facts.protocolRules []).
  by rewrite fold_pushIf.
Qed.

Lemma rules_sublist rules src :
  map snd (filter (fun r => r.1 src = true) rules) `sublist_of` map snd rules.
Proof. apply (fmap_sublist snd), sublist_filter. Qed.

Lemma rules_one_check rules c1 c2 msg :
  NoDup (map snd rules) → (c1, msg) ∈ rules → (c2, msg) ∈ rules → c1 = c2.
Proof.
  induction rules as [|[c m] rules IH]; intros Hnd H1 H2.
  - by apply elem_of_nil in H1.
  - cbn [map snd] in Hnd. apply NoDup_cons in Hnd as [Hnot Hnd].
    apply elem_of_cons in H1 as [H1|H1];
      apply elem_of_cons in H2 as [H2|H2]; simplify_eq; try done.
    + exfalso. apply Hnot. apply list_elem_of_fmap. by exists (c2, m).
    + exfalso. apply Hnot. apply list_elem_of_fmap. by exists (c1, m).
    + by apply IH.
Qed.

Lemma rules_reported rules src c msg :
  NoDup (map snd rules) → (c, msg) ∈ rules →
  msg ∈ map snd (filter (fun r => r.1 src = true) rules) ↔ c src = true.
Proof.
  intros Hnd Hin. split.
  - intros ([c' m] & Hm & [Hc Hr]%list_elem_of_filter)%list_elem_of_fmap.
    cbn [fst snd] in *. subst m.
    by rewrite (rules_one_check rules c c' msg Hnd Hin Hr).
  - intros Hc. apply list_elem_of_fmap. exists (c, msg). split; [done|].
    by apply list_elem_of_filter.
Qed.

Lemma indicatorRules_NoDup : NoDup (map snd Spec.indicatorRules).
Proof. apply (bool_decide_unpack _). vm_compute. exact I. Qed.

Lemma protocolRules_NoDup : NoDup (map snd Facts.protocolRules).
Proof. apply (bool_decide_unpack _). vm_compute. exact I. Qed.

Lemma detectProtocolType_length src : (length (detectProtocolType src) ≤ 6)%nat.
Proof.
  rewrite detect_runs_rules.
  apply (sublist_length _ _ (rules_sublist Facts.protocolRules src)).
Qed.
End Tables.

(** X12. The two scans of a source text report each finding once and in
    the order of their checks: the protocols are a sublist of the
    catalogue ERC20, ERC721, Balancer, Uniswap, Chainlink, OpenZeppelin,
    the indicators a sublist of the 21 messages of the indicator checks;
    neither list has a duplicate, and a protocol or indicator is reported
    exactly when its check holds for the text. *)
Theorem X12_scans_report_each_finding_once (src : string) :
  let protos := SolidityUtils.detectProtocolType src in
  let inds := SolidityUtils.checkVulnerabilityIndicators src in
  protos `sublist_of`
    ["ERC20"; "ERC721"; "Balancer"; "Uniswap"; "Chainlink"; "OpenZeppelin"]
  ∧ inds `sublist_of` map snd Spec.indicatorRules
  ∧ NoDup protos ∧ NoDup inds
  ∧ (length protos ≤ 6)%nat ∧ (length inds ≤ 21)%nat
  ∧ (∀ c name, (c, name) ∈ Facts.protocolRules →
       name ∈ protos ↔ c src = true)
  ∧ (∀ c msg, (c, msg) ∈ Spec.indicatorRules →
       msg ∈ inds ↔ c src = true).
Proof.
  intros protos inds. subst protos inds.
  rewrite detect_runs_rules, scan_runs_rules, fold_pushIf. cbn [app].
  pose proof (rules_sublist Facts.protocolRules src) as Hp.
  pose proof (rules_sublist Spec.indicatorRules src) as Hi.
  split_and!.
  - exact Hp.
  - exact Hi.
  - exact (sublist_NoDup _ _ protocolRules_NoDup Hp).
  - exact (sublist_NoDup _ _ indicatorRules_NoDup Hi).
  - exact (sublist_length _ _ Hp).
  - exact (sublist_length _ _ Hi).
  - intros c name. apply rules_reported, protocolRules_NoDup.
  - intros c msg. apply rules_reported, indicatorRules_NoDup.
Qed.

(** ** The queries of the knowledge stage *)

Section Plans.
Import Comprehensive.

Lemma ceilDiv_bounds (a : Z) (b : nat) :
  (0 < b)%nat →
  (a ≤ JS.ceilDiv a b * Z.of_nat b)%Z
  ∧ (JS.ceilDiv a b * Z.of_nat b < a + Z.of_nat b)%Z.
Proof.
  intros Hb. unfold JS.ceilDiv.
  assert (0 < Z.of_nat b)%Z as Hpos by lia.
  pose proof (Z.div_mod (- a) (Z.of_nat b) ltac:(lia)) as Hdm.
  pose proof (Z.mod_pos_bound (- a) (Z.of_nat b) Hpos) as Hmod.
  split; nia.
Qed.

Lemma buildQueries_length ca mode :
  length (buildQueries ca mode)
  = if mode
    then (1 + (length (indicators (security ca)) `min` 3) + length (protocols ca))%nat
    else 1%nat.
Proof.
  unfold buildQueries. destruct mode; [|done].
  cbn [app length]. rewrite length_app, !length_map, length_firstn. lia.
Qed.

Lemma searchProbes_length n (queries : list string) :
  length (flat_map (Spec.searchProbes n) queries) = (3 * length queries)%nat.
Proof.
  induction queries as [|q queries IH]; [done|].
  cbn [flat_map]. rewrite length_app, IH. simpl. lia.
Qed.
End Plans.

(** X13. The query plan of the knowledge stage for an analysed file.
    With the comprehensive mode off there is one query; in the
    comprehensive mode there is the primary query, one query for each of
    the first three indicators and one for each detected protocol, hence
    between 1 and 10 queries.  Each query is sent to the three
    collections with the limit divided by the number of queries, rounded
    up, as capacity, so the capacities of the queries add up to at least
    the limit and to less than the limit plus the number of queries; a
    database that answers receives exactly three calls per query. *)
Theorem X13_query_plan
    (info : Comprehensive.FileInfo) (content : string)
    (o : Comprehensive.Options)
    (rows : Knowledge.Probe → list Knowledge.QueryResult)
    (log : list Knowledge.Probe) :
  let ca := Comprehensive.analyzeContent info content in
  let queries :=
    Comprehensive.buildQueries ca (Comprehensive.comprehensiveMode o) in
  let n := length queries in
  let capacity := JS.ceilDiv (Comprehensive.knowledgeLimit o) n in
  n = (if Comprehensive.comprehensiveMode o
       then (1 + (length (Comprehensive.indicators (Comprehensive.security ca))
                  `min` 3)
             + length (Comprehensive.protocols ca))%nat
       else 1%nat)
  ∧ (1 ≤ n ≤ 10)%nat
  ∧ (Comprehensive.knowledgeLimit o ≤ capacity * Z.of_nat n)%Z
  ∧ (capacity * Z.of_nat n < Comprehensive.knowledgeLimit o + Z.of_nat n)%Z
  ∧ (Comprehensive.knowledgeStage (Spec.answering rows) ca o log).2
    = log ++ flat_map (Spec.searchProbes capacity) queries
  ∧ length (flat_map (Spec.searchProbes capacity) queries) = (3 * n)%nat.
Proof.
  intros ca queries n capacity.
  assert (n = if Comprehensive.comprehensiveMode o
              then (1 + (length (Comprehensive.indicators (Comprehensive.security ca))
                         `min` 3)
                    + length (Comprehensive.protocols ca))%nat
              else 1%nat) as Hn
    by apply buildQueries_length.
  assert (1 ≤ n ≤ 10)%nat as Hrange.
  { rewrite Hn. destruct (Comprehensive.comprehensiveMode o); [|lia].
    pose proof (detectProtocolType_length content) as Hp.
    change (Comprehensive.protocols ca)
      with (SolidityUtils.detectProtocolType content). lia. }
  destruct (ceilDiv_bounds (Comprehensive.knowledgeLimit o) n ltac:(lia))
    as [Hlow Hhigh].
  split_and!; try done; try lia.
  - pose proof (knowledgeStage_answering rows ca o log) as Hrun.
    cbv zeta in Hrun. fold queries in Hrun. fold n in Hrun.
    fold capacity in Hrun. by rewrite Hrun.
  - apply searchProbes_length.
Qed.

(** X14. [searchAll] is all or nothing.  Whatever the database does, a
    search issues exactly three calls, to the exploits, the audit findings
    and the SWC collection in this order, each with the query text and the
    limit (3 when none is given) and without a filter.  It returns a
    result exactly when all three calls answer, and the result holds the
    rows of each call unchanged; when it raises, the error is the one of
    a call that raised, so rows of the other collections are dropped. *)
Theorem X14_search_all_or_nothing
    (db : Knowledge.VectorDb) (q : string) (limit : option Z)
    (log : list Knowledge.Probe) :
  let n := default 3%Z limit in
  let run := Knowledge.searchAll db q limit log in
  run.2 = log ++ Spec.searchProbes n q
  ∧ (∀ a, run.1 = Core.Ok a ↔
          db (Spec.probeOf Knowledge.EXPLOITS q n) = Core.Ok (Knowledge.exploits a)
          ∧ db (Spec.probeOf Knowledge.AUDIT_FINDINGS q n)
            = Core.Ok (Knowledge.auditFindings a)
          ∧ db (Spec.probeOf Knowledge.SWC q n) = Core.Ok (Knowledge.swc a))
  ∧ (∀ e, run.1 = Core.Throw e →
          ∃ p, p ∈ Spec.searchProbes n q ∧ db p = Core.Throw e).
Proof.
  intros n run. subst run.
  unfold Knowledge.searchAll, Knowledge.bind, Knowledge.promiseAll3,
    Knowledge.findSimilarExploits, Knowledge.findSimilarAuditFindings,
    Knowledge.querySWC, Knowledge.query, Knowledge.ret.
  fold n. generalize n. clear n. intros n.
  cbn [default from_option id Knowledge.whereOf].
  change {| Knowledge.collection := Knowledge.EXPLOITS; Knowledge.queryText := q;
            Knowledge.nResults := n; Knowledge.whereEq := None |}
    with (Spec.probeOf Knowledge.EXPLOITS q n).
  change {| Knowledge.collection := Knowledge.AUDIT_FINDINGS; Knowledge.queryText := q;
            Knowledge.nResults := n; Knowledge.whereEq := None |}
    with (Spec.probeOf Knowledge.AUDIT_FINDINGS q n).
  change {| Knowledge.collection := Knowledge.SWC; Knowledge.queryText := q;
            Knowledge.nResults := n; Knowledge.whereEq := None |}
    with (Spec.probeOf Knowledge.SWC q n).
  unfold Spec.searchProbes.
  destruct (db (Spec.probeOf Knowledge.EXPLOITS q n)) as [ex|e1] eqn:H1;
    destruct (db (Spec.probeOf Knowledge.AUDIT_FINDINGS q n)) as [au|e2] eqn:H2;
    destruct (db (Spec.probeOf Knowledge.SWC q n)) as [sw|e3] eqn:H3;
    cbn [fst snd]; rewrite <- !app_assoc; cbn [app];
    (split_and!; [reflexivity| |]).
  all: try (intros a; split; [discriminate|intros (? & ? & ?); discriminate]).
  all: try discriminate.
  - intros [ex' au' sw']. cbn. split.
    + intros [= <- <- <-]. done.
    + intros ([= <-] & [= <-] & [= <-]). done.
  - intros e [= <-]. eexists. split; [|exact H3]. set_solver.
  - intros e [= <-]. eexists. split; [|exact H2]. set_solver.
  - intros e [= <-]. eexists. split; [|exact H2]. set_solver.
  - intros e [= <-]. eexists. split; [|exact H1]. set_solver.
  - intros e [= <-]. eexists. split; [|exact H1]. set_solver.
  - intros e [= <-]. eexists. split; [|exact H1]. set_solver.
  - intros e [= <-]. eexists. split; [|exact H1]. set_solver.
Qed.

(** ** Answers that bring nothing new *)

Section Replay.
Import Comprehensive.

Lemma mergeCollection_seen rows (acc : list Formatted) (ids : gset string) :
  (∀ r, r ∈ rows → Knowledge.id r ∈ ids) →
  mergeCollection rows (acc, ids) = (acc, ids).
Proof.
  induction rows as [|r rows IH]; intros Hall; [done|].
  rewrite mergeCollection_cons, mergeResult_old by (apply Hall; left).
  apply IH. intros r' Hr'. apply Hall. by right.
Qed.

Lemma aggregateStep_seen agg a :
  (∀ x, x ∈ Facts.answerIds a → x ∈ Spec.allIds agg) →
  aggregateStep agg a = agg.
Proof.
  intros Hall.
  assert (∀ r, r ∈ Knowledge.swc a ++ Knowledge.exploits a
                   ++ Knowledge.auditFindings a →
               Knowledge.id r ∈ existingIdsOf agg) as Hseen.
  { intros r Hr. unfold existingIdsOf. apply elem_of_list_to_set.
    apply Hall. unfold Facts.answerIds. apply list_elem_of_fmap. by exists r. }
  unfold aggregateStep.
  rewrite (mergeCollection_seen (Knowledge.swc a))
    by (intros r Hr; apply Hseen; set_solver).
  cbn [fst snd].
  rewrite (mergeCollection_seen (Knowledge.exploits a))
    by (intros r Hr; apply Hseen; set_solver).
  cbn [fst snd].
  rewrite (mergeCollection_seen (Knowledge.auditFindings a))
    by (intros r Hr; apply Hseen; set_solver).
  by destruct agg.
Qed.

Lemma mergeAll_snoc answers a :
  Spec.mergeAll (answers ++ [a]) = aggregateStep (Spec.mergeAll answers) a.
Proof. unfold Spec.mergeAll. by rewrite fold_left_app. Qed.

Lemma fold_uniqueAdd_sublist (rs acc : list Knowledge.QueryResult) :
  ∃ new,
    fold_left uniqueAdd rs acc = acc ++ new
    ∧ new `sublist_of` rs
    ∧ (∀ r, r ∈ rs → Knowledge.id r ∈ map Knowledge.id (acc ++ new)).
Proof.
  revert acc. induction rs as [|r rs IH]; intros acc.
  - exists []. rewrite app_nil_r. split_and!; [done|done|].
    intros r Hr. by apply elem_of_nil in Hr.
  - cbn [fold_left].
    destruct (decide (Knowledge.id r ∈ map Knowledge.id acc)) as [Hin|Hnin].
    + rewrite uniqueAdd_old by done.
      destruct (IH acc) as (new & Heq & Hsub & Hall).
      exists new. split_and!; [done|by apply sublist_cons|].
      intros r' [->|Hr']%elem_of_cons; [|by apply Hall].
      rewrite fmap_app. apply elem_of_app. by left.
    + rewrite uniqueAdd_new by done.
      destruct (IH (acc ++ [r])) as (new & Heq & Hsub & Hall).
      exists (r :: new). rewrite Heq, <- app_assoc.
      split_and!; [done|by apply sublist_skip|].
      intros r' [->|Hr']%elem_of_cons.
      * rewrite fmap_app. apply elem_of_app. right. simpl. left.
      * specialize (Hall r' Hr'). by rewrite <- app_assoc in Hall.
Qed.

Lemma fold_uniqueAdd_distinct (rs acc : list Knowledge.QueryResult) :
  NoDup (map Knowledge.id (acc ++ rs)) → fold_left uniqueAdd rs acc = acc ++ rs.
Proof.
  revert acc. induction rs as [|r rs IH]; intros acc Hnd.
  - by rewrite app_nil_r.
  - cbn [fold_left]. rewrite uniqueAdd_new.
    + rewrite IH; rewrite <- app_assoc; done.
    + rewrite fmap_app in Hnd. apply NoDup_app in Hnd as (_ & Hdisj & _).
      intros Hin. apply (Hdisj _ Hin). simpl. left.
Qed.
End Replay.

(** X15. An answer that brings no new id changes nothing: when every id
    of the rows of an answer already occurs in one of the three merged
    lists, merging that answer leaves the lists as they are, so the
    knowledge results of the run are the same with and without it.  In
    particular, asking a query a second time and getting the same answer
    adds nothing. *)
Theorem X15_seen_answers_add_nothing
    (limit : Z) (answers : list Knowledge.SearchAllResult)
    (a : Knowledge.SearchAllResult) :
  (∀ x, x ∈ Facts.answerIds a → x ∈ Spec.allIds (Spec.mergeAll answers)) →
  Spec.mergeAll (answers ++ [a]) = Spec.mergeAll answers
  ∧ Spec.aggregateRun limit (answers ++ [a]) = Spec.aggregateRun limit answers
  ∧ (∀ b, b ∈ answers →
          Spec.mergeAll (answers ++ [b]) = Spec.mergeAll answers).
Proof.
  intros Hseen.
  assert (Spec.mergeAll (answers ++ [a]) = Spec.mergeAll answers) as Heq
    by (rewrite mergeAll_snoc; by apply aggregateStep_seen).
  split_and!; [done| |].
  - unfold Spec.aggregateRun. by rewrite Heq.
  - intros b Hb. rewrite mergeAll_snoc. apply aggregateStep_seen.
    intros x (r & -> & Hr)%list_elem_of_fmap.
    destruct (mergeAll_aggregated answers) as [_ _ _ _ Hall].
    by apply (Hall b r).
Qed.

Lemma sharedId_seen :
  ∀ x, x ∈ Facts.answerIds Samples.sharedIdAnswer →
       x ∈ Spec.allIds (Spec.mergeAll [Samples.sharedIdAnswer]).
Proof.
  intros x Hx.
  assert (Facts.answerIds Samples.sharedIdAnswer = ["X"; "X"]) as Hids
    by reflexivity.
  assert (Spec.allIds (Spec.mergeAll [Samples.sharedIdAnswer]) = ["X"]) as ->
    by (vm_compute; reflexivity).
  rewrite Hids in Hx. clear -Hx. set_solver.
Qed.

(** The answer with the id [X] in two collections, merged twice. *)
Lemma X15_seen_answers_witness :
  Spec.mergeAll ([Samples.sharedIdAnswer] ++ [Samples.sharedIdAnswer])
  = Spec.mergeAll [Samples.sharedIdAnswer].
Proof.
  exact (proj1 (X15_seen_answers_add_nothing 10 [Samples.sharedIdAnswer]
                  Samples.sharedIdAnswer sharedId_seen)).
Defined.

(** X16. The deduplication of the similar exploits drops rows and does
    nothing else: the rows it keeps are a sublist of the rows found, in
    their order; every id that was found is still present; rows whose ids
    are all different pass unchanged; and deduplicating twice is the same
    as deduplicating once. *)
Theorem X16_dedup_only_drops_repeats (rs : list Knowledge.QueryResult) :
  Comprehensive.uniqueById rs `sublist_of` rs
  ∧ (∀ r, r ∈ rs →
          Knowledge.id r ∈ map Knowledge.id (Comprehensive.uniqueById rs))
  ∧ (NoDup (map Knowledge.id rs) → Comprehensive.uniqueById rs = rs)
  ∧ Comprehensive.uniqueById (Comprehensive.uniqueById rs)
    = Comprehensive.uniqueById rs.
Proof.
  assert (∀ l, NoDup (map Knowledge.id l) → Comprehensive.uniqueById l = l)
    as Hdistinct.
  { intros l Hnd. unfold Comprehensive.uniqueById.
    by rewrite fold_uniqueAdd_distinct. }
  split_and!.
  - unfold Comprehensive.uniqueById.
    by destruct (fold_uniqueAdd_sublist rs []) as (new & -> & Hsub & _).
  - unfold Comprehensive.uniqueById.
    by destruct (fold_uniqueAdd_sublist rs []) as (new & -> & _ & Hall).
  - apply Hdistinct.
  - apply Hdistinct. exact (proj1 (uniqueById_spec rs)).
Qed.

(** ** Risk and evidence *)

Section Evidence.
Import Comprehensive.

Lemma levelOf_mono (a b : nat) :
  (a ≤ b)%nat → (Facts.levelRank (levelOf a) ≤ Facts.levelRank (levelOf b))%nat.
Proof.
  intros Hab. unfold levelOf.
  destruct (Nat.leb_spec 70 a), (Nat.leb_spec 50 a), (Nat.leb_spec 30 a),
    (Nat.leb_spec 10 a), (Nat.leb_spec 70 b), (Nat.leb_spec 50 b),
    (Nat.leb_spec 30 b), (Nat.leb_spec 10 b); simpl; lia.
Qed.

Lemma addFactor_keeps c n msg (acc : nat * list string) x :
  x ∈ acc.2 → x ∈ (addFactor c n msg acc).2.
Proof.
  intros Hx. unfold addFactor. destruct c; [|done].
  cbn [snd]. apply elem_of_app. by left.
Qed.

Lemma addFactor_adds n msg (acc : nat * list string) :
  msg ∈ (addFactor true n msg acc).2.
Proof. unfold addFactor. cbn [snd]. apply elem_of_app. right. left. Qed.
End Evidence.

(** X17. More evidence never lowers the risk: every further similar
    exploit adds 5 to the score, and the level of a larger score is the
    same or a higher one in the order INFO, LOW, MEDIUM, HIGH, CRITICAL. *)
Theorem X17_more_evidence_never_lowers_risk
    (ca : Comprehensive.ContractAnalysis)
    (kr : Comprehensive.KnowledgeResults)
    (se more : list Comprehensive.SimilarExploit) :
  let before := Comprehensive.assessRisk ca kr se in
  let after := Comprehensive.assessRisk ca kr (se ++ more) in
  Comprehensive.score after
  = (Comprehensive.score before + 5 * length more)%nat
  ∧ (Facts.levelRank (Comprehensive.level before)
     ≤ Facts.levelRank (Comprehensive.level after))%nat
  ∧ (∀ a b, (a ≤ b)%nat →
            (Facts.levelRank (Comprehensive.levelOf a)
             ≤ Facts.levelRank (Comprehensive.levelOf b))%nat).
Proof.
  intros before after.
  assert (Comprehensive.score after
          = (Comprehensive.score before + 5 * length more)%nat) as Hscore.
  { subst before after. rewrite !assessRisk_score, length_app. lia. }
  split_and!; [done| |apply levelOf_mono].
  change (Comprehensive.level before)
    with (Comprehensive.levelOf (Comprehensive.score before)).
  change (Comprehensive.level after)
    with (Comprehensive.levelOf (Comprehensive.score after)).
  apply levelOf_mono. lia.
Qed.

(** X18. A text without the words of a guard is never rated below HIGH.
    When the text contains none of [nonReentrant], [ReentrancyGuard],
    [onlyOwner] and [AccessControl], the score is at least 50 whatever
    else the analysis and the knowledge base find, the level is HIGH or
    CRITICAL, and the factors name the missing reentrancy protection and
    the missing access control.  This holds for the empty file too. *)
Theorem X18_unguarded_text_is_high_risk
    (info : Comprehensive.FileInfo) (content : string)
    (kr : Comprehensive.KnowledgeResults)
    (se : list Comprehensive.SimilarExploit) :
  JS.includes content "nonReentrant" = false →
  JS.includes content "ReentrancyGuard" = false →
  JS.includes content "onlyOwner" = false →
  JS.includes content "AccessControl" = false →
  let risk :=
    Comprehensive.assessRisk (Comprehensive.analyzeContent info content) kr se in
  (50 ≤ Comprehensive.score risk)%nat
  ∧ (Comprehensive.level risk = Comprehensive.HIGH
     ∨ Comprehensive.level risk = Comprehensive.CRITICAL)
  ∧ "Missing reentrancy protection" ∈ Comprehensive.factors risk
  ∧ "Missing access control" ∈ Comprehensive.factors risk.
Proof.
  intros H1 H2 H3 H4 risk.
  set (ca := Comprehensive.analyzeContent info content) in *.
  assert (Comprehensive.hasReentrancyGuard (Comprehensive.security ca) = false)
    as Hguard by (subst ca; cbn; by rewrite H1, H2).
  assert (Comprehensive.hasAccessControl (Comprehensive.security ca) = false)
    as Hacl by (subst ca; cbn; by rewrite H3, H4).
  assert (50 ≤ Comprehensive.score risk)%nat as Hscore.
  { subst risk. rewrite assessRisk_score, Hguard, Hacl. lia. }
  split_and!; [done| | |].
  - change (Comprehensive.level risk)
      with (Comprehensive.levelOf (Comprehensive.score risk)).
    unfold Comprehensive.levelOf.
    destruct (Nat.leb_spec 70 (Comprehensive.score risk)); [by right|].
    destruct (Nat.leb_spec 50 (Comprehensive.score risk)); [by left|lia].
  - subst risk. unfold Comprehensive.assessRisk. cbn [Comprehensive.factors].
    rewrite Hguard. cbn [negb].
    do 6 apply addFactor_keeps. apply addFactor_adds.
  - subst risk. unfold Comprehensive.assessRisk. cbn [Comprehensive.factors].
    rewrite Hacl. cbn [negb].
    do 5 apply addFactor_keeps. apply addFactor_adds.
Qed.

(** The empty file. *)
Lemma X18_unguarded_text_witness :
  (50 ≤ Comprehensive.score
          (Comprehensive.assessRisk
             (Comprehensive.analyzeContent Samples.quietInfo "") ∅ []))%nat.
Proof.
  exact (proj1 (X18_unguarded_text_is_high_risk Samples.quietInfo "" ∅ []
                  eq_refl eq_refl eq_refl eq_refl)).
Defined.

(** ** The quick analysis *)

Section QuickAnalysis.
Import Core Comprehensive.

Lemma filter_same {A} (P Q : A → Prop) `{∀ x, Decision (P x)}
    `{∀ x, Decision (Q x)} (l : list A) :
  (∀ x, P x ↔ Q x) → filter P l = filter Q l.
Proof.
  intros HPQ. induction l as [|x l IH]; [done|].
  destruct (decide (P x)) as [HP|HP].
  - rewrite !filter_cons_True by (done || by apply HPQ). by rewrite IH.
  - rewrite !filter_cons_False by (done || by rewrite <- HPQ). done.
Qed.

Lemma quick_of_content w p content :
  readFile w p = Ok content →
  ∃ info,
    getFileInfo w p = Ok info
    ∧ Quick.handler w p
      = Quick.jsonResponse (Facts.quickOf (analyzeContent info content)).
Proof.
  intros Hread. eexists. split; [by apply getFileInfo_ok|].
  destruct (readFile_ok w p content Hread) as (Hex & _ & _).
  unfold Quick.handler.
  rewrite Hex, Hread, (getFileInfo_ok w p content Hread). cbn [negb].
  unfold Facts.quickOf, analyzeContent, Quick.jsonResponse.
  cbn [file summary security protocols functions totalFunctions external
       public stateChanging hasReentrancyGuard hasAccessControl indicators
       fns_external fns_public].
  unfold externalFnsOf, publicFnsOf.
  rewrite <- !list_fmap_compose.
  assert (filter (fun f => SolidityUtils.visibility f = SolidityUtils.VExternal)
                 (SolidityUtils.extractFunctions content)
          = filter (fun f => isExternal f = true)
                   (SolidityUtils.extractFunctions content)) as ->.
  { apply filter_same. intros f. unfold isExternal.
    by rewrite bool_decide_eq_true. }
  assert (filter (fun f => SolidityUtils.visibility f = SolidityUtils.VPublic)
                 (SolidityUtils.extractFunctions content)
          = filter (fun f => isPublic f = true)
                   (SolidityUtils.extractFunctions content)) as ->.
  { apply filter_same. intros f. unfold isPublic.
    by rewrite bool_decide_eq_true. }
  assert (filter (fun f => SolidityUtils.mutability f ≠ SolidityUtils.MView
                           ∧ SolidityUtils.mutability f ≠ SolidityUtils.MPure)
                 (SolidityUtils.extractFunctions content)
          = filter (fun f => isView f = false)
                   (SolidityUtils.extractFunctions content)) as ->.
  { apply filter_same. intros f. unfold isView.
    destruct (SolidityUtils.mutability f); cbn; split; try done;
      intros [? ?]; done. }
  reflexivity.
Qed.
End QuickAnalysis.

(** X19. The quick analysis is a part of the comprehensive one.  For a
    file that can be read the tool [analyze_contract] returns the file
    description, the function counts, the two guard flags, the
    indicators, the protocols and the names of the external and public
    functions exactly as the contract part of the comprehensive report
    has them; so whenever the comprehensive tool returns a report for the
    file, the quick result is the projection of its contract part. *)
Theorem X19_quick_analysis_agrees
    (w : Comprehensive.World) (p : string) (content : string) :
  Comprehensive.readFile w p = Core.Ok content →
  (∃ info,
     Comprehensive.getFileInfo w p = Core.Ok info
     ∧ Quick.handler w p
       = Quick.jsonResponse
           (Facts.quickOf (Comprehensive.analyzeContent info content)))
  ∧ (∀ o report log,
       Comprehensive.handler w p o = (Comprehensive.jsonResponse report, log) →
       Quick.handler w p
       = Quick.jsonResponse (Facts.quickOf (Comprehensive.contract report))).
Proof.
  intros Hread.
  destruct (quick_of_content w p content Hread) as (info & Hinfo & Hquick).
  split; [by exists info|].
  intros o report log. unfold Comprehensive.handler.
  destruct (Comprehensive.fs_exists (Comprehensive.fsys w) p); cbn [negb];
    [|discriminate].
  destruct (Comprehensive.analysis w p o []) as [[r|e] log1] eqn:Hrun;
    [|discriminate].
  intros [= <- <-].
  destruct (analysis_ok_inv _ _ _ _ _ _ Hrun)
    as (content' & info' & Hread' & Hinfo' & -> & _).
  rewrite Hread in Hread'. injection Hread' as <-.
  rewrite Hinfo in Hinfo'. injection Hinfo' as <-.
  exact Hquick.
Qed.

(** The vault on the sample disk. *)
Lemma X19_quick_analysis_witness :
  ∃ info,
    Comprehensive.getFileInfo Samples.offlineWorld "Vault.sol" = Core.Ok info
    ∧ Quick.handler Samples.offlineWorld "Vault.sol"
      = Quick.jsonResponse
          (Facts.quickOf (Comprehensive.analyzeContent info Samples.vaultSource)).
Proof.
  exact (proj1 (X19_quick_analysis_agrees Samples.offlineWorld "Vault.sol"
                  Samples.vaultSource eq_refl)).
Defined.

(** X20. The two analysis tools on a file that cannot be read.  For a
    path that does not exist both answer with the error [File not found]
    and the path.  For a file above the size limit the quick tool answers
    with the text of the size error as the message and without details,
    the comprehensive tool with the message [Analysis failed] and the
    same text as the detail [error]. *)
Theorem X20_unreadable_file_responses
    (w : Comprehensive.World) (p : string) (o : Comprehensive.Options) :
  let fs := Comprehensive.fsys w in
  let text :=
    "McpError: File too large: " +:+ JS.ofNat (Comprehensive.fs_size fs p) in
  (Comprehensive.fs_exists fs p = false →
     Quick.handler w p
     = Quick.errorResponse "File not found" (Some [("path", p)])
     ∧ Comprehensive.analyze w p o
       = Comprehensive.errorResponse "File not found" [("path", p)])
  ∧ (Comprehensive.fs_exists fs p = true →
     (Core.maxFileSize (Comprehensive.config w)
      < Comprehensive.fs_size fs p)%nat →
     Quick.handler w p = Quick.errorResponse text None
     ∧ Comprehensive.analyze w p o
       = Comprehensive.errorResponse "Analysis failed" [("error", text)]).
Proof.
  intros fs text. subst fs text. split.
  - intros Hex. unfold Quick.handler, Comprehensive.analyze,
      Comprehensive.handler. by rewrite Hex.
  - intros Hex Hbig.
    assert (Comprehensive.readFile w p
            = Core.Throw
                (Core.FileError
                   ("File too large: "
                    +:+ JS.ofNat (Comprehensive.fs_size (Comprehensive.fsys w) p))
                   p)) as Hread.
    { unfold Comprehensive.readFile. rewrite Hex. cbn [negb].
      by apply Nat.ltb_lt in Hbig as ->. }
    split.
    + unfold Quick.handler. rewrite Hex, Hread. reflexivity.
    + unfold Comprehensive.analyze, Comprehensive.handler.
      rewrite Hex. cbn [negb].
      rewrite (analysis_unreadable w p o [] _ Hread). reflexivity.
Qed.
